(** * DPoS arbitrator state engine (Elastos.ELA, package [state]) and the
      view-change countdown (package [manager]): a shallow embedding of the
      Go sources and the properties of their specification.

    Layout: machine integers and float64 helpers, then the data model, then
    the operations of [arbitrators] in the order of the Go file, then the
    countdown and the cache of consensus blocks, then the theorems. *)

From Stdlib Require Import ZArith Floats Lia List Bool Ascii String.
From stdpp Require Import gmap list fin_maps strings sorting.

Local Open Scope Z_scope.

(** ** Machine integers

    Go's [uint32] and [int]/[int64] ([common.Fixed64] is an [int64]) are
    carried by [Z]; every arithmetic operation of the source is followed by
    the wrap-around of its type. *)
Module Int.

Definition uint32 (x : Z) : Z := x mod 2 ^ 32.

Definition int64 (x : Z) : Z := (x + 2 ^ 63) mod 2 ^ 64 - 2 ^ 63.

Definition max_int64 : Z := 2 ^ 63 - 1.
Definition min_int64 : Z := - 2 ^ 63.

(** Go's [%] on signed integers truncates towards zero. *)
Definition rem (a b : Z) : Z := Z.rem a b.

End Int.

(** ** float64

    The reward code and the majority count go through [float64]. The kernel's
    binary64 floats are used for them: conversion from an integer rounds to
    nearest even, conversion to an integer truncates towards zero. *)
Module Float64.

(** [float64(z)] for an integer [z]. *)
Definition of_int (z : Z) : float :=
  SF2Prim (binary_normalize prec emax z 0 false).

(** [int64(f)] / [int(f)]: truncation towards zero. For NaN, infinities and
    values out of range Go leaves the result to the implementation; amd64
    yields the minimal int64, which is what is written here. *)
Definition to_int (f : float) : Z :=
  match Prim2SF f with
  | S754_zero _ => 0
  | S754_finite s m e =>
      let a := if 0 <=? e then Z.pos m * 2 ^ e else Z.pos m / 2 ^ (- e) in
      let v := if s then - a else a in
      if (Int.min_int64 <=? v) && (v <=? Int.max_int64) then v
      else Int.min_int64
  | _ => Int.min_int64
  end.

(** [math.Floor]. *)
Definition Floor (f : float) : float :=
  match Prim2SF f with
  | S754_finite s m e =>
      if 0 <=? e then f
      else of_int ((if s then Z.neg m else Z.pos m) / 2 ^ (- e))
  | _ => f
  end.

(** [math.Ceil]: [-Floor(-f)], so a value in (-1, 0) gives negative zero. *)
Definition Ceil (f : float) : float :=
  match Prim2SF f with
  | S754_finite s m e =>
      if 0 <=? e then f
      else
        let c := - ((if s then Z.pos m else Z.neg m) / 2 ^ (- e)) in
        if (c =? 0) && s then neg_zero else of_int c
  | _ => f
  end.

End Float64.

(** ** Data model *)

(** [[]byte]: a list of bytes, each an 8-bit number. *)
Abbreviation bytes := (list Z).

(** [common.Uint168] (program hash, 21 bytes) and [common.Uint256] (payload
    hash, 32 bytes) as the numbers their bytes spell. *)
Abbreviation Uint168 := Z.
Abbreviation Uint256 := Z.

(** [common.Fixed64] is an [int64]. *)
Abbreviation Fixed64 := Z.

Inductive ChangeType := none | updateNext | normalChange.

#[global] Instance ChangeType_eq_dec : EqDecision ChangeType.
Proof. solve_decision. Defined.

(** The errors the arbitrators return, one constructor per [errors.New] of
    the file; [ErrHost] stands for an error handed in by the host
    ([bestBlock], [PublicKeyToStandardProgramHash]). *)
Inductive error :=
  | ErrInsufficientProducer
  | ErrExpectIllegalBlocksTx
  | ErrInvalidPayloadType
  | ErrRewardMoreThanLimit
  | ErrNotFoundArbiters
  | ErrGetProducerFailed
  | ErrHost (code : Z).

#[global] Instance error_eq_dec : EqDecision error.
Proof. solve_decision. Defined.

Inductive result (A : Type) :=
  | Ok (a : A)
  | Err (e : error).
Arguments Ok {A} a.
Arguments Err {A} e.

(** The fields of [config.Params] the arbitrators read. *)
Record Params := {
  CRCOnlyDPOSHeight : Z;      (* uint32, H1 *)
  PublicDPOSHeight : Z;       (* uint32, H2 *)
  PreConnectOffset : Z;       (* uint32 *)
  GeneralArbiters : Z;        (* int *)
  CandidateArbiters : Z;      (* int *)
  RewardPerBlock : Fixed64;
  CRCAddress : Uint168;
}.

(** [payload.ProducerInfo] and [Producer], as far as the arbitrators use
    them. *)
Record ProducerInfo := {
  OwnerPublicKey : bytes;
  NodePublicKey : bytes;
}.

Record Producer := {
  info : ProducerInfo;
  votes : Fixed64;
  activateRequestHeight : Z;
}.

Definition Votes (p : Producer) : Fixed64 := votes p.
Definition Producer_NodePublicKey (p : Producer) : bytes := NodePublicKey (info p).
Definition Producer_OwnerPublicKey (p : Producer) : bytes := OwnerPublicKey (info p).

(** [types.Payload]: the dynamic type of the payload with the value of its
    [Hash()]; the evidence itself is not read by the arbitrators. *)
Inductive Payload :=
  | DPOSIllegalBlocks (hash : Uint256)
  | DPOSIllegalProposals (hash : Uint256)
  | InactiveArbitrators (hash : Uint256)
  | OtherPayload.

Inductive TxType :=
  | IllegalBlockEvidence
  | IllegalProposalEvidence
  | InactiveArbitratorsTx
  | OtherTx.

#[global] Instance TxType_eq_dec : EqDecision TxType.
Proof. solve_decision. Defined.

Record Transaction := {
  Tx_TxType : TxType;
  Tx_Payload : Payload;
  Fee : Fixed64;
}.

Record Block := {
  Height : Z;                     (* uint32 *)
  Transactions : list Transaction;
}.

(** Modelled from the spec: [Transaction.IsIllegalBlockTx] lives in
    core/types, which is not among the sources; an illegal-block transaction
    is one whose type is [IllegalBlockEvidence] (the tests build them so). *)
Definition IsIllegalBlockTx (tx : Transaction) : bool :=
  bool_decide (Tx_TxType tx = IllegalBlockEvidence).

(** [degradation]: the struct is spelled out by [NewArbitrators]. *)
Inductive DegradationState := Normal | Understaffed | Inactive.

#[global] Instance DegradationState_eq_dec : EqDecision DegradationState.
Proof. solve_decision. Defined.

Record degradation := {
  inactiveTxs : gmap Uint256 unit;
  inactivateHeight : Z;
  understaffedSince : Z;
  state : DegradationState;
}.

(** A Go call either returns or panics (a failed type assertion, an index
    out of range, an explicit [panic]). *)
Inductive outcome (A : Type) :=
  | Returns (a : A)
  | Panics.
Arguments Returns {A} a.
Arguments Panics {A}.

(** [hex.EncodeToString]. *)
Definition hexDigit (n : Z) : ascii :=
  match n with
  | 0 => "0" | 1 => "1" | 2 => "2" | 3 => "3" | 4 => "4" | 5 => "5"
  | 6 => "6" | 7 => "7" | 8 => "8" | 9 => "9" | 10 => "a" | 11 => "b"
  | 12 => "c" | 13 => "d" | 14 => "e" | _ => "f"
  end%char.

Fixpoint hex_EncodeToString (b : bytes) : string :=
  match b with
  | [] => EmptyString
  | x :: rest =>
      String (hexDigit (x / 16))
        (String (hexDigit (x mod 16)) (hex_EncodeToString rest))
  end.

(** [bytes.Compare(a, b) < 0]. *)
Fixpoint bytes_less (a b : bytes) : bool :=
  match a, b with
  | [], [] => false
  | [], _ :: _ => true
  | _ :: _, [] => false
  | x :: a', y :: b' =>
      if x <? y then true else if y <? x then false else bytes_less a' b'
  end.

(** [sort.Slice(s, less)], as an insertion sort. Go's sort is not stable;
    the order it leaves among elements that [less] does not separate is not
    used by any property below. *)
Fixpoint insertBy {A : Type} (less : A -> A -> bool) (x : A) (l : list A)
  : list A :=
  match l with
  | [] => [x]
  | y :: rest => if less y x then y :: insertBy less x rest else x :: y :: rest
  end.

Definition sort_Slice {A : Type} (less : A -> A -> bool) (l : list A)
  : list A :=
  foldr (insertBy less) [] l.

(** [len(s)] as an [int]. *)
Definition len {A : Type} (l : list A) : Z := Z.of_nat (length l).

(** The collaborators whose code is in files that are not among the sources:
    the producer registry [State], the methods of [degradation], the legacy
    (pre-H1) rules and the script-hash derivation. A method of [State] reaches
    its receiver and, through the [getArbiters] callback that [NewArbitrators]
    hands to [NewState], the current arbitrators (the [bytes] list argument);
    a method of [degradation] reaches its receiver and the callback it is
    given (its value, a [bool]). *)
Class Host := {
  State : Type;
  State_ProcessSpecialTxPayload : Payload -> Z -> list bytes -> State -> State;
  GetVotedProducers : list bytes -> State -> list Producer;
  GetProducer : bytes -> State -> option Producer;
  IsAbleToRecoverFromInactiveMode : list bytes -> State -> bool;
  IsAbleToRecoverFromUnderstaffedState : list bytes -> State -> bool;
  AddInactivePayload : Uint256 -> degradation -> bool * degradation;
  InactiveModeSwitch : Z -> bool -> degradation -> (bool * bool) * degradation;
  LeaveEmergency : degradation -> degradation;
  TryLeaveUnderStaffed : bool -> degradation -> degradation;
  TrySetUnderstaffed : Z -> degradation -> degradation;
  IsInactiveMode : degradation -> bool;
  IsUnderstaffedMode : degradation -> bool;
  PublicKeyToStandardProgramHash : bytes -> result Uint168;
  getNormalArbitratorsDescV0 : Params -> result (list bytes);
  getNormalArbitratorsDescV1 : Params -> result (list bytes);
  getNextOnDutyArbitratorV0 : Params -> Z -> Z -> outcome (option bytes);
}.

Section Arbitrators.
Context `{H : Host}.

(** [arbitrators]. The embedded [*State] and [*degradation] are the fields
    [State_] and [degradation_]; [a.State.chainParams] and [a.chainParams]
    are the one [chainParams] ([NewArbitrators] passes the same pointer to
    [NewState]); [bestBlock] is the value the host callback returns; the
    mutex is not modelled. A nil map and an empty map differ for
    [arbitersRoundReward] only, which is an [option]. *)
Record arbitrators := {
  State_ : State;
  degradation_ : degradation;
  chainParams : Params;
  bestBlock : result Block;
  started : bool;
  dutyIndex : Z;
  currentArbitrators : list bytes;
  currentCandidates : list bytes;
  currentOwnerProgramHashes : list Uint168;
  candidateOwnerProgramHashes : list Uint168;
  nextOwnerProgramHashes : list Uint168;
  nextCandidateOwnerProgramHashes : list Uint168;
  ownerVotesInRound : gmap Uint168 Fixed64;
  totalVotesInRound : Fixed64;
  nextArbitrators : list bytes;
  nextCandidates : list bytes;
  crcArbiters : list bytes;
  crcArbitratorsProgramHashes : gmap Uint168 unit;
  crcArbitratorsNodePublicKey : gmap string Producer;
  accumulativeReward : Fixed64;
  finalRoundChange : Fixed64;
  clearingHeight : Z;
  arbitersRoundReward : option (gmap Uint168 Fixed64);
  illegalBlocksPayloadHashes : gmap Uint256 unit;
}.

(** Field updates, one per field the code assigns. *)
Definition set_State_ (v : State) (a : arbitrators) : arbitrators :=
  {| State_ := v; degradation_ := degradation_ a;
     chainParams := chainParams a; bestBlock := bestBlock a;
     started := started a; dutyIndex := dutyIndex a;
     currentArbitrators := currentArbitrators a;
     currentCandidates := currentCandidates a;
     currentOwnerProgramHashes := currentOwnerProgramHashes a;
     candidateOwnerProgramHashes := candidateOwnerProgramHashes a;
     nextOwnerProgramHashes := nextOwnerProgramHashes a;
     nextCandidateOwnerProgramHashes := nextCandidateOwnerProgramHashes a;
     ownerVotesInRound := ownerVotesInRound a;
     totalVotesInRound := totalVotesInRound a;
     nextArbitrators := nextArbitrators a;
     nextCandidates := nextCandidates a; crcArbiters := crcArbiters a;
     crcArbitratorsProgramHashes := crcArbitratorsProgramHashes a;
     crcArbitratorsNodePublicKey := crcArbitratorsNodePublicKey a;
     accumulativeReward := accumulativeReward a;
     finalRoundChange := finalRoundChange a;
     clearingHeight := clearingHeight a;
     arbitersRoundReward := arbitersRoundReward a;
     illegalBlocksPayloadHashes := illegalBlocksPayloadHashes a |}.

Definition set_degradation_ (v : degradation) (a : arbitrators) : arbitrators :=
  {| State_ := State_ a; degradation_ := v; chainParams := chainParams a;
     bestBlock := bestBlock a; started := started a;
     dutyIndex := dutyIndex a; currentArbitrators := currentArbitrators a;
     currentCandidates := currentCandidates a;
     currentOwnerProgramHashes := currentOwnerProgramHashes a;
     candidateOwnerProgramHashes := candidateOwnerProgramHashes a;
     nextOwnerProgramHashes := nextOwnerProgramHashes a;
     nextCandidateOwnerProgramHashes := nextCandidateOwnerProgramHashes a;
     ownerVotesInRound := ownerVotesInRound a;
     totalVotesInRound := totalVotesInRound a;
     nextArbitrators := nextArbitrators a;
     nextCandidates := nextCandidates a; crcArbiters := crcArbiters a;
     crcArbitratorsProgramHashes := crcArbitratorsProgramHashes a;
     crcArbitratorsNodePublicKey := crcArbitratorsNodePublicKey a;
     accumulativeReward := accumulativeReward a;
     finalRoundChange := finalRoundChange a;
     clearingHeight := clearingHeight a;
     arbitersRoundReward := arbitersRoundReward a;
     illegalBlocksPayloadHashes := illegalBlocksPayloadHashes a |}.

Definition set_dutyIndex (v : Z) (a : arbitrators) : arbitrators :=
  {| State_ := State_ a; degradation_ := degradation_ a;
     chainParams := chainParams a; bestBlock := bestBlock a;
     started := started a; dutyIndex := v;
     currentArbitrators := currentArbitrators a;
     currentCandidates := currentCandidates a;
     currentOwnerProgramHashes := currentOwnerProgramHashes a;
     candidateOwnerProgramHashes := candidateOwnerProgramHashes a;
     nextOwnerProgramHashes := nextOwnerProgramHashes a;
     nextCandidateOwnerProgramHashes := nextCandidateOwnerProgramHashes a;
     ownerVotesInRound := ownerVotesInRound a;
     totalVotesInRound := totalVotesInRound a;
     nextArbitrators := nextArbitrators a;
     nextCandidates := nextCandidates a; crcArbiters := crcArbiters a;
     crcArbitratorsProgramHashes := crcArbitratorsProgramHashes a;
     crcArbitratorsNodePublicKey := crcArbitratorsNodePublicKey a;
     accumulativeReward := accumulativeReward a;
     finalRoundChange := finalRoundChange a;
     clearingHeight := clearingHeight a;
     arbitersRoundReward := arbitersRoundReward a;
     illegalBlocksPayloadHashes := illegalBlocksPayloadHashes a |}.

Definition set_currentArbitrators (v : list bytes) (a : arbitrators) : arbitrators :=
  {| State_ := State_ a; degradation_ := degradation_ a;
     chainParams := chainParams a; bestBlock := bestBlock a;
     started := started a; dutyIndex := dutyIndex a;
     currentArbitrators := v; currentCandidates := currentCandidates a;
     currentOwnerProgramHashes := currentOwnerProgramHashes a;
     candidateOwnerProgramHashes := candidateOwnerProgramHashes a;
     nextOwnerProgramHashes := nextOwnerProgramHashes a;
     nextCandidateOwnerProgramHashes := nextCandidateOwnerProgramHashes a;
     ownerVotesInRound := ownerVotesInRound a;
     totalVotesInRound := totalVotesInRound a;
     nextArbitrators := nextArbitrators a;
     nextCandidates := nextCandidates a; crcArbiters := crcArbiters a;
     crcArbitratorsProgramHashes := crcArbitratorsProgramHashes a;
     crcArbitratorsNodePublicKey := crcArbitratorsNodePublicKey a;
     accumulativeReward := accumulativeReward a;
     finalRoundChange := finalRoundChange a;
     clearingHeight := clearingHeight a;
     arbitersRoundReward := arbitersRoundReward a;
     illegalBlocksPayloadHashes := illegalBlocksPayloadHashes a |}.

Definition set_currentCandidates (v : list bytes) (a : arbitrators) : arbitrators :=
  {| State_ := State_ a; degradation_ := degradation_ a;
     chainParams := chainParams a; bestBlock := bestBlock a;
     started := started a; dutyIndex := dutyIndex a;
     currentArbitrators := currentArbitrators a; currentCandidates := v;
     currentOwnerProgramHashes := currentOwnerProgramHashes a;
     candidateOwnerProgramHashes := candidateOwnerProgramHashes a;
     nextOwnerProgramHashes := nextOwnerProgramHashes a;
     nextCandidateOwnerProgramHashes := nextCandidateOwnerProgramHashes a;
     ownerVotesInRound := ownerVotesInRound a;
     totalVotesInRound := totalVotesInRound a;
     nextArbitrators := nextArbitrators a;
     nextCandidates := nextCandidates a; crcArbiters := crcArbiters a;
     crcArbitratorsProgramHashes := crcArbitratorsProgramHashes a;
     crcArbitratorsNodePublicKey := crcArbitratorsNodePublicKey a;
     accumulativeReward := accumulativeReward a;
     finalRoundChange := finalRoundChange a;
     clearingHeight := clearingHeight a;
     arbitersRoundReward := arbitersRoundReward a;
     illegalBlocksPayloadHashes := illegalBlocksPayloadHashes a |}.

Definition set_currentOwnerProgramHashes (v : list Uint168) (a : arbitrators) : arbitrators :=
  {| State_ := State_ a; degradation_ := degradation_ a;
     chainParams := chainParams a; bestBlock := bestBlock a;
     started := started a; dutyIndex := dutyIndex a;
     currentArbitrators := currentArbitrators a;
     currentCandidates := currentCandidates a;
     currentOwnerProgramHashes := v;
     candidateOwnerProgramHashes := candidateOwnerProgramHashes a;
     nextOwnerProgramHashes := nextOwnerProgramHashes a;
     nextCandidateOwnerProgramHashes := nextCandidateOwnerProgramHashes a;
     ownerVotesInRound := ownerVotesInRound a;
     totalVotesInRound := totalVotesInRound a;
     nextArbitrators := nextArbitrators a;
     nextCandidates := nextCandidates a; crcArbiters := crcArbiters a;
     crcArbitratorsProgramHashes := crcArbitratorsProgramHashes a;
     crcArbitratorsNodePublicKey := crcArbitratorsNodePublicKey a;
     accumulativeReward := accumulativeReward a;
     finalRoundChange := finalRoundChange a;
     clearingHeight := clearingHeight a;
     arbitersRoundReward := arbitersRoundReward a;
     illegalBlocksPayloadHashes := illegalBlocksPayloadHashes a |}.

Definition set_candidateOwnerProgramHashes (v : list Uint168) (a : arbitrators) : arbitrators :=
  {| State_ := State_ a; degradation_ := degradation_ a;
     chainParams := chainParams a; bestBlock := bestBlock a;
     started := started a; dutyIndex := dutyIndex a;
     currentArbitrators := currentArbitrators a;
     currentCandidates := currentCandidates a;
     currentOwnerProgramHashes := currentOwnerProgramHashes a;
     candidateOwnerProgramHashes := v;
     nextOwnerProgramHashes := nextOwnerProgramHashes a;
     nextCandidateOwnerProgramHashes := nextCandidateOwnerProgramHashes a;
     ownerVotesInRound := ownerVotesInRound a;
     totalVotesInRound := totalVotesInRound a;
     nextArbitrators := nextArbitrators a;
     nextCandidates := nextCandidates a; crcArbiters := crcArbiters a;
     crcArbitratorsProgramHashes := crcArbitratorsProgramHashes a;
     crcArbitratorsNodePublicKey := crcArbitratorsNodePublicKey a;
     accumulativeReward := accumulativeReward a;
     finalRoundChange := finalRoundChange a;
     clearingHeight := clearingHeight a;
     arbitersRoundReward := arbitersRoundReward a;
     illegalBlocksPayloadHashes := illegalBlocksPayloadHashes a |}.

Definition set_nextOwnerProgramHashes (v : list Uint168) (a : arbitrators) : arbitrators :=
  {| State_ := State_ a; degradation_ := degradation_ a;
     chainParams := chainParams a; bestBlock := bestBlock a;
     started := started a; dutyIndex := dutyIndex a;
     currentArbitrators := currentArbitrators a;
     currentCandidates := currentCandidates a;
     currentOwnerProgramHashes := currentOwnerProgramHashes a;
     candidateOwnerProgramHashes := candidateOwnerProgramHashes a;
     nextOwnerProgramHashes := v;
     nextCandidateOwnerProgramHashes := nextCandidateOwnerProgramHashes a;
     ownerVotesInRound := ownerVotesInRound a;
     totalVotesInRound := totalVotesInRound a;
     nextArbitrators := nextArbitrators a;
     nextCandidates := nextCandidates a; crcArbiters := crcArbiters a;
     crcArbitratorsProgramHashes := crcArbitratorsProgramHashes a;
     crcArbitratorsNodePublicKey := crcArbitratorsNodePublicKey a;
     accumulativeReward := accumulativeReward a;
     finalRoundChange := finalRoundChange a;
     clearingHeight := clearingHeight a;
     arbitersRoundReward := arbitersRoundReward a;
     illegalBlocksPayloadHashes := illegalBlocksPayloadHashes a |}.

Definition set_nextCandidateOwnerProgramHashes (v : list Uint168) (a : arbitrators) : arbitrators :=
  {| State_ := State_ a; degradation_ := degradation_ a;
     chainParams := chainParams a; bestBlock := bestBlock a;
     started := started a; dutyIndex := dutyIndex a;
     currentArbitrators := currentArbitrators a;
     currentCandidates := currentCandidates a;
     currentOwnerProgramHashes := currentOwnerProgramHashes a;
     candidateOwnerProgramHashes := candidateOwnerProgramHashes a;
     nextOwnerProgramHashes := nextOwnerProgramHashes a;
     nextCandidateOwnerProgramHashes := v;
     ownerVotesInRound := ownerVotesInRound a;
     totalVotesInRound := totalVotesInRound a;
     nextArbitrators := nextArbitrators a;
     nextCandidates := nextCandidates a; crcArbiters := crcArbiters a;
     crcArbitratorsProgramHashes := crcArbitratorsProgramHashes a;
     crcArbitratorsNodePublicKey := crcArbitratorsNodePublicKey a;
     accumulativeReward := accumulativeReward a;
     finalRoundChange := finalRoundChange a;
     clearingHeight := clearingHeight a;
     arbitersRoundReward := arbitersRoundReward a;
     illegalBlocksPayloadHashes := illegalBlocksPayloadHashes a |}.

Definition set_ownerVotesInRound (v : gmap Uint168 Fixed64) (a : arbitrators) : arbitrators :=
  {| State_ := State_ a; degradation_ := degradation_ a;
     chainParams := chainParams a; bestBlock := bestBlock a;
     started := started a; dutyIndex := dutyIndex a;
     currentArbitrators := currentArbitrators a;
     currentCandidates := currentCandidates a;
     currentOwnerProgramHashes := currentOwnerProgramHashes a;
     candidateOwnerProgramHashes := candidateOwnerProgramHashes a;
     nextOwnerProgramHashes := nextOwnerProgramHashes a;
     nextCandidateOwnerProgramHashes := nextCandidateOwnerProgramHashes a;
     ownerVotesInRound := v; totalVotesInRound := totalVotesInRound a;
     nextArbitrators := nextArbitrators a;
     nextCandidates := nextCandidates a; crcArbiters := crcArbiters a;
     crcArbitratorsProgramHashes := crcArbitratorsProgramHashes a;
     crcArbitratorsNodePublicKey := crcArbitratorsNodePublicKey a;
     accumulativeReward := accumulativeReward a;
     finalRoundChange := finalRoundChange a;
     clearingHeight := clearingHeight a;
     arbitersRoundReward := arbitersRoundReward a;
     illegalBlocksPayloadHashes := illegalBlocksPayloadHashes a |}.

Definition set_totalVotesInRound (v : Fixed64) (a : arbitrators) : arbitrators :=
  {| State_ := State_ a; degradation_ := degradation_ a;
     chainParams := chainParams a; bestBlock := bestBlock a;
     started := started a; dutyIndex := dutyIndex a;
     currentArbitrators := currentArbitrators a;
     currentCandidates := currentCandidates a;
     currentOwnerProgramHashes := currentOwnerProgramHashes a;
     candidateOwnerProgramHashes := candidateOwnerProgramHashes a;
     nextOwnerProgramHashes := nextOwnerProgramHashes a;
     nextCandidateOwnerProgramHashes := nextCandidateOwnerProgramHashes a;
     ownerVotesInRound := ownerVotesInRound a; totalVotesInRound := v;
     nextArbitrators := nextArbitrators a;
     nextCandidates := nextCandidates a; crcArbiters := crcArbiters a;
     crcArbitratorsProgramHashes := crcArbitratorsProgramHashes a;
     crcArbitratorsNodePublicKey := crcArbitratorsNodePublicKey a;
     accumulativeReward := accumulativeReward a;
     finalRoundChange := finalRoundChange a;
     clearingHeight := clearingHeight a;
     arbitersRoundReward := arbitersRoundReward a;
     illegalBlocksPayloadHashes := illegalBlocksPayloadHashes a |}.

Definition set_nextArbitrators (v : list bytes) (a : arbitrators) : arbitrators :=
  {| State_ := State_ a; degradation_ := degradation_ a;
     chainParams := chainParams a; bestBlock := bestBlock a;
     started := started a; dutyIndex := dutyIndex a;
     currentArbitrators := currentArbitrators a;
     currentCandidates := currentCandidates a;
     currentOwnerProgramHashes := currentOwnerProgramHashes a;
     candidateOwnerProgramHashes := candidateOwnerProgramHashes a;
     nextOwnerProgramHashes := nextOwnerProgramHashes a;
     nextCandidateOwnerProgramHashes := nextCandidateOwnerProgramHashes a;
     ownerVotesInRound := ownerVotesInRound a;
     totalVotesInRound := totalVotesInRound a; nextArbitrators := v;
     nextCandidates := nextCandidates a; crcArbiters := crcArbiters a;
     crcArbitratorsProgramHashes := crcArbitratorsProgramHashes a;
     crcArbitratorsNodePublicKey := crcArbitratorsNodePublicKey a;
     accumulativeReward := accumulativeReward a;
     finalRoundChange := finalRoundChange a;
     clearingHeight := clearingHeight a;
     arbitersRoundReward := arbitersRoundReward a;
     illegalBlocksPayloadHashes := illegalBlocksPayloadHashes a |}.

Definition set_nextCandidates (v : list bytes) (a : arbitrators) : arbitrators :=
  {| State_ := State_ a; degradation_ := degradation_ a;
     chainParams := chainParams a; bestBlock := bestBlock a;
     started := started a; dutyIndex := dutyIndex a;
     currentArbitrators := currentArbitrators a;
     currentCandidates := currentCandidates a;
     currentOwnerProgramHashes := currentOwnerProgramHashes a;
     candidateOwnerProgramHashes := candidateOwnerProgramHashes a;
     nextOwnerProgramHashes := nextOwnerProgramHashes a;
     nextCandidateOwnerProgramHashes := nextCandidateOwnerProgramHashes a;
     ownerVotesInRound := ownerVotesInRound a;
     totalVotesInRound := totalVotesInRound a;
     nextArbitrators := nextArbitrators a; nextCandidates := v;
     crcArbiters := crcArbiters a;
     crcArbitratorsProgramHashes := crcArbitratorsProgramHashes a;
     crcArbitratorsNodePublicKey := crcArbitratorsNodePublicKey a;
     accumulativeReward := accumulativeReward a;
     finalRoundChange := finalRoundChange a;
     clearingHeight := clearingHeight a;
     arbitersRoundReward := arbitersRoundReward a;
     illegalBlocksPayloadHashes := illegalBlocksPayloadHashes a |}.

Definition set_accumulativeReward (v : Fixed64) (a : arbitrators) : arbitrators :=
  {| State_ := State_ a; degradation_ := degradation_ a;
     chainParams := chainParams a; bestBlock := bestBlock a;
     started := started a; dutyIndex := dutyIndex a;
     currentArbitrators := currentArbitrators a;
     currentCandidates := currentCandidates a;
     currentOwnerProgramHashes := currentOwnerProgramHashes a;
     candidateOwnerProgramHashes := candidateOwnerProgramHashes a;
     nextOwnerProgramHashes := nextOwnerProgramHashes a;
     nextCandidateOwnerProgramHashes := nextCandidateOwnerProgramHashes a;
     ownerVotesInRound := ownerVotesInRound a;
     totalVotesInRound := totalVotesInRound a;
     nextArbitrators := nextArbitrators a;
     nextCandidates := nextCandidates a; crcArbiters := crcArbiters a;
     crcArbitratorsProgramHashes := crcArbitratorsProgramHashes a;
     crcArbitratorsNodePublicKey := crcArbitratorsNodePublicKey a;
     accumulativeReward := v; finalRoundChange := finalRoundChange a;
     clearingHeight := clearingHeight a;
     arbitersRoundReward := arbitersRoundReward a;
     illegalBlocksPayloadHashes := illegalBlocksPayloadHashes a |}.

Definition set_finalRoundChange (v : Fixed64) (a : arbitrators) : arbitrators :=
  {| State_ := State_ a; degradation_ := degradation_ a;
     chainParams := chainParams a; bestBlock := bestBlock a;
     started := started a; dutyIndex := dutyIndex a;
     currentArbitrators := currentArbitrators a;
     currentCandidates := currentCandidates a;
     currentOwnerProgramHashes := currentOwnerProgramHashes a;
     candidateOwnerProgramHashes := candidateOwnerProgramHashes a;
     nextOwnerProgramHashes := nextOwnerProgramHashes a;
     nextCandidateOwnerProgramHashes := nextCandidateOwnerProgramHashes a;
     ownerVotesInRound := ownerVotesInRound a;
     totalVotesInRound := totalVotesInRound a;
     nextArbitrators := nextArbitrators a;
     nextCandidates := nextCandidates a; crcArbiters := crcArbiters a;
     crcArbitratorsProgramHashes := crcArbitratorsProgramHashes a;
     crcArbitratorsNodePublicKey := crcArbitratorsNodePublicKey a;
     accumulativeReward := accumulativeReward a; finalRoundChange := v;
     clearingHeight := clearingHeight a;
     arbitersRoundReward := arbitersRoundReward a;
     illegalBlocksPayloadHashes := illegalBlocksPayloadHashes a |}.

Definition set_clearingHeight (v : Z) (a : arbitrators) : arbitrators :=
  {| State_ := State_ a; degradation_ := degradation_ a;
     chainParams := chainParams a; bestBlock := bestBlock a;
     started := started a; dutyIndex := dutyIndex a;
     currentArbitrators := currentArbitrators a;
     currentCandidates := currentCandidates a;
     currentOwnerProgramHashes := currentOwnerProgramHashes a;
     candidateOwnerProgramHashes := candidateOwnerProgramHashes a;
     nextOwnerProgramHashes := nextOwnerProgramHashes a;
     nextCandidateOwnerProgramHashes := nextCandidateOwnerProgramHashes a;
     ownerVotesInRound := ownerVotesInRound a;
     totalVotesInRound := totalVotesInRound a;
     nextArbitrators := nextArbitrators a;
     nextCandidates := nextCandidates a; crcArbiters := crcArbiters a;
     crcArbitratorsProgramHashes := crcArbitratorsProgramHashes a;
     crcArbitratorsNodePublicKey := crcArbitratorsNodePublicKey a;
     accumulativeReward := accumulativeReward a;
     finalRoundChange := finalRoundChange a; clearingHeight := v;
     arbitersRoundReward := arbitersRoundReward a;
     illegalBlocksPayloadHashes := illegalBlocksPayloadHashes a |}.

Definition set_arbitersRoundReward (v : option (gmap Uint168 Fixed64)) (a : arbitrators) : arbitrators :=
  {| State_ := State_ a; degradation_ := degradation_ a;
     chainParams := chainParams a; bestBlock := bestBlock a;
     started := started a; dutyIndex := dutyIndex a;
     currentArbitrators := currentArbitrators a;
     currentCandidates := currentCandidates a;
     currentOwnerProgramHashes := currentOwnerProgramHashes a;
     candidateOwnerProgramHashes := candidateOwnerProgramHashes a;
     nextOwnerProgramHashes := nextOwnerProgramHashes a;
     nextCandidateOwnerProgramHashes := nextCandidateOwnerProgramHashes a;
     ownerVotesInRound := ownerVotesInRound a;
     totalVotesInRound := totalVotesInRound a;
     nextArbitrators := nextArbitrators a;
     nextCandidates := nextCandidates a; crcArbiters := crcArbiters a;
     crcArbitratorsProgramHashes := crcArbitratorsProgramHashes a;
     crcArbitratorsNodePublicKey := crcArbitratorsNodePublicKey a;
     accumulativeReward := accumulativeReward a;
     finalRoundChange := finalRoundChange a;
     clearingHeight := clearingHeight a; arbitersRoundReward := v;
     illegalBlocksPayloadHashes := illegalBlocksPayloadHashes a |}.

Definition set_illegalBlocksPayloadHashes (v : gmap Uint256 unit) (a : arbitrators) : arbitrators :=
  {| State_ := State_ a; degradation_ := degradation_ a;
     chainParams := chainParams a; bestBlock := bestBlock a;
     started := started a; dutyIndex := dutyIndex a;
     currentArbitrators := currentArbitrators a;
     currentCandidates := currentCandidates a;
     currentOwnerProgramHashes := currentOwnerProgramHashes a;
     candidateOwnerProgramHashes := candidateOwnerProgramHashes a;
     nextOwnerProgramHashes := nextOwnerProgramHashes a;
     nextCandidateOwnerProgramHashes := nextCandidateOwnerProgramHashes a;
     ownerVotesInRound := ownerVotesInRound a;
     totalVotesInRound := totalVotesInRound a;
     nextArbitrators := nextArbitrators a;
     nextCandidates := nextCandidates a; crcArbiters := crcArbiters a;
     crcArbitratorsProgramHashes := crcArbitratorsProgramHashes a;
     crcArbitratorsNodePublicKey := crcArbitratorsNodePublicKey a;
     accumulativeReward := accumulativeReward a;
     finalRoundChange := finalRoundChange a;
     clearingHeight := clearingHeight a;
     arbitersRoundReward := arbitersRoundReward a;
     illegalBlocksPayloadHashes := v |}.

Definition set_started (v : bool) (a : arbitrators) : arbitrators :=
  {| State_ := State_ a; degradation_ := degradation_ a;
     chainParams := chainParams a; bestBlock := bestBlock a; started := v;
     dutyIndex := dutyIndex a; currentArbitrators := currentArbitrators a;
     currentCandidates := currentCandidates a;
     currentOwnerProgramHashes := currentOwnerProgramHashes a;
     candidateOwnerProgramHashes := candidateOwnerProgramHashes a;
     nextOwnerProgramHashes := nextOwnerProgramHashes a;
     nextCandidateOwnerProgramHashes := nextCandidateOwnerProgramHashes a;
     ownerVotesInRound := ownerVotesInRound a;
     totalVotesInRound := totalVotesInRound a;
     nextArbitrators := nextArbitrators a;
     nextCandidates := nextCandidates a; crcArbiters := crcArbiters a;
     crcArbitratorsProgramHashes := crcArbitratorsProgramHashes a;
     crcArbitratorsNodePublicKey := crcArbitratorsNodePublicKey a;
     accumulativeReward := accumulativeReward a;
     finalRoundChange := finalRoundChange a;
     clearingHeight := clearingHeight a;
     arbitersRoundReward := arbitersRoundReward a;
     illegalBlocksPayloadHashes := illegalBlocksPayloadHashes a |}.

(** Go's [error]-returning methods mutate the receiver and return an error;
    what was assigned before the error stays assigned. *)
Definition M (A : Type) : Type := arbitrators -> result A * arbitrators.

Definition ret {A : Type} (x : A) : M A := fun a => (Ok x, a).

Definition fail {A : Type} (e : error) : M A := fun a => (Err e, a).

Definition bind {A B : Type} (m : M A) (k : A -> M B) : M B :=
  fun a =>
    match m a with
    | (Ok x, a') => k x a'
    | (Err e, a') => (Err e, a')
    end.

Definition get : M arbitrators := fun a => (Ok a, a).

Definition modify (f : arbitrators -> arbitrators) : M unit :=
  fun a => (Ok tt, f a).

Definition lift {A : Type} (r : result A) : M A := fun a => (r, a).

Notation "x <- m ;; k" := (bind m (fun x => k))
  (at level 100, m at next level, right associativity).
Notation "m ;;; k" := (bind m (fun _ => k))
  (at level 100, right associativity).

(** ** Operations of [arbitrators], in the order of the source *)

(** [CheckDPOSIllegalTx]: the loop over the transactions of the block; the
    type assertion on the payload panics when an illegal-block transaction
    carries another payload. *)
Fixpoint markFound (txs : list Transaction) (foundMap : gmap Uint256 bool)
  : outcome (gmap Uint256 bool) :=
  match txs with
  | [] => Returns foundMap
  | tx :: rest =>
      if IsIllegalBlockTx tx then
        match Tx_Payload tx with
        | DPOSIllegalBlocks h => markFound rest (<[h := true]> foundMap)
        | _ => Panics
        end
      else markFound rest foundMap
  end.

Definition CheckDPOSIllegalTx (block : Block) (a : arbitrators)
  : outcome (option error) :=
  let hashes := illegalBlocksPayloadHashes a in
  if bool_decide (size hashes = 0%nat) then Returns None
  else
    let foundMap : gmap Uint256 bool := (fun _ => false) <$> hashes in
    match markFound (Transactions block) foundMap with
    | Panics => Panics
    | Returns foundMap =>
        if bool_decide (map_Forall (fun _ found => found = true) foundMap)
        then Returns None
        else Returns (Some ErrExpectIllegalBlocksTx)
    end.

Definition GetDutyIndex (a : arbitrators) : Z := dutyIndex a.

Definition GetArbitersRoundReward (a : arbitrators)
  : option (gmap Uint168 Fixed64) :=
  arbitersRoundReward a.

Definition GetFinalRoundChange (a : arbitrators) : Fixed64 :=
  finalRoundChange a.

(** [getBlockDPOSReward]; 0.35 is the float64 nearest to it. *)
Definition dposRatio : float := 0x1.6666666666666p-2%float.

(** The mantissa of [dposRatio], which is [ratioMantissa] * 2^-54. *)
Definition ratioMantissa : positive := 6305039478318694.

Definition sumFees (txs : list Transaction) : Fixed64 :=
  fold_left (fun totalTxFx tx => Int.int64 (totalTxFx + Fee tx)) txs 0.

Definition getBlockDPOSReward (block : Block) (a : arbitrators) : Fixed64 :=
  let totalTxFx := sumFees (Transactions block) in
  Float64.to_int
    (Float64.Ceil
       (Float64.of_int (Int.int64 (totalTxFx + RewardPerBlock (chainParams a)))
        * dposRatio)%float).

Definition accumulateReward (block : Block) (a : arbitrators) : arbitrators :=
  if Height block <=? PublicDPOSHeight (chainParams a) then a
  else
    let dposReward := getBlockDPOSReward block a in
    let a := set_accumulativeReward
               (Int.int64 (accumulativeReward a + dposReward)) a in
    let a := set_arbitersRoundReward None a in
    set_finalRoundChange 0 a.

(** [a.arbitersRoundReward[k]] read and written. The map is never nil where
    the code writes it: [distributeDPOSReward] has just allocated it. *)
Definition roundReward (a : arbitrators) : gmap Uint168 Fixed64 :=
  default ∅ (arbitersRoundReward a).

Definition roundReward_get (k : Uint168) (a : arbitrators) : Fixed64 :=
  default 0 (roundReward a !! k).

Definition roundReward_put (k : Uint168) (v : Fixed64) (a : arbitrators)
  : arbitrators :=
  set_arbitersRoundReward (Some (<[k := v]> (roundReward a))) a.

Definition votesOf (ownerHash : Uint168) (a : arbitrators) : Fixed64 :=
  default 0 (ownerVotesInRound a !! ownerHash).

(** The first loop of [distributeWithNormalArbitrators], over the owner
    hashes of the current arbitrators; the accumulator is [realDPOSReward]. *)
Fixpoint payArbiters (individualBlockConfirmReward : Fixed64)
    (rewardPerVote : float) (ownerHashes : list Uint168)
    (realDPOSReward : Fixed64) (a : arbitrators) : Fixed64 * arbitrators :=
  match ownerHashes with
  | [] => (realDPOSReward, a)
  | ownerHash :: rest =>
      let votes := votesOf ownerHash a in
      let individualProducerReward :=
        Float64.to_int (Float64.of_int votes * rewardPerVote)%float in
      let r := Int.int64 (individualBlockConfirmReward + individualProducerReward) in
      if bool_decide (is_Some (crcArbitratorsProgramHashes a !! ownerHash)) then
        let r := individualBlockConfirmReward in
        let crc := CRCAddress (chainParams a) in
        let a := roundReward_put crc (Int.int64 (roundReward_get crc a + r)) a in
        payArbiters individualBlockConfirmReward rewardPerVote rest
          (Int.int64 (realDPOSReward + r)) a
      else
        let a := roundReward_put ownerHash r a in
        payArbiters individualBlockConfirmReward rewardPerVote rest
          (Int.int64 (realDPOSReward + r)) a
  end.

(** The second loop, over the owner hashes of the candidates. *)
Fixpoint payCandidates (rewardPerVote : float)
    (candidateOwnerHashes : list Uint168) (realDPOSReward : Fixed64)
    (a : arbitrators) : Fixed64 * arbitrators :=
  match candidateOwnerHashes with
  | [] => (realDPOSReward, a)
  | ownerHash :: rest =>
      let votes := votesOf ownerHash a in
      let individualProducerReward :=
        Float64.to_int (Float64.of_int votes * rewardPerVote)%float in
      let a := roundReward_put ownerHash individualProducerReward a in
      payCandidates rewardPerVote rest
        (Int.int64 (realDPOSReward + individualProducerReward)) a
  end.

Definition distributeWithNormalArbitrators (reward : Fixed64) : M Fixed64 :=
  fun a =>
    let ownerHashes := currentOwnerProgramHashes a in
    if len ownerHashes =? 0 then (Err ErrNotFoundArbiters, a)
    else
      let totalBlockConfirmReward := (Float64.of_int reward * 0.25)%float in
      let totalTopProducersReward :=
        (Float64.of_int reward - totalBlockConfirmReward)%float in
      let individualBlockConfirmReward :=
        Float64.to_int
          (Float64.Floor
             (totalBlockConfirmReward / Float64.of_int (len ownerHashes))%float) in
      let totalVotesInRound := totalVotesInRound a in
      if totalVotesInRound =? 0 then
        (Ok 0, roundReward_put (CRCAddress (chainParams a)) reward a)
      else
        let rewardPerVote :=
          (totalTopProducersReward / Float64.of_int totalVotesInRound)%float in
        let '(realDPOSReward, a) :=
          payArbiters individualBlockConfirmReward rewardPerVote ownerHashes 0 a in
        let '(realDPOSReward, a) :=
          payCandidates rewardPerVote (candidateOwnerProgramHashes a)
            realDPOSReward a in
        (Ok realDPOSReward, a).

Definition distributeDPOSReward (reward : Fixed64) : M unit :=
  modify (set_arbitersRoundReward (Some ∅)) ;;;
  modify (fun a => roundReward_put (CRCAddress (chainParams a)) 0 a) ;;;
  realDPOSReward <- distributeWithNormalArbitrators reward ;;
  let change := Int.int64 (reward - realDPOSReward) in
  if change <? 0 then fail ErrRewardMoreThanLimit
  else modify (set_finalRoundChange change).

Definition clearingDPOSReward (block : Block) (smoothClearing : bool)
  : M unit :=
  fun a =>
    if Height block =? clearingHeight a then (Ok tt, a)
    else
      let dposReward := getBlockDPOSReward block a in
      if Int.uint32 (Height block + 1) <=? PublicDPOSHeight (chainParams a) then
        (Ok tt, set_accumulativeReward dposReward a)
      else
        let '(dposReward, a) :=
          if smoothClearing
          then (0, set_accumulativeReward
                     (Int.int64 (accumulativeReward a + dposReward)) a)
          else (dposReward, a) in
        (distributeDPOSReward (accumulativeReward a) ;;;
         modify (set_accumulativeReward dposReward) ;;;
         modify (set_clearingHeight (Height block))) a.

Definition IsCRCArbitrator (pk : bytes) (a : arbitrators) : bool :=
  bool_decide (is_Some (crcArbitratorsNodePublicKey a !! hex_EncodeToString pk)).

Definition GetArbitersCount (a : arbitrators) : Z :=
  len (currentArbitrators a).

(** [MajoritySignRatioNumerator] and [MajoritySignRatioDenominator] are
    [float64(2)] and [float64(3)]. *)
Definition majorityOf (count : Z) : Z :=
  Float64.to_int (Float64.of_int count * 2 / 3)%float.

Definition GetArbitersMajorityCount (a : arbitrators) : Z :=
  majorityOf (len (currentArbitrators a)).

Definition HasArbitersMajorityCount (num : Z) (a : arbitrators) : bool :=
  GetArbitersMajorityCount a <? num.

Definition HasArbitersMinorityCount (num : Z) (a : arbitrators) : bool :=
  let count := len (currentArbitrators a) in
  Int.int64 (count - GetArbitersMajorityCount a) <=? num.

(** [GetNextOnDutyArbitratorV]: [nil] for an empty committee; indexing with
    an index out of range panics. [int(offset)] of a [uint32] is the number
    itself. *)
Definition GetNextOnDutyArbitratorV (height offset : Z) (a : arbitrators)
  : outcome (option bytes) :=
  if CRCOnlyDPOSHeight (chainParams a) <=? height then
    let arbitrators := currentArbitrators a in
    if len arbitrators =? 0 then Returns None
    else
      let index := Int.rem (Int.int64 (dutyIndex a + offset)) (len arbitrators) in
      if index <? 0 then Panics
      else
        match arbitrators !! Z.to_nat index with
        | Some arbiter => Returns (Some arbiter)
        | None => Panics
        end
  else getNextOnDutyArbitratorV0 (chainParams a) height offset.

(** [getChangeType]. The two differences are [uint32] differences;
    [len(...) - 1] cannot leave the range of [int]. *)
Definition getChangeType (height : Z) (a : arbitrators) : ChangeType * Z :=
  let p := chainParams a in
  if height =? Int.uint32 (CRCOnlyDPOSHeight p - PreConnectOffset p) then
    (updateNext, CRCOnlyDPOSHeight p)
  else if height =? CRCOnlyDPOSHeight p then
    (normalChange, CRCOnlyDPOSHeight p)
  else if height =? Int.uint32 (PublicDPOSHeight p - PreConnectOffset p) then
    (updateNext, PublicDPOSHeight p)
  else if height =? PublicDPOSHeight p then
    (normalChange, PublicDPOSHeight p)
  else if (PublicDPOSHeight p <? height)
          && (dutyIndex a =? len (currentArbitrators a) - 1) then
    (normalChange, height)
  else (none, height).

(** [changeCurrentArbitrators]. [sort.Slice] sorts in place the array that
    [currentArbitrators] now shares with [nextArbitrators], so both fields
    show the sorted order. *)
Definition changeCurrentArbitrators : M unit :=
  modify (fun a =>
    let sorted := sort_Slice bytes_less (nextArbitrators a) in
    let a := set_currentArbitrators sorted a in
    let a := set_nextArbitrators sorted a in
    let a := set_currentCandidates (nextCandidates a) a in
    let a := set_currentOwnerProgramHashes (nextOwnerProgramHashes a) a in
    let a := set_candidateOwnerProgramHashes (nextCandidateOwnerProgramHashes a) a in
    set_dutyIndex 0 a).

Definition tryHandleError (height : Z) (err : error) : M unit :=
  if bool_decide (err = ErrInsufficientProducer) then
    modify (fun a =>
      set_degradation_ (TrySetUnderstaffed height (degradation_ a)) a)
  else fail err.

Definition votesGreater (x y : Producer) : bool := Votes y <? Votes x.

(** The comparison [updateNextArbitrators] sorts the voted producers with. *)
Definition votedLess (x y : Producer) : bool :=
  if votes x =? votes y
  then bytes_less (NodePublicKey (info x)) (Producer_NodePublicKey y)
  else Votes y <? Votes x.

(** [GetCandidatesDesc]. The counts of the configuration are not negative
    (with a negative [startIndex] the Go loop would index out of range). *)
Definition GetCandidatesDesc (height : Z) (startIndex : Z)
    (producers : list Producer) (a : arbitrators) : result (list bytes) :=
  if PublicDPOSHeight (chainParams a) <=? height then
    if len producers <? startIndex then Ok []
    else
      let producers := sort_Slice votesGreater producers in
      Ok (Producer_NodePublicKey <$>
            take (Z.to_nat (CandidateArbiters (chainParams a)))
                 (drop (Z.to_nat startIndex) producers))
  else Ok [].

Definition GetNormalArbitratorsDesc (height : Z) (arbitratorsCount : Z)
    (producers : list Producer) (a : arbitrators) : result (list bytes) :=
  if PublicDPOSHeight (chainParams a) <=? height then
    if len producers <? arbitratorsCount then Err ErrInsufficientProducer
    else Ok (Producer_NodePublicKey <$> take (Z.to_nat arbitratorsCount) producers)
  else if CRCOnlyDPOSHeight (chainParams a) <=? height then
    getNormalArbitratorsDescV1 (chainParams a)
  else getNormalArbitratorsDescV0 (chainParams a).

(** One loop of [snapshotVotesStates]; both loops have this body. *)
Fixpoint snapshotVotes (keys : list bytes) : M unit :=
  match keys with
  | [] => ret tt
  | nodePublicKey :: rest =>
      a <- get ;;
      if IsCRCArbitrator nodePublicKey a then snapshotVotes rest
      else
        match GetProducer nodePublicKey (State_ a) with
        | None => fail ErrGetProducerFailed
        | Some producer =>
            programHash <- lift (PublicKeyToStandardProgramHash
                                   (Producer_OwnerPublicKey producer)) ;;
            modify (fun a =>
              let a := set_ownerVotesInRound
                         (<[programHash := Votes producer]> (ownerVotesInRound a)) a in
              set_totalVotesInRound
                (Int.int64 (totalVotesInRound a + Votes producer)) a) ;;;
            snapshotVotes rest
        end
  end.

Definition snapshotVotesStates : M unit :=
  modify (set_ownerVotesInRound ∅) ;;;
  modify (set_totalVotesInRound 0) ;;;
  a <- get ;;
  snapshotVotes (nextArbitrators a) ;;;
  a <- get ;;
  snapshotVotes (nextCandidates a).

(** The two loops of [updateNextOwnerProgramHashes]: a CRC arbiter's node key
    is its owner key; among the candidates the CRC arbiters are skipped. The
    field is assigned as the loop appends, so on an error it holds the hashes
    appended so far. *)
Fixpoint appendNextOwnerHashes (keys : list bytes) : M unit :=
  match keys with
  | [] => ret tt
  | nodePublicKey :: rest =>
      a <- get ;;
      programHash <-
        (if IsCRCArbitrator nodePublicKey a then
           lift (PublicKeyToStandardProgramHash nodePublicKey)
         else
           match GetProducer nodePublicKey (State_ a) with
           | None => fail ErrGetProducerFailed
           | Some producer =>
               lift (PublicKeyToStandardProgramHash
                       (Producer_OwnerPublicKey producer))
           end) ;;
      modify (fun a =>
        set_nextOwnerProgramHashes (nextOwnerProgramHashes a ++ [programHash]) a) ;;;
      appendNextOwnerHashes rest
  end.

Fixpoint appendNextCandidateOwnerHashes (keys : list bytes) : M unit :=
  match keys with
  | [] => ret tt
  | nodePublicKey :: rest =>
      a <- get ;;
      if IsCRCArbitrator nodePublicKey a then appendNextCandidateOwnerHashes rest
      else
        match GetProducer nodePublicKey (State_ a) with
        | None => fail ErrGetProducerFailed
        | Some producer =>
            programHash <- lift (PublicKeyToStandardProgramHash
                                   (Producer_OwnerPublicKey producer)) ;;
            modify (fun a =>
              set_nextCandidateOwnerProgramHashes
                (nextCandidateOwnerProgramHashes a ++ [programHash]) a) ;;;
            appendNextCandidateOwnerHashes rest
        end
  end.

Definition updateNextOwnerProgramHashes : M unit :=
  modify (set_nextOwnerProgramHashes []) ;;;
  a <- get ;;
  appendNextOwnerHashes (nextArbitrators a) ;;;
  modify (set_nextCandidateOwnerProgramHashes []) ;;;
  a <- get ;;
  appendNextCandidateOwnerHashes (nextCandidates a).

(** [updateNextArbitrators]. Go ranges over the CRC map in an unspecified
    order; the order of [map_to_list] stands for it. The callbacks handed to
    the degradation methods are read-only, so their value is passed. *)
Definition updateNextArbitrators (height : Z) : M unit :=
  modify (fun a =>
    let arbiters := currentArbitrators a in
    let '((_, recover), d) :=
      InactiveModeSwitch height
        (IsAbleToRecoverFromInactiveMode arbiters (State_ a)) (degradation_ a) in
    let d :=
      if (recover : bool) then LeaveEmergency d
      else TryLeaveUnderStaffed
             (IsAbleToRecoverFromUnderstaffedState arbiters (State_ a)) d in
    set_degradation_ d a) ;;;
  modify (fun a =>
    set_nextArbitrators
      ((fun kv => NodePublicKey (info kv.2)) <$>
         map_to_list (crcArbitratorsNodePublicKey a)) a) ;;;
  a <- get ;;
  (if negb (IsInactiveMode (degradation_ a))
      && negb (IsUnderstaffedMode (degradation_ a)) then
     let count := GeneralArbiters (chainParams a) in
     let votedProducers :=
       sort_Slice votedLess
         (GetVotedProducers (currentArbitrators a) (State_ a)) in
     match GetNormalArbitratorsDesc height count votedProducers a with
     | Err err =>
         tryHandleError height err ;;;
         modify (set_nextCandidates [])
     | Ok producers =>
         modify (fun a => set_nextArbitrators (nextArbitrators a ++ producers) a) ;;;
         candidates <- lift (GetCandidatesDesc height count votedProducers a) ;;
         modify (set_nextCandidates candidates)
     end
   else modify (set_nextCandidates [])) ;;;
  snapshotVotesStates ;;;
  updateNextOwnerProgramHashes.

Definition NormalChange (height : Z) : M unit :=
  changeCurrentArbitrators ;;;
  updateNextArbitrators (Int.uint32 (height + 1)).

(** [ForceChange]. The notification and [DumpInfo] that follow a successful
    change do not assign any field. The mutex is not part of the state: the
    function unlocks it only after the three steps have succeeded, so after
    an error return every later call that locks would block; what is stated
    about calls that follow a forced change is stated for one that
    succeeded. *)
Definition ForceChange (height : Z) : M unit :=
  block <- (fun a => (bestBlock a, a)) ;;
  clearingDPOSReward block false ;;;
  updateNextArbitrators (Int.uint32 (height + 1)) ;;;
  changeCurrentArbitrators.

(** [IncreaseChainHeight] panics on an error of the change. *)
Definition IncreaseChainHeight (block : Block) (a : arbitrators)
  : outcome arbitrators :=
  let '(changeType, versionHeight) :=
    getChangeType (Int.uint32 (Height block + 1)) a in
  let r :=
    match changeType with
    | updateNext => updateNextArbitrators versionHeight a
    | normalChange =>
        (clearingDPOSReward block true ;;; NormalChange (Height block)) a
    | none =>
        let a := accumulateReward block a in
        (Ok tt, set_dutyIndex (Int.int64 (dutyIndex a + 1)) a)
    end in
  match r with
  | (Err _, _) => Panics
  | (Ok _, a) => Returns (set_illegalBlocksPayloadHashes ∅ a)
  end.

(** [ProcessSpecialTxPayload]: the type switch on the payload. *)
Definition ProcessSpecialTxPayload (p : Payload) (height : Z) : M unit :=
  let continue : M unit :=
    modify (fun a =>
      set_State_
        (State_ProcessSpecialTxPayload p height (currentArbitrators a) (State_ a))
        a) ;;;
    ForceChange height in
  match p with
  | DPOSIllegalBlocks hash =>
      modify (fun a =>
        set_illegalBlocksPayloadHashes
          (<[hash := tt]> (illegalBlocksPayloadHashes a)) a) ;;;
      continue
  | InactiveArbitrators hash =>
      a <- get ;;
      let '(added, d) := AddInactivePayload hash (degradation_ a) in
      modify (set_degradation_ d) ;;;
      if (added : bool) then continue else ret tt
  | _ => fail ErrInvalidPayloadType
  end.

End Arbitrators.

(** ** The view-change countdown (package [manager]) *)
Module manager.

Definition firstTimeoutFactor : Z := 1.
Definition othersTimeoutFactor : Z := 240.

(** [ViewChangesCountDown]. What [IsTimeOut] reads through the pointers
    [dispatcher], [consensus] and [arbitrators] is kept as the values read:
    [c.dispatcher.CurrentHeight()], the [PublicDPOSHeight] of
    [c.dispatcher.cfg.ChainParams], [c.consensus.GetViewOffset()] and
    [c.arbitrators.GetArbitersCount()] (an [int]). *)
Record ViewChangesCountDown := {
  dispatcher_CurrentHeight : Z;
  dispatcher_cfg_PublicDPOSHeight : Z;
  consensus_ViewOffset : Z;
  arbitrators_ArbitersCount : Z;
  timeoutRefactor : Z;
  inactiveArbitratorsEliminated : bool;
}.

Definition set_countdown (timeout : Z) (eliminated : bool)
    (c : ViewChangesCountDown) : ViewChangesCountDown :=
  {| dispatcher_CurrentHeight := dispatcher_CurrentHeight c;
     dispatcher_cfg_PublicDPOSHeight := dispatcher_cfg_PublicDPOSHeight c;
     consensus_ViewOffset := consensus_ViewOffset c;
     arbitrators_ArbitersCount := arbitrators_ArbitersCount c;
     timeoutRefactor := timeout;
     inactiveArbitratorsEliminated := eliminated |}.

Definition Reset (c : ViewChangesCountDown) : ViewChangesCountDown :=
  set_countdown 0 false c.

Definition SetEliminated (c : ViewChangesCountDown) : ViewChangesCountDown :=
  if timeoutRefactor c =? 0
  then set_countdown (Int.uint32 (timeoutRefactor c + firstTimeoutFactor)) true c
  else set_countdown (Int.uint32 (timeoutRefactor c + othersTimeoutFactor)) true c.

Definition IsTimeOut (c : ViewChangesCountDown) : bool :=
  if (dispatcher_CurrentHeight c <=? dispatcher_cfg_PublicDPOSHeight c)
     || (timeoutRefactor c =? 0)
  then false
  else
    Int.uint32 (Int.uint32 (arbitrators_ArbitersCount c) * timeoutRefactor c)
    <=? consensus_ViewOffset c.

End manager.

(** ** Further operations of [arbitrators]

    The queries and the rollback of the same file. [bestHeight] is the value
    the host callback [a.bestHeight()] returns. *)
Section Queries.
Context `{H : Host}.

(** [IsArbitrator]: the loop over [GetArbitrators()] with [bytes.Equal]. *)
Fixpoint containsKey (pk : bytes) (arbitrators : list bytes) : bool :=
  match arbitrators with
  | [] => false
  | v :: rest => if bool_decide (pk = v) then true else containsKey pk rest
  end.

Definition IsArbitrator (pk : bytes) (a : arbitrators) : bool :=
  containsKey pk (currentArbitrators a).

(** [GetDutyIndexByHeight]: [%] by the length of an empty committee is a
    division by zero, which panics. *)
Definition GetDutyIndexByHeight (height : Z) (a : arbitrators) : outcome Z :=
  let count := len (currentArbitrators a) in
  if Int.uint32 (CRCOnlyDPOSHeight (chainParams a) - 1) <=? height then
    if count =? 0 then Panics else Returns (Int.rem (dutyIndex a) count)
  else
    if count =? 0 then Panics else Returns (Int.rem height count).

Definition GetOnDutyArbitrator (bestHeight : Z) (a : arbitrators)
  : outcome (option bytes) :=
  GetNextOnDutyArbitratorV (Int.uint32 (bestHeight + 1)) 0 a.

Definition GetNextOnDutyArbitrator (bestHeight offset : Z) (a : arbitrators)
  : outcome (option bytes) :=
  GetNextOnDutyArbitratorV (Int.uint32 (bestHeight + 1)) offset a.

Definition set_crcArbiters (v : list bytes) (a : arbitrators) : arbitrators :=
  {| State_ := State_ a; degradation_ := degradation_ a;
     chainParams := chainParams a; bestBlock := bestBlock a;
     started := started a; dutyIndex := dutyIndex a;
     currentArbitrators := currentArbitrators a;
     currentCandidates := currentCandidates a;
     currentOwnerProgramHashes := currentOwnerProgramHashes a;
     candidateOwnerProgramHashes := candidateOwnerProgramHashes a;
     nextOwnerProgramHashes := nextOwnerProgramHashes a;
     nextCandidateOwnerProgramHashes := nextCandidateOwnerProgramHashes a;
     ownerVotesInRound := ownerVotesInRound a;
     totalVotesInRound := totalVotesInRound a;
     nextArbitrators := nextArbitrators a;
     nextCandidates := nextCandidates a; crcArbiters := v;
     crcArbitratorsProgramHashes := crcArbitratorsProgramHashes a;
     crcArbitratorsNodePublicKey := crcArbitratorsNodePublicKey a;
     accumulativeReward := accumulativeReward a;
     finalRoundChange := finalRoundChange a;
     clearingHeight := clearingHeight a;
     arbitersRoundReward := arbitersRoundReward a;
     illegalBlocksPayloadHashes := illegalBlocksPayloadHashes a |}.

(** [GetOnDutyCrossChainArbitrator]. [GetCRCArbiters] hands out the slice
    [a.crcArbiters] itself, so [sort.Slice] reorders the field; the index is
    computed in [uint32] and reduced by [%], which panics for an empty CRC
    list. *)
Definition GetOnDutyCrossChainArbitrator (bestHeight : Z) (a : arbitrators)
  : outcome (option bytes) * arbitrators :=
  let height := bestHeight in
  if height <? Int.uint32 (CRCOnlyDPOSHeight (chainParams a) - 1) then
    (GetOnDutyArbitrator bestHeight a, a)
  else
    let crcArbiters := sort_Slice bytes_less (crcArbiters a) in
    let a := set_crcArbiters crcArbiters a in
    if len crcArbiters =? 0 then (Panics, a)
    else
      let ondutyIndex :=
        Int.rem (Int.uint32 (height - CRCOnlyDPOSHeight (chainParams a) + 1))
                (len crcArbiters) in
      match crcArbiters !! Z.to_nat ondutyIndex with
      | Some arbiter => (Returns (Some arbiter), a)
      | None => (Panics, a)
      end.

Definition GetCrossChainArbiters (bestHeight : Z) (a : arbitrators)
  : list bytes :=
  if bestHeight <? Int.uint32 (CRCOnlyDPOSHeight (chainParams a) - 1)
  then currentArbitrators a
  else crcArbiters a.

(** [DecreaseChainHeight]. [degradation.RollbackTo] and the height of the
    history of [State] are in files that are not among the sources; they are
    arguments: [rollbackDegradation] is the method, [historyHeight] the value
    of [a.history.height]. The difference is a [uint32] difference. *)
Definition DecreaseChainHeight
    (rollbackDegradation : Z -> degradation -> degradation)
    (historyHeight : Z) (height : Z) : M unit :=
  fun a =>
    let a := set_degradation_ (rollbackDegradation height (degradation_ a)) a in
    let heightOffset := Int.uint32 (historyHeight - height) in
    if (dutyIndex a =? 0) || (dutyIndex a <? heightOffset) then
      match ForceChange height a with
      | (Err e, a) => (Err e, a)
      | (Ok _, a) =>
          (Ok tt,
           set_dutyIndex
             (Int.int64 (Int.int64 (GetArbitersCount a - heightOffset)
                         + dutyIndex a)) a)
      end
    else (Ok tt, set_dutyIndex (Int.int64 (dutyIndex a - heightOffset)) a).

End Queries.

(** ** The cache of consensus blocks (package [manager]) *)
Module blockcache.

(** [ConsensusBlockCache]. The map is nil until [Reset] allocates it. The
    listener is an interface of the host: [Listener] tells whether one is
    set, and [notified] lists the blocks passed to its [OnBlockAdded], oldest
    first. *)
Record ConsensusBlockCache := {
  ConsensusBlocks : option (gmap Uint256 Block);
  ConsensusBlockList : list Uint256;
  Listener : bool;
  notified : list Block;
}.

Definition Reset (c : ConsensusBlockCache) : ConsensusBlockCache :=
  {| ConsensusBlocks := Some ∅;
     ConsensusBlockList := [];
     Listener := Listener c;
     notified := notified c |}.

(** [AddValue]: an assignment to an entry of a nil map panics. *)
Definition AddValue (key : Uint256) (value : Block) (c : ConsensusBlockCache)
  : outcome ConsensusBlockCache :=
  match ConsensusBlocks c with
  | None => Panics
  | Some blocks =>
      Returns
        {| ConsensusBlocks := Some (<[key := value]> blocks);
           ConsensusBlockList := ConsensusBlockList c ++ [key];
           Listener := Listener c;
           notified :=
             if Listener c then notified c ++ [value] else notified c |}
  end.

(** [TryGetValue]: reading a nil map finds nothing. *)
Definition TryGetValue (key : Uint256) (c : ConsensusBlockCache)
  : option Block :=
  match ConsensusBlocks c with
  | None => None
  | Some blocks => blocks !! key
  end.

(** [GetFirstArrivedBlockHash]: the zero hash and [false] for an empty
    list. *)
Definition GetFirstArrivedBlockHash (c : ConsensusBlockCache)
  : Uint256 * bool :=
  match ConsensusBlockList c with
  | [] => (0, false)
  | first :: _ => (first, true)
  end.

(** A run of [AddValue] calls. *)
Fixpoint AddValues (kvs : list (Uint256 * Block)) (c : ConsensusBlockCache)
  : outcome ConsensusBlockCache :=
  match kvs with
  | [] => Returns c
  | (key, value) :: rest =>
      match AddValue key value c with
      | Panics => Panics
      | Returns c' => AddValues rest c'
      end
  end.

End blockcache.

(** ** Definitions used to state the properties *)
Section SpecDefs.
Context `{H : Host}.

Implicit Types (a : arbitrators).

(** [preserves proj m]: running [m] does not change what [proj] reads,
    whether [m] ends in an error or not. *)
Definition preserves {T A : Type} (proj : arbitrators -> T) (m : M A) : Prop :=
  forall a, proj (m a).2 = proj a.

(** [updateNextArbitrators] assigns the next committee, the vote snapshot
    and the degradation state only. [kept] collects fields it does not
    assign. *)
Definition kept a :=
  (dutyIndex a, accumulativeReward a, finalRoundChange a,
   arbitersRoundReward a, illegalBlocksPayloadHashes a, clearingHeight a,
   chainParams a, currentArbitrators a, State_ a).

(** The payload hashes of the illegal-block transactions of a block. *)
Definition illegalBlockTxHashes (txs : list Transaction) : list Uint256 :=
  omap (fun tx =>
          if IsIllegalBlockTx tx then
            match Tx_Payload tx with
            | DPOSIllegalBlocks h => Some h
            | _ => None
            end
          else None) txs.

(** Every illegal-block transaction carries a [DPOSIllegalBlocks] payload
    (what the transaction checks establish before the arbitrators run). *)
Definition wellFormedTxs (txs : list Transaction) : Prop :=
  Forall (fun tx => IsIllegalBlockTx tx = true ->
                    exists h, Tx_Payload tx = DPOSIllegalBlocks h) txs.

(** The sum of the values of the payout ledger. *)
Definition sumRoundReward (m : gmap Uint168 Fixed64) : Z :=
  map_fold (fun _ v acc => v + acc) 0 m.

(** The owner hashes of the current arbitrators that are not CRC arbiters:
    the keys the first payout loop writes besides the CRC address. *)
Definition electedOwners a : list Uint168 :=
  filter (fun h => crcArbitratorsProgramHashes a !! h = None)
         (currentOwnerProgramHashes a).

End SpecDefs.

(** ** Definitions used to state the further properties *)

(** [bytes.Compare(x, y) <= 0]. *)
Definition bytes_le (x y : bytes) : Prop := bytes_less y x = false.

Section CommitteeDefs.
Context `{H : Host}.

Implicit Types (a : arbitrators).

(** The node keys of the CRC arbiters, in the order in which the loop of
    [updateNextArbitrators] ranges over the map. *)
Definition crcNodeKeys a : list bytes :=
  (fun kv => NodePublicKey (info kv.2))
    <$> map_to_list (crcArbitratorsNodePublicKey a).

(** The chain is in inactive or in understaffed mode. *)
Definition degraded a : bool :=
  IsInactiveMode (degradation_ a) || IsUnderstaffedMode (degradation_ a).

End CommitteeDefs.

(** ** A small host, to run the operations on concrete inputs *)
Module Sample.

Definition addInactive (h : Uint256) (d : degradation) : bool * degradation :=
  match inactiveTxs d !! h with
  | Some _ => (false, d)
  | None =>
      (true,
       {| inactiveTxs := <[h := tt]> (inactiveTxs d);
          inactivateHeight := inactivateHeight d;
          understaffedSince := understaffedSince d;
          state := state d |})
  end.

Definition setUnderstaffed (height : Z) (d : degradation) : degradation :=
  {| inactiveTxs := inactiveTxs d;
     inactivateHeight := inactivateHeight d;
     understaffedSince := height;
     state := Understaffed |}.

Definition programHash (pk : bytes) : result Uint168 :=
  Ok (fold_left (fun acc b => acc * 256 + b) pk 0).

Definition host : Host :=
  {| State := unit;
     State_ProcessSpecialTxPayload := fun _ _ _ s => s;
     GetVotedProducers := fun _ _ => [];
     GetProducer := fun _ _ => None;
     IsAbleToRecoverFromInactiveMode := fun _ _ => false;
     IsAbleToRecoverFromUnderstaffedState := fun _ _ => false;
     AddInactivePayload := addInactive;
     InactiveModeSwitch := fun _ _ d => ((false, false), d);
     LeaveEmergency := fun d => d;
     TryLeaveUnderStaffed := fun _ d => d;
     TrySetUnderstaffed := setUnderstaffed;
     IsInactiveMode := fun d => bool_decide (state d = Inactive);
     IsUnderstaffedMode := fun d => bool_decide (state d = Understaffed);
     PublicKeyToStandardProgramHash := programHash;
     getNormalArbitratorsDescV0 := fun _ => Ok [];
     getNormalArbitratorsDescV1 := fun _ => Ok [];
     getNextOnDutyArbitratorV0 := fun _ _ _ => Returns None |}.

#[local] Existing Instance host.

Definition params : Params :=
  {| CRCOnlyDPOSHeight := 100;
     PublicDPOSHeight := 200;
     PreConnectOffset := 10;
     GeneralArbiters := 2;
     CandidateArbiters := 2;
     RewardPerBlock := 20;
     CRCAddress := 999 |}.

Definition crcProducer (pk : bytes) : Producer :=
  {| info := {| OwnerPublicKey := pk; NodePublicKey := pk |};
     votes := 0;
     activateRequestHeight := 2 ^ 32 - 1 |}.

Definition normalDegradation : degradation :=
  {| inactiveTxs := ∅; inactivateHeight := 0; understaffedSince := 0;
     state := Normal |}.

Definition block (height : Z) (fees : list Fixed64) : Block :=
  {| Height := height;
     Transactions :=
       (fun fee => {| Tx_TxType := OtherTx; Tx_Payload := OtherPayload; Fee := fee |})
         <$> fees |}.

Definition understaffedSince200 : degradation :=
  {| inactiveTxs := ∅; inactivateHeight := 0; understaffedSince := 200;
     state := Understaffed |}.

(** A committee of the two CRC arbiters [[2]] and [[3]], with no votes in the
    round and a pending reward of 7, the share of one block without fees;
    [d] is the degradation state, [pending] the table of expected
    illegal-evidence hashes. *)
Definition committee (d : degradation) (pending : gmap Uint256 unit)
  : arbitrators :=
  {| State_ := tt : @State host;
     degradation_ := d;
     chainParams := params;
     bestBlock := Ok (block 300 []);
     started := false;
     dutyIndex := 0;
     currentArbitrators := [[2]; [3]];
     currentCandidates := [];
     currentOwnerProgramHashes := [2; 3];
     candidateOwnerProgramHashes := [];
     nextOwnerProgramHashes := [2; 3];
     nextCandidateOwnerProgramHashes := [];
     ownerVotesInRound := ∅;
     totalVotesInRound := 0;
     nextArbitrators := [[2]; [3]];
     nextCandidates := [];
     crcArbiters := [[2]; [3]];
     crcArbitratorsProgramHashes := {[ 2 := tt; 3 := tt ]};
     crcArbitratorsNodePublicKey :=
       {[ "02"%string := crcProducer [2]; "03"%string := crcProducer [3] ]};
     accumulativeReward := 7;
     finalRoundChange := 0;
     clearingHeight := 0;
     arbitersRoundReward := None;
     illegalBlocksPayloadHashes := pending |}.

(** Between H1 and H2: the CRC arbiters are the committee. *)
Definition crcOnly : arbitrators := committee normalDegradation ∅.

(** After H2 with too few producers: understaffed, the CRC arbiters are the
    committee. *)
Definition understaffed : arbitrators := committee understaffedSince200 ∅.

(** As [understaffed], with the evidence hash 5 expected in the next
    block. *)
Definition expecting : arbitrators :=
  committee understaffedSince200 {[ 5 := tt ]}.

(** A block above H2 and the block just below H2, each with fees 3 and 4. *)
Definition block250 : Block := block 250 [3; 4].
Definition block199 : Block := block 199 [3; 4].

(** A committee of the CRC arbiters [[2]], [[3]] and the elected arbiter
    [[7]], with the candidate of owner hash 8; 60 and 40 votes in the
    round. *)
Definition voted : arbitrators :=
  set_totalVotesInRound 100
    (set_ownerVotesInRound {[ 7 := 60; 8 := 40 ]}
       (set_candidateOwnerProgramHashes [8]
          (set_currentOwnerProgramHashes [2; 3; 7]
             (set_currentArbitrators [[2]; [3]; [7]] understaffed)))).

Definition illegalBlockTx (hash : Uint256) : Transaction :=
  {| Tx_TxType := IllegalBlockEvidence;
     Tx_Payload := DPOSIllegalBlocks hash;
     Fee := 0 |}.

(** A countdown that has just been reset, above [PublicDPOSHeight]. *)
Definition freshCountdown : manager.ViewChangesCountDown :=
  {| manager.dispatcher_CurrentHeight := 300;
     manager.dispatcher_cfg_PublicDPOSHeight := 200;
     manager.consensus_ViewOffset := 0;
     manager.arbitrators_ArbitersCount := 2;
     manager.timeoutRefactor := 0;
     manager.inactiveArbitratorsEliminated := false |}.

Definition atViewOffset (viewOffset : Z) (c : manager.ViewChangesCountDown)
  : manager.ViewChangesCountDown :=
  {| manager.dispatcher_CurrentHeight := manager.dispatcher_CurrentHeight c;
     manager.dispatcher_cfg_PublicDPOSHeight :=
       manager.dispatcher_cfg_PublicDPOSHeight c;
     manager.consensus_ViewOffset := viewOffset;
     manager.arbitrators_ArbitersCount := manager.arbitrators_ArbitersCount c;
     manager.timeoutRefactor := manager.timeoutRefactor c;
     manager.inactiveArbitratorsEliminated :=
       manager.inactiveArbitratorsEliminated c |}.

End Sample.

(** ** A host with voted producers

    As [Sample.host], with three registered producers of node keys [[7]],
    [[8]] and [[9]] that hold 60, 40 and 10 votes. *)
Module Elected.

Definition producer (pk : bytes) (v : Fixed64) : Producer :=
  {| info := {| OwnerPublicKey := pk; NodePublicKey := pk |};
     votes := v;
     activateRequestHeight := 2 ^ 32 - 1 |}.

Definition producers : list Producer :=
  [producer [9] 10; producer [7] 60; producer [8] 40].

Definition host : Host :=
  {| State := unit;
     State_ProcessSpecialTxPayload := fun _ _ _ s => s;
     GetVotedProducers := fun _ _ => producers;
     GetProducer := fun pk _ =>
       List.find (fun p => bool_decide (Producer_NodePublicKey p = pk)) producers;
     IsAbleToRecoverFromInactiveMode := fun _ _ => false;
     IsAbleToRecoverFromUnderstaffedState := fun _ _ => false;
     AddInactivePayload := Sample.addInactive;
     InactiveModeSwitch := fun _ _ d => ((false, false), d);
     LeaveEmergency := fun d => d;
     TryLeaveUnderStaffed := fun _ d => d;
     TrySetUnderstaffed := Sample.setUnderstaffed;
     IsInactiveMode := fun d => bool_decide (state d = Inactive);
     IsUnderstaffedMode := fun d => bool_decide (state d = Understaffed);
     PublicKeyToStandardProgramHash := Sample.programHash;
     getNormalArbitratorsDescV0 := fun _ => Ok [];
     getNormalArbitratorsDescV1 := fun _ => Ok [];
     getNextOnDutyArbitratorV0 := fun _ _ _ => Returns None |}.

(** The committee of the two CRC arbiters in normal mode, before the first
    election. *)
Definition committee : @arbitrators host :=
  {| State_ := tt : @State host;
     degradation_ := Sample.normalDegradation;
     chainParams := Sample.params;
     bestBlock := Ok (Sample.block 300 []);
     started := false;
     dutyIndex := 0;
     currentArbitrators := [[2]; [3]];
     currentCandidates := [];
     currentOwnerProgramHashes := [2; 3];
     candidateOwnerProgramHashes := [];
     nextOwnerProgramHashes := [2; 3];
     nextCandidateOwnerProgramHashes := [];
     ownerVotesInRound := ∅;
     totalVotesInRound := 0;
     nextArbitrators := [[2]; [3]];
     nextCandidates := [];
     crcArbiters := [[3]; [2]];
     crcArbitratorsProgramHashes := {[ 2 := tt; 3 := tt ]};
     crcArbitratorsNodePublicKey :=
       {[ "02"%string := Sample.crcProducer [2];
          "03"%string := Sample.crcProducer [3] ]};
     accumulativeReward := 7;
     finalRoundChange := 0;
     clearingHeight := 0;
     arbitersRoundReward := None;
     illegalBlocksPayloadHashes := ∅ |}.

End Elected.

(** * Properties *)

(** ** Machine integers and float64 *)

Lemma uint32_small x : 0 <= x < 2 ^ 32 -> Int.uint32 x = x.
Proof. intros Hx. unfold Int.uint32. apply Z.mod_small. exact Hx. Qed.

Lemma uint32_range x : 0 <= Int.uint32 x < 2 ^ 32.
Proof. unfold Int.uint32. apply Z.mod_pos_bound. lia. Qed.

Lemma int64_small x : - 2 ^ 63 <= x < 2 ^ 63 -> Int.int64 x = x.
Proof. intros Hx. unfold Int.int64. rewrite Z.mod_small; lia. Qed.

Lemma int64_range x : - 2 ^ 63 <= Int.int64 x < 2 ^ 63.
Proof.
  unfold Int.int64.
  pose proof (Z.mod_pos_bound (x + 2 ^ 63) (2 ^ 64)). lia.
Qed.

Example of_int_7 : Float64.of_int 7 = 7%float.
Proof. vm_compute. reflexivity. Qed.

Example to_int_trunc :
  Float64.to_int (-2.5)%float = -2 /\ Float64.to_int 2.5%float = 2.
Proof. vm_compute. split; reflexivity. Qed.

Example Floor_Ceil_samples :
  Float64.to_int (Float64.Floor 2.5) = 2 /\
  Float64.to_int (Float64.Floor (-2.5)) = -3 /\
  Float64.to_int (Float64.Ceil 2.5) = 3 /\
  Float64.to_int (Float64.Ceil (-2.5)) = -2 /\
  Float64.Ceil (-0.5) = neg_zero /\ Float64.Ceil 4 = 4%float.
Proof. vm_compute. repeat split; reflexivity. Qed.


(** *** float64 rounding, from the specification of the kernel floats

    [digits2_pos] counts binary digits; shifting a mantissa right divides it;
    rounding a product to 53 digits keeps it between the two neighbours of
    the exact value. *)

Lemma digits2_pos_size p : digits2_pos p = Pos.size p.
Proof. induction p; simpl; congruence. Qed.

Lemma digits_bounds p :
  2 ^ (Z.pos (digits2_pos p) - 1) <= Z.pos p < 2 ^ Z.pos (digits2_pos p).
Proof.
  rewrite digits2_pos_size.
  pose proof (Pos.size_gt p) as Hgt. pose proof (Pos.size_le p) as Hle.
  apply Pos2Z.pos_lt_pos in Hgt. apply Pos2Z.pos_le_pos in Hle.
  rewrite Pos2Z.inj_pow in Hgt, Hle.
  change (Z.pos 2) with 2 in Hle.
  rewrite (Pos2Z.inj_xO p) in Hle.
  assert (E : 2 ^ Z.pos (Pos.size p) = 2 * 2 ^ (Z.pos (Pos.size p) - 1)).
  { rewrite <- Z.pow_succ_r by lia. f_equal. lia. }
  lia.
Qed.

Lemma digits_unique p k :
  2 ^ (k - 1) <= Z.pos p < 2 ^ k -> Z.pos (digits2_pos p) = k.
Proof.
  intros [Hlo Hhi]. pose proof (digits_bounds p) as [Dlo Dhi].
  set (d := Z.pos (digits2_pos p)) in *.
  assert (0 < k).
  { destruct (Z.ltb_spec 0 k); [assumption |].
    rewrite Z.pow_neg_r in Hlo by lia.
    assert (2 ^ k <= 2 ^ 0) by (apply Z.pow_le_mono_r; lia). simpl in *; lia. }
  destruct (Z.lt_trichotomy d k) as [Hlt | [Heq | Hgt]]; [| exact Heq |].
  - assert (2 ^ d <= 2 ^ (k - 1)) by (apply Z.pow_le_mono_r; lia). lia.
  - assert (2 ^ k <= 2 ^ (d - 1)) by (apply Z.pow_le_mono_r; lia). lia.
Qed.

Lemma shr_1_m mrs : 0 <= shr_m mrs -> shr_m (shr_1 mrs) = shr_m mrs / 2.
Proof.
  destruct mrs as [m r s]. simpl. intros Hm.
  destruct m as [| [p | p |] | p]; cbn [shr_m]; try lia.
  - reflexivity.
  - apply Z.div_unique with 1; lia.
  - apply Z.div_unique with 0; lia.
  - reflexivity.
Qed.

Lemma shr_iter_m n : forall mrs,
  0 <= shr_m mrs ->
  shr_m (SpecFloat.iter_pos shr_1 n mrs) = shr_m mrs / 2 ^ Z.pos n.
Proof.
  induction n as [n IH | n IH |]; intros mrs Hm; simpl SpecFloat.iter_pos.
  - assert (H1 : 0 <= shr_m (shr_1 mrs)).
    { rewrite shr_1_m by exact Hm. apply Z.div_pos; lia. }
    assert (H2 : 0 <= shr_m (SpecFloat.iter_pos shr_1 n (shr_1 mrs))).
    { rewrite IH by exact H1. apply Z.div_pos; [exact H1 | lia]. }
    rewrite IH, IH, shr_1_m by assumption.
    assert (E : 2 ^ Z.pos n~1 = 2 * (2 ^ Z.pos n * 2 ^ Z.pos n)).
    { replace (Z.pos n~1) with (1 + Z.pos n + Z.pos n) by lia.
      rewrite !Z.pow_add_r by lia. lia. }
    rewrite E, !Z.div_div by lia. reflexivity.
  - assert (H2 : 0 <= shr_m (SpecFloat.iter_pos shr_1 n mrs)).
    { rewrite IH by exact Hm. apply Z.div_pos; [exact Hm | lia]. }
    rewrite IH, IH by assumption.
    assert (E : 2 ^ Z.pos n~0 = 2 ^ Z.pos n * 2 ^ Z.pos n).
    { replace (Z.pos n~0) with (Z.pos n + Z.pos n) by lia.
      rewrite !Z.pow_add_r by lia. lia. }
    rewrite E, !Z.div_div by lia. reflexivity.
  - rewrite shr_1_m by exact Hm. reflexivity.
Qed.

Lemma iter_xO p k : Z.pos (Pos.iter xO p k) = Z.pos p * 2 ^ Z.pos k.
Proof.
  revert p. induction k using Pos.peano_ind; intros p.
  - simpl. lia.
  - rewrite Pos.iter_succ. rewrite Pos2Z.inj_xO, IHk.
    rewrite Pos2Z.inj_succ, Z.pow_succ_r by lia. lia.
Qed.

Lemma fexp_normal x : -1074 <= x - 53 -> fexp prec emax x = x - 53.
Proof. unfold fexp, emin, prec, emax. lia. Qed.

Lemma round_aux_exact s m e :
  Z.pos (digits2_pos m) = 53 -> -1074 <= e <= 971 ->
  binary_round_aux prec emax s (Z.pos m) e loc_Exact = S754_finite s m e.
Proof.
  intros Hd He.
  assert (Hsh : shr_fexp prec emax (Z.pos m) e loc_Exact
                = ({| shr_m := Z.pos m; shr_r := false; shr_s := false |}, e)).
  { unfold shr_fexp. cbn [Zdigits2]. rewrite Hd, fexp_normal by lia.
    replace (53 + e - 53 - e) with 0 by lia. reflexivity. }
  unfold binary_round_aux. rewrite Hsh. cbn [shr_m loc_of_shr_record round_nearest_even].
  rewrite Hsh. cbn [shr_m].
  unfold emax, prec.
  destruct (Z.leb_spec e (1024 - 53)); [reflexivity | lia].
Qed.

Lemma round_cases m l :
  round_nearest_even m l = m \/ round_nearest_even m l = m + 1.
Proof.
  destruct l as [| []]; simpl; auto. destruct (Z.even m); auto.
Qed.

Lemma round_aux_faithful s m e :
  let n := Z.pos (digits2_pos m) - 53 in
  0 < n -> -1074 <= e + n -> e + n + 1 <= 971 ->
  exists m1,
    (m1 = Z.pos m / 2 ^ n \/ m1 = Z.pos m / 2 ^ n + 1) /\
    2 ^ 52 <= Z.pos m / 2 ^ n < 2 ^ 53 /\
    binary_round_aux prec emax s (Z.pos m) e loc_Exact =
    if m1 <? 2 ^ 53 then S754_finite s (Z.to_pos m1) (e + n)
    else S754_finite s (Z.to_pos (2 ^ 52)) (e + n + 1).
Proof.
  intros n Hn Hlo Hhi.
  pose proof (digits_bounds m) as [Dlo Dhi].
  assert (Hd : Z.pos (digits2_pos m) = n + 53) by (unfold n; lia).
  rewrite Hd in Dlo, Dhi.
  assert (Hq : 2 ^ 52 <= Z.pos m / 2 ^ n < 2 ^ 53).
  { assert (0 < 2 ^ n) by (apply Z.pow_pos_nonneg; lia).
    split.
    - apply Z.div_le_lower_bound; [lia |].
      replace (n + 53 - 1) with (n + 52) in Dlo by lia.
      rewrite Z.pow_add_r in Dlo by lia. lia.
    - apply Z.div_lt_upper_bound; [lia |].
      rewrite Z.pow_add_r in Dhi by lia. lia. }
  destruct n as [| pn |] eqn:En; try lia.
  set (mrs := SpecFloat.iter_pos shr_1 pn {| shr_m := Z.pos m; shr_r := false; shr_s := false |}).
  assert (Hsh : shr_fexp prec emax (Z.pos m) e loc_Exact = (mrs, e + Z.pos pn)).
  { unfold shr_fexp. cbn [Zdigits2]. rewrite Hd, fexp_normal by lia.
    replace (Z.pos pn + 53 + e - 53 - e) with (Z.pos pn) by lia. reflexivity. }
  assert (Hm : shr_m mrs = Z.pos m / 2 ^ Z.pos pn).
  { unfold mrs. rewrite shr_iter_m; cbn [shr_m]; [reflexivity | lia]. }
  set (m1 := round_nearest_even (shr_m mrs) (loc_of_shr_record mrs)).
  exists m1. split; [| split; [exact Hq |]].
  { unfold m1. rewrite <- Hm. apply round_cases. }
  assert (Hm1 : 2 ^ 52 <= m1 <= 2 ^ 53).
  { unfold m1. destruct (round_cases (shr_m mrs) (loc_of_shr_record mrs)) as [-> | ->];
      rewrite Hm; lia. }
  unfold binary_round_aux. rewrite Hsh. fold m1.
  destruct m1 as [| p1 | p1] eqn:Em1; try lia.
  destruct (Z.ltb_spec (Z.pos p1) (2 ^ 53)) as [Hlt | Hge].
  - assert (Hd1 : Z.pos (digits2_pos p1) = 53) by (apply digits_unique; lia).
    unfold shr_fexp. cbn [Zdigits2]. rewrite Hd1, fexp_normal by lia.
    replace (53 + (e + Z.pos pn) - 53 - (e + Z.pos pn)) with 0 by lia.
    cbn [shr shr_record_of_loc shr_m]. unfold emax, prec.
    destruct (Z.leb_spec (e + Z.pos pn) (1024 - 53)); [| lia].
    rewrite Pos2Z.id. reflexivity.
  - assert (Ep : Z.pos p1 = 2 ^ 53) by lia.
    assert (Hd1 : Z.pos (digits2_pos p1) = 54).
    { apply digits_unique. rewrite Ep. simpl. lia. }
    unfold shr_fexp. cbn [Zdigits2]. rewrite Hd1, fexp_normal by lia.
    replace (54 + (e + Z.pos pn) - 53 - (e + Z.pos pn)) with 1 by lia.
    cbn [shr shr_record_of_loc SpecFloat.iter_pos].
    rewrite shr_1_m by (cbn [shr_m]; lia). cbn [shr_m]. rewrite Ep.
    change (2 ^ 53 / 2) with (2 ^ 52).
    change (2 ^ 52) with (Z.pos (Z.to_pos (2 ^ 52))) at 1.
    cbv iota beta. unfold emax, prec.
    destruct (Z.leb_spec (e + Z.pos pn + 1) (1024 - 53)); [reflexivity | lia].
Qed.
(** The normalised mantissa and exponent of a positive integer below 2^53. *)
Lemma of_int_spec p :
  let d := Z.pos (digits2_pos p) in
  Z.pos p < 2 ^ 53 ->
  Z.pos (digits2_pos (Z.to_pos (Z.pos p * 2 ^ (53 - d)))) = 53 /\
  Prim2SF (Float64.of_int (Z.pos p))
  = S754_finite false (Z.to_pos (Z.pos p * 2 ^ (53 - d))) (d - 53).
Proof.
  intros d Hp.
  pose proof (digits_bounds p) as [Dlo Dhi]. fold d in Dlo, Dhi.
  assert (Hd : 1 <= d <= 53).
  { split; [unfold d; lia |].
    destruct (Z.leb_spec d 53); [assumption |].
    assert (2 ^ 53 <= 2 ^ (d - 1)) by (apply Z.pow_le_mono_r; lia). lia. }
  assert (Hpow : 0 < 2 ^ (53 - d)) by (apply Z.pow_pos_nonneg; lia).
  assert (Hmz : 2 ^ 52 <= Z.pos p * 2 ^ (53 - d) < 2 ^ 53).
  { assert (E1 : 2 ^ 52 = 2 ^ (d - 1) * 2 ^ (53 - d)).
    { rewrite <- Z.pow_add_r by lia. f_equal. lia. }
    assert (E2 : 2 ^ 53 = 2 ^ d * 2 ^ (53 - d)).
    { rewrite <- Z.pow_add_r by lia. f_equal. lia. }
    rewrite E1, E2. nia. }
  assert (Hdig : Z.pos (digits2_pos (Z.to_pos (Z.pos p * 2 ^ (53 - d)))) = 53).
  { apply digits_unique. rewrite Z2Pos.id by lia. exact Hmz. }
  split; [exact Hdig |].
  unfold Float64.of_int, binary_normalize, binary_round, shl_align.
  rewrite Z.add_0_r. fold d. rewrite fexp_normal by lia. rewrite Z.sub_0_r.
  assert (Hround :
    (let '(mz, ez) :=
       match d - 53 with
       | Z.neg k => (Pos.iter xO p k, d - 53)
       | _ => (p, 0)
       end in
     binary_round_aux prec emax false (Z.pos mz) ez loc_Exact)
    = S754_finite false (Z.to_pos (Z.pos p * 2 ^ (53 - d))) (d - 53)).
  { destruct (d - 53) as [| k | k] eqn:Ek; try lia.
    - replace (53 - d) with 0 in * by lia.
      rewrite Z.mul_1_r in *. rewrite Pos2Z.id in *.
      apply round_aux_exact; [exact Hdig | lia].
    - assert (E : Pos.iter xO p k = Z.to_pos (Z.pos p * 2 ^ (53 - d))).
      { apply Pos2Z.inj. rewrite iter_xO, Z2Pos.id by lia.
        do 2 f_equal. lia. }
      rewrite E. apply round_aux_exact; [exact Hdig | lia]. }
  rewrite Hround. apply Prim2SF_SF2Prim.
  unfold valid_binary, bounded, canonical_mantissa.
  rewrite Hdig, fexp_normal by lia.
  apply andb_true_intro. split; [apply Z.eqb_eq; lia |].
  unfold emax, prec. apply Z.leb_le. lia.
Qed.

Lemma to_int_of_int c : 0 <= c < 2 ^ 53 -> Float64.to_int (Float64.of_int c) = c.
Proof.
  intros Hc. destruct c as [| p |]; [vm_compute; reflexivity | | lia].
  destruct (of_int_spec p) as [Hdig Hspec]; [lia |].
  unfold Float64.to_int. rewrite Hspec.
  pose proof (digits_bounds p) as [Dlo Dhi].
  set (d := Z.pos (digits2_pos p)) in *.
  assert (Hd : 1 <= d <= 53).
  { split; [unfold d; lia |].
    destruct (Z.leb_spec d 53); [assumption |].
    assert (2 ^ 53 <= 2 ^ (d - 1)) by (apply Z.pow_le_mono_r; lia). lia. }
  assert (Hpow : 0 < 2 ^ (53 - d)) by (apply Z.pow_pos_nonneg; lia).
  rewrite Z2Pos.id by nia.
  assert (Ha : (if 0 <=? d - 53
                then Z.pos p * 2 ^ (53 - d) * 2 ^ (d - 53)
                else Z.pos p * 2 ^ (53 - d) / 2 ^ (- (d - 53))) = Z.pos p).
  { destruct (Z.leb_spec 0 (d - 53)).
    - replace (53 - d) with 0 by lia. replace (d - 53) with 0 by lia. simpl. lia.
    - replace (- (d - 53)) with (53 - d) by lia. apply Z.div_mul. lia. }
  cbv zeta. rewrite Ha.
  unfold Int.min_int64, Int.max_int64.
  assert (2 ^ 53 < 2 ^ 63) by (apply Z.pow_lt_mono_r; lia).
  destruct (Z.leb_spec (- 2 ^ 63) (Z.pos p)); [| lia].
  destruct (Z.leb_spec (Z.pos p) (2 ^ 63 - 1)); [reflexivity | lia].
Qed.

Lemma to_int_Ceil_positive f m e :
  Prim2SF f = S754_finite false m e -> e < 0 ->
  0 <= - (Z.neg m / 2 ^ (- e)) < 2 ^ 53 ->
  Float64.to_int (Float64.Ceil f) = - (Z.neg m / 2 ^ (- e)).
Proof.
  intros Hf He Hc. unfold Float64.Ceil. rewrite Hf.
  destruct (Z.leb_spec 0 e); [lia |].
  cbv zeta. rewrite andb_false_r. apply to_int_of_int. exact Hc.
Qed.

(** [- (- a / b)] is the ceiling of a / b. *)
Lemma ceil_div_unique a b k :
  0 < b -> (k - 1) * b < a <= k * b -> - (- a / b) = k.
Proof.
  intros Hb [Hlo Hhi].
  assert (E : - a / b = - k).
  { symmetry. apply Z.div_unique with (k * b - a); lia. }
  lia.
Qed.

Lemma Prim2SF_dposRatio :
  Prim2SF dposRatio = S754_finite false ratioMantissa (-54).
Proof. vm_compute. reflexivity. Qed.

Lemma ratioMantissa_value : 100 * Z.pos ratioMantissa = 35 * 2 ^ 54 - 40.
Proof. vm_compute. reflexivity. Qed.

(** Below 2^48 the float64 ceiling of the share is the ceiling of 35%. *)
Lemma dposShare_exact t :
  0 <= t < 2 ^ 48 ->
  Float64.to_int (Float64.Ceil (Float64.of_int t * dposRatio)%float)
  = (35 * t + 99) / 100.
Proof.
  intros Ht. destruct t as [| p |]; [vm_compute; reflexivity | | lia].
  set (t := Z.pos p) in *.
  set (k := (35 * t + 99) / 100).
  (* the ceiling k *)
  assert (Hk : 100 * (k - 1) + 5 <= 35 * t <= 100 * k).
  { pose proof (Z.div_mod (35 * t + 99) 100 ltac:(lia)) as Hdm.
    pose proof (Z.mod_pos_bound (35 * t + 99) 100 ltac:(lia)) as Hmb.
    fold k in Hdm.
    assert (Hfive : (35 * t) mod 5 = 0).
    { rewrite Z.mul_comm, <- (Z.mul_1_l 5) at 1.
      replace (t * 35) with (t * 7 * 5) by lia. apply Z.mod_mul. lia. }
    assert (Hk5 : (100 * (k - 1)) mod 5 = 0).
    { replace (100 * (k - 1)) with ((k - 1) * 20 * 5) by lia. apply Z.mod_mul. lia. }
    split; [| lia].
    assert (Hge : 100 * (k - 1) + 1 <= 35 * t) by lia.
    destruct (Z.le_gt_cases (100 * (k - 1) + 5) (35 * t)) as [? | Hlt]; [assumption |].
    exfalso.
    assert (E : 35 * t = 5 * (7 * t)) by lia.
    assert (E' : 100 * (k - 1) = 5 * (20 * (k - 1))) by lia.
    lia. }
  (* the float64 of t *)
  destruct (of_int_spec p) as [Hdig Hspec].
  { assert (2 ^ 48 < 2 ^ 53) by (apply Z.pow_lt_mono_r; lia). lia. }
  pose proof (digits_bounds p) as [Dlo Dhi].
  fold t in Hdig, Hspec, Dlo, Dhi.
  set (d := Z.pos (digits2_pos p)) in *.
  assert (Hd : 1 <= d <= 48).
  { split; [unfold d; lia |].
    destruct (Z.leb_spec d 48); [assumption |].
    assert (2 ^ 48 <= 2 ^ (d - 1)) by (apply Z.pow_le_mono_r; lia). lia. }
  set (Sc := 2 ^ (53 - d)) in *.
  assert (HS : 0 < Sc) by (apply Z.pow_pos_nonneg; lia).
  pose proof (digits_bounds (Z.to_pos (t * Sc))) as [Mlo Mhi].
  rewrite Hdig, Z2Pos.id in Mlo, Mhi by nia.
  change (53 - 1) with 52 in Mlo.
  (* the product, rounded *)
  set (X := (Z.to_pos (t * Sc) * ratioMantissa)%positive).
  assert (HX : Z.pos X = t * Sc * Z.pos ratioMantissa).
  { unfold X. rewrite Pos2Z.inj_mul, Z2Pos.id by nia. reflexivity. }
  assert (HXb : 2 ^ 104 <= Z.pos X < 2 ^ 106).
  { rewrite HX.
    assert (2 ^ 52 <= Z.pos ratioMantissa < 2 ^ 53) by (vm_compute; split; congruence).
    change (2 ^ 104) with (2 ^ 52 * 2 ^ 52). change (2 ^ 106) with (2 ^ 53 * 2 ^ 53).
    nia. }
  pose proof (digits_bounds X) as [Xlo Xhi].
  set (dX := Z.pos (digits2_pos X)) in *.
  assert (HdX : 105 <= dX <= 106).
  { split.
    - destruct (Z.leb_spec 105 dX); [assumption |].
      assert (2 ^ dX <= 2 ^ 104) by (apply Z.pow_le_mono_r; lia). lia.
    - destruct (Z.leb_spec dX 106); [assumption |].
      assert (2 ^ 106 <= 2 ^ (dX - 1)) by (apply Z.pow_le_mono_r; lia). lia. }
  assert (Hmul : Prim2SF (Float64.of_int t * dposRatio)%float
                 = binary_round_aux prec emax false (Z.pos X) (d - 53 + -54) loc_Exact).
  { rewrite mul_spec, Hspec, Prim2SF_dposRatio. reflexivity. }
  destruct (round_aux_faithful false X (d - 53 + -54)) as (m1 & Hm1 & Hq & Hres);
    fold dX; try lia.
  fold dX in Hm1, Hq, Hres.
  set (n := dX - 53) in *.
  set (N := 2 ^ n) in *.
  assert (HN : 0 < N) by (apply Z.pow_pos_nonneg; lia).
  set (g := 107 - d - n).
  assert (Hg : 6 <= g) by lia.
  set (G := 2 ^ g).
  assert (HG : 0 < G) by (apply Z.pow_pos_nonneg; lia).
  assert (HGN : G * N = 2 ^ 54 * Sc).
  { unfold G, N, Sc. rewrite <- !Z.pow_add_r by lia. f_equal. lia. }
  (* the quotient q = X / N lies strictly between (k-1) G and k G *)
  pose proof (Z.div_mod (Z.pos X) N ltac:(lia)) as Hdm.
  pose proof (Z.mod_pos_bound (Z.pos X) N HN) as Hmb.
  set (q := Z.pos X / N) in *.
  pose proof ratioMantissa_value as HM.
  set (M := Z.pos ratioMantissa) in *.
  assert (HNX : N * 2 ^ 52 <= Z.pos X).
  { unfold N. rewrite <- Z.pow_add_r by lia.
    replace (n + 52) with (dX - 1) by (unfold n; lia). exact Xlo. }
  assert (H48 : 36 * t <= 2 ^ 54).
  { assert (36 * 2 ^ 48 <= 2 ^ 54) by (vm_compute; congruence). lia. }
  change (2 ^ 52) with (2 ^ 54 / 4) in HNX.
  assert (HP4 : 2 ^ 54 = 4 * (2 ^ 54 / 4)) by (vm_compute; reflexivity).
  set (Q := 2 ^ 54 / 4) in *.
  set (P := 2 ^ 54) in *.
  assert (HQ : 0 < Q) by lia.
  assert (Ht0 : 0 < t) by (unfold t; lia).
  assert (HtP : 35 * t * P <= 100 * k * P) by (apply Z.mul_le_mono_nonneg_r; lia).
  assert (HtP' : (100 * (k - 1) + 5) * P <= 35 * t * P)
    by (apply Z.mul_le_mono_nonneg_r; lia).
  assert (HtM : 100 * (t * M) = 35 * t * P - 40 * t).
  { replace (100 * (t * M)) with (t * (100 * M)) by ring. rewrite HM. ring. }
  assert (Hup : q < k * G).
  { apply Z.mul_lt_mono_pos_r with N; [exact HN |].
    replace (k * G * N) with (k * P * Sc) by (rewrite <- Z.mul_assoc, <- HGN; ring).
    assert (t * M < k * P) by lia.
    assert (t * M * Sc < k * P * Sc) by (apply Z.mul_lt_mono_pos_r; assumption).
    replace (t * Sc * M) with (t * M * Sc) in HX by ring. lia. }
  assert (Hlow : (k - 1) * G < q).
  { assert (HD : 5 * P - 40 * t <= 100 * (t * M - (k - 1) * P)) by lia.
    assert (H1 : 100 * N * Q <= 140 * t * Sc * Q).
    { replace (140 * t * Sc * Q) with (35 * t * P * Sc) by (rewrite HP4; ring).
      assert (100 * (t * M) * Sc <= 35 * t * P * Sc)
        by (apply Z.mul_le_mono_nonneg_r; lia).
      replace (100 * (t * M) * Sc) with (100 * (t * Sc * M)) in * by ring.
      rewrite <- HX in *. lia. }
    assert (H2 : 100 * N <= 140 * t * Sc).
    { apply Z.mul_le_mono_pos_r with Q; [exact HQ | exact H1]. }
    assert (H3 : 140 * t * Sc <= (5 * P - 40 * t) * Sc)
      by (apply Z.mul_le_mono_nonneg_r; lia).
    assert (H4 : (5 * P - 40 * t) * Sc <= 100 * (t * M - (k - 1) * P) * Sc)
      by (apply Z.mul_le_mono_nonneg_r; lia).
    assert (H5 : ((k - 1) * G + 1) * N <= Z.pos X).
    { replace (((k - 1) * G + 1) * N) with ((k - 1) * (G * N) + N) by ring.
      rewrite HGN, HX.
      replace (100 * (t * M - (k - 1) * P) * Sc)
        with (100 * (t * Sc * M - (k - 1) * (P * Sc))) in H4 by ring.
      lia. }
    assert (H6 : ((k - 1) * G + 1) * N < (q + 1) * N) by lia.
    apply Z.mul_lt_mono_pos_r in H6; [lia | exact HN]. }
  assert (Hm1b : (k - 1) * G < m1 <= k * G) by (fold N in Hm1; fold q in Hm1; lia).
  assert (Hkr : 0 <= k < 2 ^ 53).
  { assert (2 ^ 48 < 2 ^ 53) by (apply Z.pow_lt_mono_r; lia). lia. }
  assert (He1 : d - 53 + -54 + n = - g) by (unfold g; lia).
  rewrite He1 in Hres. rewrite Hres in Hmul.
  destruct (Z.ltb_spec m1 (2 ^ 53)) as [Hlt | Hge].
  - assert (0 < m1) by (fold N in Hq; fold q in Hq; lia).
    rewrite (to_int_Ceil_positive _ _ _ Hmul) by
      (rewrite ?Z.opp_involutive; try lia;
       rewrite <- Pos2Z.opp_pos, Z2Pos.id by lia;
       fold G; rewrite (ceil_div_unique m1 G k) by lia; exact Hkr).
    rewrite Z.opp_involutive, <- Pos2Z.opp_pos, Z2Pos.id by lia.
    fold G. apply ceil_div_unique; lia.
  - assert (Em1 : m1 = 2 ^ 53) by (fold N in Hq, Hm1; fold q in Hq, Hm1; lia).
    assert (EG : G = 2 * 2 ^ (g - 1)).
    { unfold G. rewrite <- Z.pow_succ_r by lia. f_equal. lia. }
    assert (HG' : 0 < 2 ^ (g - 1)) by (apply Z.pow_pos_nonneg; lia).
    assert (E53 : 2 ^ 53 = 2 * 2 ^ 52) by (vm_compute; reflexivity).
    assert (Hc : - (- 2 ^ 52 / 2 ^ (g - 1)) = k).
    { apply ceil_div_unique; lia. }
    assert (Hex : - (- g + 1) = g - 1) by lia.
    rewrite (to_int_Ceil_positive _ _ _ Hmul) by
      (try lia; rewrite Hex, <- Pos2Z.opp_pos, Z2Pos.id by lia;
       rewrite Hc; exact Hkr).
    rewrite Hex, <- Pos2Z.opp_pos, Z2Pos.id by lia. exact Hc.
Qed.

(** Above the bound the float64 product can round below the exact value:
    at 2^50 + 19 the float64 ceiling is one less than the exact ceiling. *)
Example dposShare_large :
  Float64.to_int
    (Float64.Ceil (Float64.of_int 1125899906842643 * dposRatio)%float)
  = 394064967394925 /\
  (35 * 1125899906842643 + 99) / 100 = 394064967394926.
Proof. vm_compute. split; reflexivity. Qed.

Lemma len_nonneg {A : Type} (l : list A) : 0 <= len l.
Proof. unfold len. lia. Qed.

Lemma len_zero_nil {A : Type} (l : list A) : len l = 0 -> l = [].
Proof. unfold len. destruct l; simpl; [reflexivity | lia]. Qed.

(** The float64 product and quotient of [majorityOf] never land on the wrong
    side of an integer for a committee of 1 to 256 members: checked value by
    value. *)
Lemma majorityOf_table :
  forallb (fun n => majorityOf n =? n * 2 / 3) (seqZ 1 256) = true.
Proof. vm_compute. reflexivity. Qed.

Lemma majorityOf_floor n : 1 <= n <= 256 -> majorityOf n = n * 2 / 3.
Proof.
  intros Hn.
  pose proof majorityOf_table as Ht.
  rewrite forallb_forall in Ht.
  apply Z.eqb_eq, Ht, list_elem_of_In, elem_of_seqZ. lia.
Qed.

Section Properties.
Context `{H : Host}.

Implicit Types (a : arbitrators) (block : Block).

(** ** Majority *)

(** C5. For a committee of n members, 1 <= n <= 256,
    [GetArbitersMajorityCount] is floor(n * 2 / 3),
    [HasArbitersMajorityCount m] holds exactly when m > floor(n * 2 / 3), and
    [HasArbitersMinorityCount m] exactly when m >= n - floor(n * 2 / 3). *)
Theorem majority_arithmetic a n :
  len (currentArbitrators a) = n -> 1 <= n <= 256 ->
  GetArbitersMajorityCount a = n * 2 / 3 /\
  (forall m, HasArbitersMajorityCount m a = true <-> m > n * 2 / 3) /\
  (forall m, HasArbitersMinorityCount m a = true <-> m >= n - n * 2 / 3).
Proof.
  intros Hlen Hn.
  assert (Hmaj : GetArbitersMajorityCount a = n * 2 / 3).
  { unfold GetArbitersMajorityCount. rewrite Hlen. apply majorityOf_floor, Hn. }
  split; [exact Hmaj | split; intros m].
  - unfold HasArbitersMajorityCount. rewrite Hmaj, Z.ltb_lt. lia.
  - unfold HasArbitersMinorityCount. rewrite Hmaj, Hlen.
    assert (0 <= n * 2 / 3 <= n).
    { split; [apply Z.div_pos; lia | apply Z.div_le_upper_bound; lia]. }
    rewrite int64_small by lia. rewrite Z.leb_le. lia.
Qed.

(** ** Rotation schedule *)

(** The subtraction of the schedule is Go's [uint32] subtraction; it is the
    plain difference when the offset does not exceed the height. *)
Lemma preconnect_height_plain (h off : Z) :
  0 <= off <= h -> h < 2 ^ 32 -> Int.uint32 (h - off) = h - off.
Proof. intros Ho Hh. apply uint32_small. lia. Qed.

(** C2. [getChangeType] resolves a height against the schedule, the first
    matching line winning: updateNext at version H1 at H1 - PreConnectOffset;
    normalChange at version H1 at H1; updateNext at version H2 at
    H2 - PreConnectOffset; normalChange at version H2 at H2; otherwise
    normalChange when the height is above H2 and dutyIndex is the number of
    current arbitrators minus one; none in every remaining case. The
    differences are taken in uint32, as the code takes them. *)
Theorem change_type_schedule a height :
  let p := chainParams a in
  let H1 := CRCOnlyDPOSHeight p in
  let H2 := PublicDPOSHeight p in
  let pre1 := Int.uint32 (H1 - PreConnectOffset p) in
  let pre2 := Int.uint32 (H2 - PreConnectOffset p) in
  (height = pre1 -> getChangeType height a = (updateNext, H1)) /\
  (height <> pre1 -> height = H1 ->
   getChangeType height a = (normalChange, H1)) /\
  (height <> pre1 -> height <> H1 -> height = pre2 ->
   getChangeType height a = (updateNext, H2)) /\
  (height <> pre1 -> height <> H1 -> height <> pre2 -> height = H2 ->
   getChangeType height a = (normalChange, H2)) /\
  (height <> pre1 -> height <> H1 -> height <> pre2 -> height <> H2 ->
   height > H2 -> dutyIndex a = len (currentArbitrators a) - 1 ->
   getChangeType height a = (normalChange, height)) /\
  (height <> pre1 -> height <> H1 -> height <> pre2 -> height <> H2 ->
   ~ (height > H2 /\ dutyIndex a = len (currentArbitrators a) - 1) ->
   getChangeType height a = (none, height)).
Proof.
  intros p H1 H2 pre1 pre2.
  unfold getChangeType. fold p. fold H1. fold H2. fold pre1. fold pre2.
  repeat split; intros;
    repeat match goal with
    | Heq : height = _ |- _ => rewrite <- Heq; clear Heq
    end;
    repeat match goal with
    | |- context [?x =? ?y] => destruct (Z.eqb_spec x y); try lia
    | |- context [?x <? ?y] => destruct (Z.ltb_spec x y); try lia
    end; simpl; try reflexivity; try lia; try congruence.
Qed.

(** ** Duty lookup *)

(** C7. At a height at or above H1, with a non-empty committee, the on-duty
    lookup returns the member at index (dutyIndex + offset) mod the size of
    the committee. [dutyIndex] is a rotation pointer, not negative, and the
    sum stays an [int]. *)
Theorem on_duty_lookup a height offset :
  CRCOnlyDPOSHeight (chainParams a) <= height ->
  currentArbitrators a <> [] ->
  0 <= dutyIndex a -> 0 <= offset ->
  dutyIndex a + offset <= Int.max_int64 ->
  exists arbiter,
    currentArbitrators a
      !! Z.to_nat ((dutyIndex a + offset) mod len (currentArbitrators a))
    = Some arbiter /\
    GetNextOnDutyArbitratorV height offset a = Returns (Some arbiter).
Proof.
  intros Hh Hne Hd Ho Hsum.
  unfold GetNextOnDutyArbitratorV.
  destruct (Z.leb_spec (CRCOnlyDPOSHeight (chainParams a)) height) as [_ | ?];
    [| lia].
  assert (Hpos : 0 < len (currentArbitrators a)).
  { pose proof (len_nonneg (currentArbitrators a)).
    destruct (Z.eq_dec (len (currentArbitrators a)) 0) as [E | E]; [| lia].
    apply len_zero_nil in E. contradiction. }
  destruct (Z.eqb_spec (len (currentArbitrators a)) 0) as [? | _]; [lia |].
  rewrite int64_small by (unfold Int.max_int64 in Hsum; lia).
  unfold Int.rem. rewrite Z.rem_mod_nonneg by lia.
  pose proof (Z.mod_pos_bound (dutyIndex a + offset)
                (len (currentArbitrators a)) Hpos) as Hm.
  destruct (Z.ltb_spec ((dutyIndex a + offset) mod len (currentArbitrators a)) 0);
    [lia |].
  destruct (lookup_lt_is_Some_2 (currentArbitrators a)
              (Z.to_nat ((dutyIndex a + offset) mod len (currentArbitrators a))))
    as [arbiter Harb].
  { unfold len in *. lia. }
  exists arbiter. rewrite Harb. split; reflexivity.
Qed.

(** ** What an operation leaves alone *)

Section Frame.
Context {T : Type} (proj : arbitrators -> T).

Lemma preserves_ret {A : Type} (x : A) : preserves proj (ret x).
Proof. intros a. reflexivity. Qed.

Lemma preserves_fail {A : Type} (e : error) : preserves proj (@fail _ A e).
Proof. intros a. reflexivity. Qed.

Lemma preserves_get : preserves proj get.
Proof. intros a. reflexivity. Qed.

Lemma preserves_lift {A : Type} (r : result A) : preserves proj (lift r).
Proof. intros a. reflexivity. Qed.

Lemma preserves_modify f :
  (forall a, proj (f a) = proj a) -> preserves proj (modify f).
Proof. intros Hf a. apply Hf. Qed.

Lemma preserves_bind {A B : Type} (m : M A) (k : A -> M B) :
  preserves proj m -> (forall x, preserves proj (k x)) ->
  preserves proj (bind m k).
Proof.
  intros Hm Hk a. unfold bind.
  specialize (Hm a). destruct (m a) as [[x | e] a1]; simpl in *.
  - rewrite Hk. exact Hm.
  - exact Hm.
Qed.

End Frame.

Ltac frame_step :=
  first
    [ apply preserves_ret | apply preserves_fail | apply preserves_get
    | apply preserves_lift
    | apply preserves_bind; [| intros ?]
    | apply preserves_modify; intros ?; reflexivity ].

Lemma preserves_snapshotVotes keys : preserves kept (snapshotVotes keys).
Proof.
  induction keys as [| pk rest IH]; simpl.
  - apply preserves_ret.
  - apply preserves_bind; [apply preserves_get | intros a0].
    destruct (IsCRCArbitrator pk a0); [exact IH |].
    destruct (GetProducer pk (State_ a0)); [| apply preserves_fail].
    repeat frame_step. exact IH.
Qed.

Lemma preserves_appendNextOwnerHashes keys :
  preserves kept (appendNextOwnerHashes keys).
Proof.
  induction keys as [| pk rest IH]; simpl.
  - apply preserves_ret.
  - apply preserves_bind; [apply preserves_get | intros a0].
    apply preserves_bind; [| intros programHash].
    + destruct (IsCRCArbitrator pk a0); [apply preserves_lift |].
      destruct (GetProducer pk (State_ a0));
        [apply preserves_lift | apply preserves_fail].
    + repeat frame_step. exact IH.
Qed.

Lemma preserves_appendNextCandidateOwnerHashes keys :
  preserves kept (appendNextCandidateOwnerHashes keys).
Proof.
  induction keys as [| pk rest IH]; simpl.
  - apply preserves_ret.
  - apply preserves_bind; [apply preserves_get | intros a0].
    destruct (IsCRCArbitrator pk a0); [exact IH |].
    destruct (GetProducer pk (State_ a0)); [| apply preserves_fail].
    repeat frame_step. exact IH.
Qed.

Lemma preserves_updateNextArbitrators height :
  preserves kept (updateNextArbitrators height).
Proof.
  unfold updateNextArbitrators.
  apply preserves_bind; [| intros _].
  { apply preserves_modify. intros a.
    destruct (InactiveModeSwitch _ _ _) as [[? recover] d]. reflexivity. }
  apply preserves_bind; [frame_step | intros _].
  apply preserves_bind; [apply preserves_get | intros a0].
  apply preserves_bind; [| intros _].
  { destruct (_ && _); [| frame_step].
    destruct (GetNormalArbitratorsDesc _ _ _ _) as [producers | err].
    - repeat frame_step.
    - apply preserves_bind; [| intros _; frame_step].
      unfold tryHandleError. case_bool_decide; frame_step. }
  apply preserves_bind; [| intros _].
  - unfold snapshotVotesStates.
    repeat (apply preserves_bind; [| intros ?]);
      try apply preserves_snapshotVotes; frame_step.
  - unfold updateNextOwnerProgramHashes.
    repeat (apply preserves_bind; [| intros ?]);
      try apply preserves_appendNextOwnerHashes;
      try apply preserves_appendNextCandidateOwnerHashes; frame_step.
Qed.

Lemma updateNextArbitrators_dutyIndex height a :
  dutyIndex (updateNextArbitrators height a).2 = dutyIndex a.
Proof.
  pose proof (preserves_updateNextArbitrators height a) as Hk.
  unfold kept in Hk. congruence.
Qed.

Lemma changeCurrentArbitrators_spec a :
  (changeCurrentArbitrators a).1 = Ok tt /\
  dutyIndex (changeCurrentArbitrators a).2 = 0.
Proof. split; reflexivity. Qed.

(** ** Processing a block *)

(** A block whose change type is none is processed without a panic; the
    result is spelled out. *)
Lemma IncreaseChainHeight_none a block :
  (getChangeType (Int.uint32 (Height block + 1)) a).1 = none ->
  IncreaseChainHeight block a =
  Returns
    (set_illegalBlocksPayloadHashes ∅
       (set_dutyIndex (Int.int64 (dutyIndex (accumulateReward block a) + 1))
          (accumulateReward block a))).
Proof.
  intros Hn. unfold IncreaseChainHeight.
  destruct (getChangeType _ a) as [changeType versionHeight].
  simpl in Hn. subst changeType. reflexivity.
Qed.

Lemma accumulateReward_dutyIndex a block :
  dutyIndex (accumulateReward block a) = dutyIndex a.
Proof. unfold accumulateReward. destruct (_ <=? _); reflexivity. Qed.

(** C6. Processing a block whose change type is none adds exactly 1 to
    [dutyIndex] (short of the largest [int]); after a normal change, whether
    in [changeCurrentArbitrators] itself, in a processed block that resolves
    to normalChange, or in a forced change, [dutyIndex] is 0. *)
Theorem duty_monotonicity a block :
  ((getChangeType (Int.uint32 (Height block + 1)) a).1 = none ->
   Int.min_int64 <= dutyIndex a < Int.max_int64 ->
   exists a', IncreaseChainHeight block a = Returns a' /\
              dutyIndex a' = dutyIndex a + 1) /\
  ((changeCurrentArbitrators a).1 = Ok tt /\
   dutyIndex (changeCurrentArbitrators a).2 = 0) /\
  (forall a',
     (getChangeType (Int.uint32 (Height block + 1)) a).1 = normalChange ->
     IncreaseChainHeight block a = Returns a' -> dutyIndex a' = 0) /\
  (forall height a',
     ForceChange height a = (Ok tt, a') -> dutyIndex a' = 0).
Proof.
  split; [| split; [| split]].
  - intros Hn Hd. eexists. split; [apply IncreaseChainHeight_none, Hn |].
    simpl. rewrite accumulateReward_dutyIndex.
    apply int64_small. unfold Int.min_int64, Int.max_int64 in Hd. lia.
  - apply changeCurrentArbitrators_spec.
  - intros a' Hc. unfold IncreaseChainHeight.
    destruct (getChangeType _ a) as [changeType versionHeight].
    simpl in Hc. subst changeType.
    unfold bind, NormalChange, bind.
    destruct (clearingDPOSReward block true a) as [[[] | e] a1];
      [| discriminate].
    simpl.
    pose proof (updateNextArbitrators_dutyIndex
                  (Int.uint32 (Height block + 1))
                  (changeCurrentArbitrators a1).2) as Hu.
    simpl in Hu. unfold changeCurrentArbitrators, modify in *. simpl in *.
    destruct (updateNextArbitrators _ _) as [[[] | e] a2]; [| discriminate].
    intros [= <-]. simpl in *. exact Hu.
  - intros height a'. unfold ForceChange, bind.
    destruct (bestBlock a) as [blk | e]; [| discriminate].
    destruct (clearingDPOSReward blk false a) as [[[] | e] a1];
      [| discriminate].
    destruct (updateNextArbitrators _ a1) as [[[] | e] a2]; [| discriminate].
    intros [= <-]. reflexivity.
Qed.

(** C10. Processing a block above [PublicDPOSHeight] whose change type is
    none resets the settled ledger. Before the block [GetArbitersRoundReward]
    and [GetFinalRoundChange] show the stored ledger and residual, which
    after a settlement are the ledger and the residual it wrote; after the
    block [GetArbitersRoundReward] is nil and [GetFinalRoundChange] is 0. *)
Theorem accumulate_resets_ledger a block :
  (getChangeType (Int.uint32 (Height block + 1)) a).1 = none ->
  PublicDPOSHeight (chainParams a) < Height block ->
  GetArbitersRoundReward a = arbitersRoundReward a /\
  GetFinalRoundChange a = finalRoundChange a /\
  exists a', IncreaseChainHeight block a = Returns a' /\
             GetArbitersRoundReward a' = None /\
             GetFinalRoundChange a' = 0.
Proof.
  intros Hn Hh. split; [reflexivity | split; [reflexivity |]].
  eexists. split; [apply IncreaseChainHeight_none, Hn |].
  unfold GetArbitersRoundReward, GetFinalRoundChange, accumulateReward.
  destruct (Z.leb_spec (Height block) (PublicDPOSHeight (chainParams a)));
    [lia |].
  split; reflexivity.
Qed.

(** The fees of a block add up without wrap-around when none is negative and
    their sum stays in the range of [int64]. *)
Lemma sumFees_plain txs :
  Forall (fun tx => 0 <= Fee tx) txs ->
  foldr (fun tx s => Fee tx + s) 0 txs <= Int.max_int64 ->
  sumFees txs = foldr (fun tx s => Fee tx + s) 0 txs.
Proof.
  unfold sumFees.
  assert (Hgen : forall acc, 0 <= acc ->
            Forall (fun tx => 0 <= Fee tx) txs ->
            acc + foldr (fun tx s => Fee tx + s) 0 txs <= Int.max_int64 ->
            fold_left (fun totalTxFx tx => Int.int64 (totalTxFx + Fee tx)) txs acc
            = acc + foldr (fun tx s => Fee tx + s) 0 txs).
  { induction txs as [| tx rest IH]; intros acc Hacc Hall Hsum; simpl in *.
    - lia.
    - inversion Hall as [| ? ? Hfee Hrest]; subst.
      assert (0 <= foldr (fun tx s => Fee tx + s) 0 rest).
      { clear -Hrest. induction Hrest; simpl; lia. }
      unfold Int.max_int64 in *.
      rewrite int64_small by lia.
      rewrite IH by (try assumption; lia). lia. }
  intros Hall Hsum. rewrite Hgen by (try assumption; lia). lia.
Qed.

(** What a smooth clearing that succeeds leaves in [accumulativeReward]. *)
Lemma clearingDPOSReward_accumulativeReward block a a1 :
  clearingDPOSReward block true a = (Ok tt, a1) ->
  accumulativeReward a1
  = if Height block =? clearingHeight a then accumulativeReward a
    else if Int.uint32 (Height block + 1) <=? PublicDPOSHeight (chainParams a)
         then getBlockDPOSReward block a
         else 0.
Proof.
  unfold clearingDPOSReward.
  destruct (Height block =? clearingHeight a); [intros [= <-]; reflexivity |].
  destruct (Int.uint32 (Height block + 1) <=? PublicDPOSHeight (chainParams a));
    [intros [= <-]; reflexivity |].
  unfold bind, modify.
  destruct (distributeDPOSReward _ _) as [[[] | e] a2]; [| discriminate].
  intros [= <-]. reflexivity.
Qed.

(** C8, as the code has it. What processing a block does to
    [accumulativeReward] is decided by the change type of the block.
    None: above [PublicDPOSHeight] the share of the block is added, the
    float64 ceiling of (fees + RewardPerBlock) * 0.35, in [int64] arithmetic;
    that share is exactly ceil((fees + RewardPerBlock) * 35 / 100) while the
    total is below 2^48; at or below [PublicDPOSHeight] the pending reward is
    left as it was. updateNext: it is left as it was, at any height. So at
    or below [PublicDPOSHeight] every block that is processed and does not
    resolve to normalChange leaves it unchanged. normalChange: the settlement
    replaces it; it stays as it was when the block has been cleared already,
    it becomes the share of the block when the next height is at most
    [PublicDPOSHeight], and 0 otherwise. *)
Theorem accumulate_reward a block :
  let total := sumFees (Transactions block) + RewardPerBlock (chainParams a) in
  let changeType := (getChangeType (Int.uint32 (Height block + 1)) a).1 in
  (changeType = none ->
   exists a', IncreaseChainHeight block a = Returns a' /\
     (PublicDPOSHeight (chainParams a) < Height block ->
      accumulativeReward a' =
      Int.int64 (accumulativeReward a + getBlockDPOSReward block a)) /\
     (PublicDPOSHeight (chainParams a) < Height block ->
      0 <= total < 2 ^ 48 ->
      Int.min_int64 <= accumulativeReward a ->
      accumulativeReward a + (35 * total + 99) / 100 <= Int.max_int64 ->
      accumulativeReward a' = accumulativeReward a + (35 * total + 99) / 100) /\
     (Height block <= PublicDPOSHeight (chainParams a) ->
      accumulativeReward a' = accumulativeReward a)) /\
  (forall a',
     changeType <> normalChange ->
     Height block <= PublicDPOSHeight (chainParams a) ->
     IncreaseChainHeight block a = Returns a' ->
     accumulativeReward a' = accumulativeReward a) /\
  (forall a',
     changeType = updateNext ->
     IncreaseChainHeight block a = Returns a' ->
     accumulativeReward a' = accumulativeReward a) /\
  (forall a',
     changeType = normalChange ->
     IncreaseChainHeight block a = Returns a' ->
     accumulativeReward a'
     = if Height block =? clearingHeight a then accumulativeReward a
       else if Int.uint32 (Height block + 1) <=? PublicDPOSHeight (chainParams a)
            then getBlockDPOSReward block a
            else 0).
Proof.
  intros total changeType.
  assert (Hnone : changeType = none ->
            exists a', IncreaseChainHeight block a = Returns a' /\
              (PublicDPOSHeight (chainParams a) < Height block ->
               accumulativeReward a' =
               Int.int64 (accumulativeReward a + getBlockDPOSReward block a)) /\
              (PublicDPOSHeight (chainParams a) < Height block ->
               0 <= total < 2 ^ 48 ->
               Int.min_int64 <= accumulativeReward a ->
               accumulativeReward a + (35 * total + 99) / 100 <= Int.max_int64 ->
               accumulativeReward a'
               = accumulativeReward a + (35 * total + 99) / 100) /\
              (Height block <= PublicDPOSHeight (chainParams a) ->
               accumulativeReward a' = accumulativeReward a)).
  { intros Hn. eexists. split; [apply IncreaseChainHeight_none, Hn |].
    unfold accumulateReward.
    destruct (Z.leb_spec (Height block) (PublicDPOSHeight (chainParams a)));
      (split; [| split]); intros; try lia; try reflexivity.
    cbn [accumulativeReward set_illegalBlocksPayloadHashes set_dutyIndex
         set_finalRoundChange set_arbitersRoundReward set_accumulativeReward].
    assert (Hshare : getBlockDPOSReward block a = (35 * total + 99) / 100).
    { unfold getBlockDPOSReward. fold total.
      assert (2 ^ 48 < 2 ^ 63) by (apply Z.pow_lt_mono_r; lia).
      rewrite (int64_small total) by lia.
      apply dposShare_exact. assumption. }
    rewrite Hshare.
    assert (0 <= (35 * total + 99) / 100) by (apply Z.div_pos; lia).
    apply int64_small. unfold Int.min_int64, Int.max_int64 in *. lia. }
  assert (Hupdate : forall a',
            changeType = updateNext ->
            IncreaseChainHeight block a = Returns a' ->
            accumulativeReward a' = accumulativeReward a).
  { intros a' Hc. subst changeType. unfold IncreaseChainHeight.
    destruct (getChangeType _ a) as [ct versionHeight].
    simpl in Hc. subst ct.
    pose proof (preserves_updateNextArbitrators versionHeight a) as Hk.
    destruct (updateNextArbitrators versionHeight a) as [[[] | e] a1];
      [| discriminate].
    intros [= <-]. unfold kept in Hk. cbn in *. congruence. }
  split; [exact Hnone | split; [| split; [exact Hupdate |]]].
  - intros a' Hc Hh Hr.
    destruct changeType eqn:Ect; [| apply Hupdate; [reflexivity | exact Hr]
                                   | contradiction].
    destruct (Hnone eq_refl) as (a1 & Hr1 & _ & _ & Hbelow).
    rewrite Hr1 in Hr. injection Hr as <-. apply Hbelow, Hh.
  - intros a' Hc. subst changeType. unfold IncreaseChainHeight.
    destruct (getChangeType _ a) as [ct versionHeight].
    simpl in Hc. subst ct.
    unfold bind at 1.
    pose proof (clearingDPOSReward_accumulativeReward block a) as Hclr.
    destruct (clearingDPOSReward block true a) as [[[] | e] a1];
      [| discriminate].
    specialize (Hclr a1 eq_refl). rewrite <- Hclr.
    unfold NormalChange, bind.
    pose proof (preserves_updateNextArbitrators
                  (Int.uint32 (Height block + 1))
                  (changeCurrentArbitrators a1).2) as Hk.
    unfold changeCurrentArbitrators, modify in *. cbn [fst snd] in *.
    destruct (updateNextArbitrators _ _) as [[[] | e] a2]; [| discriminate].
    intros [= <-]. unfold kept in Hk. cbn in *. congruence.
Qed.

(** ** Special payloads *)

Lemma preserves_payArbiters {T : Type} (proj : arbitrators -> T)
    confirm perVote ownerHashes :
  (forall k v a, proj (roundReward_put k v a) = proj a) ->
  forall real a,
    proj (payArbiters confirm perVote ownerHashes real a).2 = proj a.
Proof.
  intros Hput.
  induction ownerHashes as [| ownerHash rest IH]; intros real a; simpl.
  - reflexivity.
  - case_bool_decide; rewrite IH, Hput; reflexivity.
Qed.

Lemma preserves_payCandidates {T : Type} (proj : arbitrators -> T)
    perVote ownerHashes :
  (forall k v a, proj (roundReward_put k v a) = proj a) ->
  forall real a,
    proj (payCandidates perVote ownerHashes real a).2 = proj a.
Proof.
  intros Hput.
  induction ownerHashes as [| ownerHash rest IH]; intros real a; simpl.
  - reflexivity.
  - rewrite IH, Hput. reflexivity.
Qed.

(** A settlement writes the ledger, the residual, the pending reward and the
    clearing height; a projection that reads none of them is kept. *)
Lemma preserves_clearingDPOSReward {T : Type} (proj : arbitrators -> T)
    block smooth :
  (forall v a, proj (set_arbitersRoundReward v a) = proj a) ->
  (forall v a, proj (set_finalRoundChange v a) = proj a) ->
  (forall v a, proj (set_accumulativeReward v a) = proj a) ->
  (forall v a, proj (set_clearingHeight v a) = proj a) ->
  preserves proj (clearingDPOSReward block smooth).
Proof.
  intros Hr Hf Hacc Hc.
  assert (Hput : forall k v a, proj (roundReward_put k v a) = proj a).
  { intros. unfold roundReward_put. apply Hr. }
  assert (Hdist : forall reward, preserves proj (distributeDPOSReward reward)).
  { intros reward. unfold distributeDPOSReward.
    apply preserves_bind; [apply preserves_modify; intros; apply Hr | intros _].
    apply preserves_bind; [apply preserves_modify; intros; apply Hput | intros _].
    apply preserves_bind.
    - intros a. unfold distributeWithNormalArbitrators.
      destruct (len _ =? 0); [reflexivity |].
      destruct (totalVotesInRound a =? 0); [apply Hput |].
      destruct (payArbiters _ _ _ _ _) as [real1 a1] eqn:E1.
      destruct (payCandidates _ _ _ _) as [real2 a2] eqn:E2.
      simpl.
      change a2 with (real2, a2).2. rewrite <- E2.
      rewrite preserves_payCandidates by exact Hput.
      change a1 with (real1, a1).2. rewrite <- E1.
      apply preserves_payArbiters. exact Hput.
    - intros real. destruct (_ <? 0); [apply preserves_fail |].
      apply preserves_modify. intros; apply Hf. }
  intros a. unfold clearingDPOSReward.
  destruct (_ =? _); [reflexivity |].
  destruct (_ <=? _); [apply Hacc |].
  destruct smooth.
  - rewrite preserves_bind.
    + apply Hacc.
    + apply Hdist.
    + intros _. apply preserves_bind; [| intros _];
        apply preserves_modify; intros; [apply Hacc | apply Hc].
  - rewrite preserves_bind.
    + reflexivity.
    + apply Hdist.
    + intros _. apply preserves_bind; [| intros _];
        apply preserves_modify; intros; [apply Hacc | apply Hc].
Qed.

Lemma ForceChange_illegalBlocksPayloadHashes height a :
  illegalBlocksPayloadHashes (ForceChange height a).2
  = illegalBlocksPayloadHashes a.
Proof.
  revert a. change (preserves illegalBlocksPayloadHashes (ForceChange height)).
  unfold ForceChange.
  apply preserves_bind; [intros a; reflexivity | intros blk].
  apply preserves_bind; [| intros _].
  { apply preserves_clearingDPOSReward; reflexivity. }
  apply preserves_bind; [| intros _].
  - intros a.
    pose proof (preserves_updateNextArbitrators (Int.uint32 (height + 1)) a) as Hk.
    unfold kept in Hk. congruence.
  - apply preserves_modify. reflexivity.
Qed.

(** C3, as the code has it. A [DPOSIllegalBlocks] payload has its hash
    recorded as expected in the next block, is handed to the producer
    registry, and then a committee change is forced at the given height; the
    hash stays recorded. An [InactiveArbitrators] payload goes to the
    degradation controller and not to the expected-hash table; the change is
    forced only when the payload is new, a duplicate returns nil. Every other
    payload, [DPOSIllegalProposals] included, gets the invalid-payload error
    and the state is not modified. *)
Theorem special_payload_dispatch a p height :
  match p with
  | DPOSIllegalBlocks hash =>
      let a1 := set_illegalBlocksPayloadHashes
                  (<[hash := tt]> (illegalBlocksPayloadHashes a)) a in
      let a2 := set_State_
                  (State_ProcessSpecialTxPayload p height
                     (currentArbitrators a1) (State_ a1)) a1 in
      ProcessSpecialTxPayload p height a = ForceChange height a2 /\
      illegalBlocksPayloadHashes (ProcessSpecialTxPayload p height a).2 !! hash
      = Some tt
  | InactiveArbitrators hash =>
      let added := (AddInactivePayload hash (degradation_ a)).1 in
      let a1 := set_degradation_ (AddInactivePayload hash (degradation_ a)).2 a in
      let a2 := set_State_
                  (State_ProcessSpecialTxPayload p height
                     (currentArbitrators a1) (State_ a1)) a1 in
      ProcessSpecialTxPayload p height a =
        (if added then ForceChange height a2 else (Ok tt, a1)) /\
      illegalBlocksPayloadHashes (ProcessSpecialTxPayload p height a).2
      = illegalBlocksPayloadHashes a
  | _ => ProcessSpecialTxPayload p height a = (Err ErrInvalidPayloadType, a)
  end.
Proof.
  destruct p as [hash | hash | hash |]; try reflexivity.
  - cbn zeta.
    assert (E : ProcessSpecialTxPayload (DPOSIllegalBlocks hash) height a =
                ForceChange height
                  (set_State_
                     (State_ProcessSpecialTxPayload (DPOSIllegalBlocks hash)
                        height (currentArbitrators a) (State_ a))
                     (set_illegalBlocksPayloadHashes
                        (<[hash := tt]> (illegalBlocksPayloadHashes a)) a))).
    { reflexivity. }
    split; [exact E |].
    rewrite E, ForceChange_illegalBlocksPayloadHashes. simpl.
    apply lookup_insert_eq.
  - cbn zeta.
    assert (E : ProcessSpecialTxPayload (InactiveArbitrators hash) height a =
                if (AddInactivePayload hash (degradation_ a)).1
                then ForceChange height
                       (set_State_
                          (State_ProcessSpecialTxPayload
                             (InactiveArbitrators hash) height
                             (currentArbitrators a) (State_ a))
                          (set_degradation_
                             (AddInactivePayload hash (degradation_ a)).2 a))
                else (Ok tt,
                      set_degradation_
                        (AddInactivePayload hash (degradation_ a)).2 a)).
    { unfold ProcessSpecialTxPayload, bind, get, modify.
      destruct (AddInactivePayload hash (degradation_ a)) as [[|] d];
        reflexivity. }
    split; [exact E |].
    rewrite E.
    destruct (AddInactivePayload hash (degradation_ a)).1.
    + rewrite ForceChange_illegalBlocksPayloadHashes. reflexivity.
    + reflexivity.
Qed.

(** ** Illegal evidence *)

Lemma markFound_spec txs :
  wellFormedTxs txs ->
  forall foundMap : gmap Uint256 bool,
  exists m : gmap Uint256 bool,
    markFound txs foundMap = Returns m /\
    forall k, m !! k =
              if decide (k ∈ illegalBlockTxHashes txs) then Some true
              else foundMap !! k.
Proof.
  induction 1 as [| tx rest Htx _ IH]; intros foundMap; simpl.
  - exists foundMap. split; [reflexivity |]. intros k.
    destruct (decide (k ∈ [])) as [Hin | _]; [inversion Hin | reflexivity].
  - destruct (IsIllegalBlockTx tx) eqn:Eill.
    + destruct (Htx eq_refl) as [h Hp]. rewrite Hp.
      destruct (IH (<[h := true]> foundMap)) as (m & Hm & Hk).
      exists m. split; [exact Hm |]. intros k. rewrite Hk.
      destruct (decide (k ∈ illegalBlockTxHashes rest)) as [Hin | Hnin].
      * rewrite decide_True by (right; exact Hin). reflexivity.
      * destruct (decide (k = h)) as [-> | Hne].
        -- rewrite decide_True by left. apply lookup_insert_eq.
        -- rewrite decide_False.
           ++ apply lookup_insert_ne. congruence.
           ++ intros Hin. apply elem_of_cons in Hin as [? | ?]; contradiction.
    + apply IH.
Qed.

(** C4. With an empty pending table [CheckDPOSIllegalTx] returns nil for
    every block. For a block whose illegal-block transactions carry
    illegal-block payloads it returns an error exactly when the pending table
    is not empty and one of its hashes is not among the payload hashes of the
    illegal-block transactions of the block. *)
Theorem check_illegal_tx a block :
  (illegalBlocksPayloadHashes a = ∅ ->
   CheckDPOSIllegalTx block a = Returns None) /\
  (wellFormedTxs (Transactions block) ->
   exists r,
     CheckDPOSIllegalTx block a = Returns r /\
     (r = None \/ r = Some ErrExpectIllegalBlocksTx) /\
     (r <> None <->
      illegalBlocksPayloadHashes a <> ∅ /\
      exists h, is_Some (illegalBlocksPayloadHashes a !! h) /\
                h ∉ illegalBlockTxHashes (Transactions block))).
Proof.
  split.
  { intros Hempty. unfold CheckDPOSIllegalTx. rewrite Hempty.
    rewrite bool_decide_eq_true_2 by apply map_size_empty. reflexivity. }
  intros Hwf. unfold CheckDPOSIllegalTx.
  case_bool_decide as Hsize.
  - apply map_size_empty_iff in Hsize.
    exists None. split; [reflexivity |]. split; [left; reflexivity |].
    split; [congruence | intros [Hne _]; contradiction].
  - assert (Hne : illegalBlocksPayloadHashes a <> ∅).
    { intros E. apply Hsize. rewrite E. apply map_size_empty. }
    destruct (markFound_spec _ Hwf
                ((fun _ => false) <$> illegalBlocksPayloadHashes a))
      as (m & -> & Hk).
    case_bool_decide as Hall.
    + exists None. split; [reflexivity |]. split; [left; reflexivity |].
      split; [congruence |]. intros [_ (h & [u Hh] & Hnin)].
      specialize (Hall h false). rewrite Hk, decide_False in Hall by exact Hnin.
      rewrite lookup_fmap, Hh in Hall. simpl in Hall.
      specialize (Hall eq_refl). discriminate.
    + exists (Some ErrExpectIllegalBlocksTx). split; [reflexivity |].
      split; [right; reflexivity |].
      split; [| discriminate]. intros _. split; [exact Hne |].
      apply map_not_Forall in Hall; [| intros ? ?; solve_decision].
      destruct Hall as (h & found & Hlk & Hf).
      rewrite Hk in Hlk.
      destruct (decide (h ∈ illegalBlockTxHashes (Transactions block)))
        as [Hin | Hnin].
      * injection Hlk as <-. contradiction.
      * exists h. split; [| exact Hnin].
        rewrite lookup_fmap in Hlk.
        destruct (illegalBlocksPayloadHashes a !! h); [eauto | discriminate].
Qed.

(** ** Reward settlement *)

(** With no votes in the round the whole reward is written to the CRC
    address, and [distributeWithNormalArbitrators] reports that nothing was
    paid, so the same amount is also left as the residual. *)
Lemma distribute_zero_votes a reward :
  currentOwnerProgramHashes a <> [] ->
  totalVotesInRound a = 0 ->
  0 <= reward <= Int.max_int64 ->
  exists a',
    distributeDPOSReward reward a = (Ok tt, a') /\
    arbitersRoundReward a' = Some {[ CRCAddress (chainParams a) := reward ]} /\
    finalRoundChange a' = reward.
Proof.
  intros Hne Hv Hr.
  unfold distributeDPOSReward, bind, modify, distributeWithNormalArbitrators.
  cbn [fst snd currentOwnerProgramHashes set_arbitersRoundReward
       roundReward_put totalVotesInRound chainParams].
  destruct (Z.eqb_spec (len (currentOwnerProgramHashes a)) 0) as [E | _].
  { apply len_zero_nil in E. contradiction. }
  rewrite Hv. cbn [Z.eqb].
  rewrite Z.sub_0_r, int64_small by (unfold Int.max_int64 in Hr; lia).
  destruct (Z.ltb_spec reward 0); [lia |].
  eexists. split; [reflexivity |]. split; [| reflexivity].
  cbn. unfold roundReward. cbn.
  rewrite insert_insert_eq, insert_empty. reflexivity.
Qed.

Lemma zero_votes_settlement_counts_twice a reward :
  currentOwnerProgramHashes a <> [] ->
  totalVotesInRound a = 0 ->
  0 <= reward <= Int.max_int64 ->
  exists a',
    distributeDPOSReward reward a = (Ok tt, a') /\
    sumRoundReward (roundReward a') + finalRoundChange a' = 2 * reward.
Proof.
  intros Hne Hv Hr.
  destruct (distribute_zero_votes a reward Hne Hv Hr) as (a' & Hd & Hm & Hf).
  exists a'. split; [exact Hd |].
  unfold roundReward. rewrite Hm, Hf. cbn [default].
  unfold sumRoundReward, id. rewrite map_fold_singleton. lia.
Qed.

(** *** The branch with votes

    The two loops add to [realDPOSReward] every amount they write to the
    ledger, so the ledger and the residual add up to the reward. *)

Lemma sumRoundReward_insert (m : gmap Uint168 Fixed64) k v :
  sumRoundReward (<[k := v]> m) = v + sumRoundReward m - default 0 (m !! k).
Proof.
  unfold sumRoundReward.
  destruct (m !! k) as [old |] eqn:Hk; cbn [default].
  - rewrite <- insert_delete_eq.
    rewrite map_fold_insert_L; [| intros; lia | apply lookup_delete_eq].
    rewrite (map_fold_delete_L _ _ k old m); [unfold id; lia | intros; lia | exact Hk].
  - rewrite map_fold_insert_L; [lia | intros; lia | exact Hk].
Qed.

Lemma int64_eqm x : exists k, Int.int64 x = x + k * 2 ^ 64.
Proof.
  exists (- ((x + 2 ^ 63) / 2 ^ 64)). unfold Int.int64.
  pose proof (Z.div_mod (x + 2 ^ 63) (2 ^ 64) ltac:(lia)). lia.
Qed.

Lemma payArbiters_ledger confirm perVote crcSet crc owners : forall real a,
  let keys := filter (fun h => crcSet !! h = None) owners in
  crcArbitratorsProgramHashes a = crcSet ->
  CRCAddress (chainParams a) = crc ->
  NoDup keys -> crc ∉ keys ->
  (forall h, h ∈ keys -> roundReward a !! h = None) ->
  exists k,
    sumRoundReward (roundReward (payArbiters confirm perVote owners real a).2)
    - (payArbiters confirm perVote owners real a).1
    = sumRoundReward (roundReward a) - real + k * 2 ^ 64 /\
    forall h, h <> crc -> h ∉ keys ->
      roundReward (payArbiters confirm perVote owners real a).2 !! h
      = roundReward a !! h.
Proof.
  induction owners as [| ownerHash rest IH];
    intros real a keys Hset Haddr Hnd Hcrc Hfree.
  - exists 0. simpl. split; [lia | reflexivity].
  - cbn [payArbiters]. rewrite Hset, Haddr. case_bool_decide as Hin.
    + (* a CRC arbiter *)
      assert (Hkeys : keys = filter (fun h => crcSet !! h = None) rest).
      { unfold keys. apply filter_cons_False. destruct Hin as [u Hu]. congruence. }
      set (v := Int.int64 (roundReward_get crc a + confirm)).
      set (a1 := roundReward_put crc v a).
      destruct (IH (Int.int64 (real + confirm)) a1) as (k & Hsum & Hframe);
        try reflexivity || assumption.
      { rewrite <- Hkeys. exact Hnd. }
      { rewrite <- Hkeys. exact Hcrc. }
      { intros h Hh. rewrite <- Hkeys in Hh.
        change (roundReward a1) with (<[crc := v]> (roundReward a)).
        rewrite lookup_insert_ne by (intros ->; contradiction). apply Hfree, Hh. }
      destruct (int64_eqm (roundReward_get crc a + confirm)) as (k1 & Hk1).
      destruct (int64_eqm (real + confirm)) as (k2 & Hk2).
      exists (k + k1 - k2). split.
      * rewrite Hsum.
        change (roundReward a1) with (<[crc := v]> (roundReward a)).
        rewrite sumRoundReward_insert. fold (roundReward_get crc a).
        unfold v. lia.
      * intros h Hne Hh. rewrite Hframe; [| exact Hne | rewrite <- Hkeys; exact Hh].
        change (roundReward a1) with (<[crc := v]> (roundReward a)).
        apply lookup_insert_ne. congruence.
    + (* an elected arbiter *)
      assert (Hnone : crcSet !! ownerHash = None).
      { destruct (crcSet !! ownerHash) eqn:E; [| reflexivity].
        exfalso. apply Hin. eauto. }
      assert (Hkeys : keys
                = ownerHash :: filter (fun h => crcSet !! h = None) rest).
      { unfold keys. apply filter_cons_True. exact Hnone. }
      rewrite Hkeys in Hnd, Hcrc, Hfree.
      apply NoDup_cons in Hnd as [Hfresh Hnd].
      set (r := Int.int64 (confirm + _)).
      set (a1 := roundReward_put ownerHash r a).
      destruct (IH (Int.int64 (real + r)) a1) as (k & Hsum & Hframe);
        try reflexivity || assumption.
      { intros Hc. apply Hcrc. right. exact Hc. }
      { intros h Hh.
        change (roundReward a1) with (<[ownerHash := r]> (roundReward a)).
        rewrite lookup_insert_ne by (intros ->; contradiction).
        apply Hfree. right. exact Hh. }
      destruct (int64_eqm (real + r)) as (k2 & Hk2).
      exists (k - k2). split.
      * rewrite Hsum.
        change (roundReward a1) with (<[ownerHash := r]> (roundReward a)).
        rewrite sumRoundReward_insert, (Hfree ownerHash) by left.
        cbn [default]. lia.
      * intros h Hne Hh. rewrite Hkeys in Hh.
        rewrite Hframe; [| exact Hne | intros Hc; apply Hh; right; exact Hc].
        change (roundReward a1) with (<[ownerHash := r]> (roundReward a)).
        apply lookup_insert_ne. intros ->. apply Hh. left.
Qed.

Lemma payCandidates_ledger perVote candidates : forall real a,
  NoDup candidates ->
  (forall h, h ∈ candidates -> roundReward a !! h = None) ->
  exists k,
    sumRoundReward (roundReward (payCandidates perVote candidates real a).2)
    - (payCandidates perVote candidates real a).1
    = sumRoundReward (roundReward a) - real + k * 2 ^ 64.
Proof.
  induction candidates as [| ownerHash rest IH]; intros real a Hnd Hfree.
  - exists 0. simpl. lia.
  - cbn [payCandidates].
    apply NoDup_cons in Hnd as [Hfresh Hnd].
    set (r := Float64.to_int _).
    set (a1 := roundReward_put ownerHash r a).
    destruct (IH (Int.int64 (real + r)) a1) as (k & Hsum); [exact Hnd | |].
    { intros h Hh.
      change (roundReward a1) with (<[ownerHash := r]> (roundReward a)).
      rewrite lookup_insert_ne by (intros ->; contradiction).
      apply Hfree. right. exact Hh. }
    destruct (int64_eqm (real + r)) as (k2 & Hk2).
    exists (k - k2). rewrite Hsum.
    change (roundReward a1) with (<[ownerHash := r]> (roundReward a)).
    rewrite sumRoundReward_insert, (Hfree ownerHash) by left.
    cbn [default]. lia.
Qed.

(** With votes in the round, owner hashes that are pairwise distinct and
    differ from the CRC address, a settlement that succeeds conserves the
    reward: ledger plus residual is the reward distributed, in the
    arithmetic of [int64] (modulo 2^64). *)
Lemma settlement_conserves_modulo a reward a' :
  totalVotesInRound a <> 0 ->
  NoDup (electedOwners a ++ candidateOwnerProgramHashes a) ->
  CRCAddress (chainParams a) ∉ electedOwners a ++ candidateOwnerProgramHashes a ->
  distributeDPOSReward reward a = (Ok tt, a') ->
  exists k,
    sumRoundReward (roundReward a') + finalRoundChange a' = reward + k * 2 ^ 64.
Proof.
  intros Hv Hnd Hcrc.
  apply NoDup_app in Hnd as (Hnd1 & Hdisj & Hnd2).
  unfold distributeDPOSReward, bind, modify.
  set (crc := CRCAddress (chainParams a)) in *.
  set (a0 := roundReward_put _ 0 (set_arbitersRoundReward (Some ∅) a)).
  assert (Hm0 : roundReward a0 = {[ crc := 0 ]}).
  { unfold a0. cbn. unfold roundReward. cbn. apply insert_empty. }
  unfold distributeWithNormalArbitrators.
  destruct (len (currentOwnerProgramHashes a0) =? 0); [discriminate |].
  change (totalVotesInRound a0) with (totalVotesInRound a).
  destruct (Z.eqb_spec (totalVotesInRound a) 0) as [? | _]; [contradiction |].
  set (confirm := Float64.to_int _). set (perVote := (_ / _)%float).
  destruct (payArbiters_ledger confirm perVote (crcArbitratorsProgramHashes a)
              crc (currentOwnerProgramHashes a) 0 a0)
    as (k1 & Hsum1 & Hframe1); try reflexivity.
  { exact Hnd1. }
  { intros Hc. apply Hcrc, elem_of_app. left. exact Hc. }
  { intros h Hh. rewrite Hm0. apply lookup_singleton_ne.
    intros <-. apply Hcrc, elem_of_app. left. exact Hh. }
  change (currentOwnerProgramHashes a0) with (currentOwnerProgramHashes a).
  pose proof (preserves_payArbiters candidateOwnerProgramHashes confirm perVote
                (currentOwnerProgramHashes a) ltac:(reflexivity) 0 a0) as Hcand.
  destruct (payArbiters confirm perVote (currentOwnerProgramHashes a) 0 a0)
    as [real1 a1].
  cbn [fst snd] in Hsum1, Hframe1, Hcand.
  rewrite Hcand. change (candidateOwnerProgramHashes a0)
    with (candidateOwnerProgramHashes a).
  destruct (payCandidates_ledger perVote (candidateOwnerProgramHashes a) real1 a1)
    as (k2 & Hsum2).
  { exact Hnd2. }
  { intros h Hh. rewrite Hframe1.
    - rewrite Hm0. apply lookup_singleton_ne.
      intros <-. apply Hcrc, elem_of_app. right. exact Hh.
    - intros ->. apply Hcrc, elem_of_app. right. exact Hh.
    - intros Hc. exact (Hdisj h Hc Hh). }
  destruct (payCandidates perVote (candidateOwnerProgramHashes a) real1 a1)
    as [real2 a2].
  cbn [fst snd] in Hsum2.
  destruct (int64_eqm (reward - real2)) as (k3 & Hk3).
  destruct (Int.int64 (reward - real2) <? 0); [discriminate |].
  intros [= <-].
  change (roundReward (set_finalRoundChange _ a2)) with (roundReward a2).
  cbn [finalRoundChange set_finalRoundChange].
  rewrite Hm0 in Hsum1. unfold sumRoundReward in Hsum1 at 2.
  rewrite map_fold_singleton in Hsum1.
  exists (k1 + k2 + k3). lia.
Qed.

(** The same without the modulus, when the reward and the ledger total are in
    the range of [int64]; the residual is not negative. *)
Lemma settlement_conserves_with_votes a reward a' :
  totalVotesInRound a <> 0 ->
  NoDup (electedOwners a ++ candidateOwnerProgramHashes a) ->
  CRCAddress (chainParams a) ∉ electedOwners a ++ candidateOwnerProgramHashes a ->
  0 <= reward <= Int.max_int64 ->
  distributeDPOSReward reward a = (Ok tt, a') ->
  0 <= sumRoundReward (roundReward a') <= Int.max_int64 ->
  sumRoundReward (roundReward a') + finalRoundChange a' = reward /\
  0 <= finalRoundChange a'.
Proof.
  intros Hv Hnd Hcrc Hr Hd Hs.
  destruct (settlement_conserves_modulo a reward a' Hv Hnd Hcrc Hd) as (k & Hk).
  assert (Hf : 0 <= finalRoundChange a' <= Int.max_int64).
  { revert Hd. unfold distributeDPOSReward, bind, modify.
    destruct (distributeWithNormalArbitrators reward _) as [[real | e] a2];
      [| discriminate].
    pose proof (int64_range (reward - real)) as Hrange.
    destruct (Z.ltb_spec (Int.int64 (reward - real)) 0); [discriminate |].
    intros [= <-]. cbn [finalRoundChange set_finalRoundChange].
    unfold Int.max_int64. lia. }
  unfold Int.max_int64 in *. split; [| lia].
  assert (k = 0) by lia. lia.
Qed.

End Properties.

(** ** View-change countdown *)

(** The product of [IsTimeOut] is a [uint32] product; it is the plain product
    while that fits 32 bits. *)
Lemma timeout_product_plain (count factor : Z) :
  0 <= count -> 0 <= factor -> count * factor < 2 ^ 32 -> 0 < factor ->
  Int.uint32 (Int.uint32 count * factor) = count * factor.
Proof.
  intros Hc Hf Hp Hpos.
  assert (count < 2 ^ 32) by nia.
  rewrite (uint32_small count) by lia.
  apply uint32_small. nia.
Qed.

(** C9, as the code has it. [IsTimeOut] is true exactly when the current
    height is above [PublicDPOSHeight], the timeout factor is not 0, and the
    view offset is at least the committee size times the timeout factor (a
    uint32 product). *)
Theorem is_timeout_iff (c : manager.ViewChangesCountDown) :
  manager.IsTimeOut c = true <->
  manager.dispatcher_cfg_PublicDPOSHeight c < manager.dispatcher_CurrentHeight c /\
  manager.timeoutRefactor c <> 0 /\
  manager.consensus_ViewOffset c >=
  Int.uint32 (Int.uint32 (manager.arbitrators_ArbitersCount c)
              * manager.timeoutRefactor c).
Proof.
  unfold manager.IsTimeOut.
  destruct (Z.leb_spec (manager.dispatcher_CurrentHeight c)
              (manager.dispatcher_cfg_PublicDPOSHeight c));
    destruct (Z.eqb_spec (manager.timeoutRefactor c) 0); simpl;
    try (split; [discriminate | lia]).
  rewrite Z.leb_le. lia.
Qed.

(** After [Reset] the countdown never times out, whatever the height and the
    view offset. *)
Lemma reset_never_times_out (c : manager.ViewChangesCountDown) :
  manager.IsTimeOut (manager.Reset c) = false.
Proof.
  unfold manager.IsTimeOut, manager.Reset. simpl.
  rewrite orb_true_r. reflexivity.
Qed.

(** The first elimination sets the factor to 1 and the second to 241: with a
    committee of 2 the countdown times out from view offset 2, then from
    482. *)
Example is_timeout_after_elimination :
  let c1 := manager.SetEliminated Sample.freshCountdown in
  let c2 := manager.SetEliminated c1 in
  manager.timeoutRefactor c1 = 1 /\ manager.timeoutRefactor c2 = 241 /\
  manager.IsTimeOut c1 = false /\
  manager.IsTimeOut (Sample.atViewOffset 2 c1) = true /\
  manager.IsTimeOut (Sample.atViewOffset 481 c2) = false /\
  manager.IsTimeOut (Sample.atViewOffset 482 c2) = true.
Proof. vm_compute. repeat split; reflexivity. Qed.

(** C9 as stated fails on a fresh countdown: the height is above
    [PublicDPOSHeight] and the view offset 0 is at least 2 * 0, yet
    [IsTimeOut] is false. *)
Lemma is_timeout_fresh_countdown :
  ~ (manager.IsTimeOut Sample.freshCountdown = true <->
     manager.dispatcher_CurrentHeight Sample.freshCountdown
       > manager.dispatcher_cfg_PublicDPOSHeight Sample.freshCountdown /\
     manager.consensus_ViewOffset Sample.freshCountdown >=
       manager.arbitrators_ArbitersCount Sample.freshCountdown
       * manager.timeoutRefactor Sample.freshCountdown).
Proof.
  intros [_ Hback].
  assert (Ht : manager.IsTimeOut Sample.freshCountdown = true).
  { apply Hback. simpl. lia. }
  vm_compute in Ht. discriminate.
Qed.

(** * Further properties of the code *)

(** ** Byte order and [sort.Slice] *)

Lemma bytes_less_irrefl x : bytes_less x x = false.
Proof.
  induction x as [| b x IH]; simpl; [reflexivity |].
  rewrite Z.ltb_irrefl. exact IH.
Qed.

Lemma bytes_less_asym x : forall y, bytes_less x y = true -> bytes_less y x = false.
Proof.
  induction x as [| b x IH]; intros [| c y]; simpl; try congruence.
  destruct (Z.ltb_spec b c), (Z.ltb_spec c b); try lia; try congruence.
  apply IH.
Qed.

Lemma bytes_less_trans x : forall y z,
  bytes_less x y = true -> bytes_less y z = true -> bytes_less x z = true.
Proof.
  induction x as [| b x IH]; intros [| c y] [| d z]; simpl; try congruence.
  destruct (Z.ltb_spec b c), (Z.ltb_spec c b), (Z.ltb_spec c d),
    (Z.ltb_spec d c), (Z.ltb_spec b d), (Z.ltb_spec d b);
    try lia; try congruence.
  apply IH.
Qed.

Lemma bytes_less_total x : forall y,
  bytes_less x y = false -> bytes_less y x = false -> x = y.
Proof.
  induction x as [| b x IH]; intros [| c y]; simpl; try congruence.
  destruct (Z.ltb_spec b c), (Z.ltb_spec c b); try lia; try congruence.
  intros Hxy Hyx. f_equal; [lia | apply IH; assumption].
Qed.

#[local] Instance bytes_le_trans : Transitive bytes_le.
Proof.
  intros x y z Hxy Hyz. unfold bytes_le in *.
  destruct (bytes_less z x) eqn:Ezx; [| reflexivity].
  destruct (bytes_less y z) eqn:Eyz.
  - rewrite (bytes_less_trans _ _ _ Eyz Ezx) in Hxy. discriminate.
  - assert (y = z) by (apply bytes_less_total; assumption). subst. congruence.
Qed.

#[local] Instance bytes_le_antisym : AntiSymm (=) bytes_le.
Proof. intros x y Hxy Hyx. apply bytes_less_total; assumption. Qed.

Section SortSlice.
Context {A : Type} (less : A -> A -> bool).
Hypothesis less_asym : forall x y, less x y = true -> less y x = false.

Lemma insertBy_Permutation x l : insertBy less x l ≡ₚ x :: l.
Proof.
  induction l as [| y l IH]; simpl; [reflexivity |].
  destruct (less y x); [| reflexivity].
  rewrite IH. apply Permutation_swap.
Qed.

Lemma sort_Slice_Permutation l : sort_Slice less l ≡ₚ l.
Proof.
  induction l as [| x l IH]; simpl; [reflexivity |].
  rewrite insertBy_Permutation. constructor. exact IH.
Qed.

Lemma insertBy_Sorted x l :
  Sorted (fun u v => less v u = false) l ->
  Sorted (fun u v => less v u = false) (insertBy less x l).
Proof.
  induction 1 as [| y l Hs IH Hhd]; simpl.
  - repeat constructor.
  - destruct (less y x) eqn:E.
    + constructor; [exact IH |].
      destruct Hhd as [| z l Hz]; simpl.
      * constructor. apply less_asym, E.
      * destruct (less z x); constructor; [exact Hz | apply less_asym, E].
    + constructor; [constructor; assumption | constructor; exact E].
Qed.

Lemma sort_Slice_Sorted l : Sorted (fun u v => less v u = false) (sort_Slice less l).
Proof.
  induction l as [| x l IH]; simpl; [constructor |].
  apply insertBy_Sorted, IH.
Qed.
End SortSlice.

Lemma sort_Slice_bytes_Sorted l : Sorted bytes_le (sort_Slice bytes_less l).
Proof. apply sort_Slice_Sorted. intros x y. apply bytes_less_asym. Qed.

Lemma sorted_bytes_unique l1 l2 :
  Sorted bytes_le l1 -> Sorted bytes_le l2 -> l1 ≡ₚ l2 -> l1 = l2.
Proof. apply (Sorted_unique bytes_le). Qed.

Lemma sort_Slice_length {A : Type} (less : A -> A -> bool) l :
  length (sort_Slice less l) = length l.
Proof.
  induction l as [| x l IH]; simpl; [reflexivity |].
  rewrite <- IH. generalize (sort_Slice less l). intros s.
  induction s as [| y s IHs]; simpl; [reflexivity |].
  destruct (less y x); simpl; [rewrite IHs |]; reflexivity.
Qed.

(** ** Arithmetic of positions *)

Lemma rem_mod_nonneg x n : 0 <= x -> 0 < n -> Int.rem x n = x mod n.
Proof. intros. unfold Int.rem. apply Z.rem_mod_nonneg; lia. Qed.

Lemma lookup_Z_lt {A : Type} (l : list A) i :
  0 <= i < len l -> is_Some (l !! Z.to_nat i).
Proof. unfold len. intros Hi. apply lookup_lt_is_Some. lia. Qed.

Lemma len_pos {A : Type} (l : list A) : l <> [] -> 0 < len l.
Proof. destruct l; [congruence |]. intros _. unfold len. simpl. lia. Qed.

Section FurtherProperties.
Context `{H : Host}.

Implicit Types (a : arbitrators) (block : Block).

Ltac frame :=
  first
    [ apply preserves_ret | apply preserves_fail | apply preserves_get
    | apply preserves_lift
    | apply preserves_bind; [| intros ?]
    | apply preserves_modify; intros ?; reflexivity ].

(** ** Settling a block once *)

(** X1. A block is settled at most once: after [clearingDPOSReward] has
    succeeded for a block, clearing the same block again, smooth or forced,
    succeeds and changes nothing. *)
Theorem clearingDPOSReward_idempotent block smooth smooth' a a1 :
  clearingDPOSReward block smooth a = (Ok tt, a1) ->
  clearingDPOSReward block smooth' a1 = (Ok tt, a1).
Proof.
  unfold clearingDPOSReward.
  destruct (Height block =? clearingHeight a) eqn:Eh.
  { intros [= <-]. rewrite Eh. reflexivity. }
  destruct (Int.uint32 (Height block + 1) <=? PublicDPOSHeight (chainParams a))
    eqn:Ep.
  { intros [= <-]. cbn [clearingHeight chainParams set_accumulativeReward].
    rewrite Eh, Ep. reflexivity. }
  set (a0 := (if smooth then _ else _)).
  destruct a0 as [dposReward a0].
  unfold bind, modify.
  destruct (distributeDPOSReward (accumulativeReward a0) a0) as [[[] | e] a2];
    [| discriminate].
  intros [= <-]. cbn [clearingHeight set_clearingHeight].
  rewrite Z.eqb_refl. reflexivity.
Qed.

(** ** The residual and the ledger of a settlement *)

Lemma preserves_distributeWithNormalArbitrators {T : Type}
    (proj : arbitrators -> T) reward :
  (forall k v a, proj (roundReward_put k v a) = proj a) ->
  preserves proj (distributeWithNormalArbitrators reward).
Proof.
  intros Hput a. unfold distributeWithNormalArbitrators.
  destruct (len _ =? 0); [reflexivity |].
  destruct (totalVotesInRound a =? 0); [apply Hput |].
  destruct (payArbiters _ _ _ _ _) as [real1 a1] eqn:E1.
  destruct (payCandidates _ _ _ _) as [real2 a2] eqn:E2.
  simpl.
  change a2 with (real2, a2).2. rewrite <- E2.
  rewrite preserves_payCandidates by exact Hput.
  change a1 with (real1, a1).2. rewrite <- E1.
  apply preserves_payArbiters. exact Hput.
Qed.

(** A settlement either succeeds with a residual that is not negative, or
    fails and leaves the residual as it was. *)
Lemma distributeDPOSReward_residual reward a :
  0 <= finalRoundChange (distributeDPOSReward reward a).2 \/
  finalRoundChange (distributeDPOSReward reward a).2 = finalRoundChange a.
Proof.
  unfold distributeDPOSReward, bind, modify.
  set (a0 := roundReward_put _ 0 _).
  pose proof (preserves_distributeWithNormalArbitrators finalRoundChange reward
                ltac:(reflexivity) a0) as Hp.
  destruct (distributeWithNormalArbitrators reward a0) as [[real | e] a1];
    cbn [fst snd] in *.
  - destruct (Z.ltb_spec (Int.int64 (reward - real)) 0).
    + right. exact Hp.
    + left. assumption.
  - right. exact Hp.
Qed.

Lemma clearingDPOSReward_residual block smooth a :
  0 <= finalRoundChange a ->
  0 <= finalRoundChange (clearingDPOSReward block smooth a).2.
Proof.
  intros Hpos. unfold clearingDPOSReward.
  destruct (_ =? _); [exact Hpos |].
  destruct (_ <=? _); [exact Hpos |].
  set (a0 := (if smooth then _ else _)).
  assert (Ha0 : 0 <= finalRoundChange a0.2) by (unfold a0; destruct smooth; exact Hpos).
  destruct a0 as [dposReward a0]. cbn [snd] in Ha0.
  unfold bind, modify.
  pose proof (distributeDPOSReward_residual (accumulativeReward a0) a0) as Hd.
  destruct (distributeDPOSReward (accumulativeReward a0) a0) as [[[] | e] a2];
    cbn [fst snd finalRoundChange set_clearingHeight set_accumulativeReward] in *;
    lia.
Qed.

Lemma updateNextArbitrators_finalRoundChange height a :
  finalRoundChange (updateNextArbitrators height a).2 = finalRoundChange a.
Proof.
  pose proof (preserves_updateNextArbitrators height a) as Hk.
  unfold kept in Hk. congruence.
Qed.

Lemma ForceChange_residual height a :
  0 <= finalRoundChange a -> 0 <= finalRoundChange (ForceChange height a).2.
Proof.
  intros Hpos. unfold ForceChange, bind.
  destruct (bestBlock a) as [blk | e]; [| exact Hpos].
  pose proof (clearingDPOSReward_residual blk false a Hpos) as Hc.
  destruct (clearingDPOSReward blk false a) as [[[] | e] a1]; [| exact Hc].
  cbn [snd] in Hc.
  pose proof (updateNextArbitrators_finalRoundChange (Int.uint32 (height + 1)) a1)
    as Hu.
  destruct (updateNextArbitrators _ a1) as [[[] | e] a2]; cbn [snd] in *.
  - unfold changeCurrentArbitrators, modify. cbn. lia.
  - lia.
Qed.

(** X2. The residual [finalRoundChange] is never negative: processing a
    block, a forced change and a special payload all keep it at or above 0,
    whether they succeed or return an error. *)
Theorem residual_never_negative a :
  0 <= finalRoundChange a ->
  (forall block a', IncreaseChainHeight block a = Returns a' ->
                    0 <= finalRoundChange a') /\
  (forall height, 0 <= finalRoundChange (ForceChange height a).2) /\
  (forall p height, 0 <= finalRoundChange (ProcessSpecialTxPayload p height a).2).
Proof.
  intros Hpos. split; [| split].
  - intros block a'. unfold IncreaseChainHeight.
    destruct (getChangeType _ a) as [[| |] versionHeight].
    + intros [= <-]. cbn [finalRoundChange set_illegalBlocksPayloadHashes set_dutyIndex].
      unfold accumulateReward. destruct (_ <=? _); [exact Hpos | cbn; lia].
    + pose proof (updateNextArbitrators_finalRoundChange versionHeight a) as Hu.
      destruct (updateNextArbitrators versionHeight a) as [[[] | e] a1];
        [| discriminate].
      intros [= <-]. cbn in *. lia.
    + unfold bind, NormalChange, bind.
      pose proof (clearingDPOSReward_residual block true a Hpos) as Hc.
      destruct (clearingDPOSReward block true a) as [[[] | e] a1];
        [| discriminate].
      cbn [snd] in Hc.
      pose proof (updateNextArbitrators_finalRoundChange
                    (Int.uint32 (Height block + 1))
                    (changeCurrentArbitrators a1).2) as Hu.
      unfold changeCurrentArbitrators, modify in *. cbn [fst snd] in *.
      destruct (updateNextArbitrators _ _) as [[[] | e] a2]; [| discriminate].
      intros [= <-]. cbn in *. lia.
  - intros height. apply ForceChange_residual, Hpos.
  - intros p height. destruct p as [hash | hash | hash |]; try exact Hpos.
    + unfold ProcessSpecialTxPayload, bind, modify.
      apply ForceChange_residual. exact Hpos.
    + unfold ProcessSpecialTxPayload, bind, modify, get, ret.
      destruct (AddInactivePayload hash (degradation_ a)) as [[|] d].
      * apply ForceChange_residual. exact Hpos.
      * exact Hpos.
Qed.

Lemma roundReward_put_lookup k v a :
  roundReward (roundReward_put k v a) = <[k := v]> (roundReward a).
Proof. reflexivity. Qed.

Lemma payArbiters_keys confirm perVote crc owners : forall real a,
  CRCAddress (chainParams a) = crc ->
  forall k,
    (is_Some (roundReward a !! k) ->
     is_Some (roundReward (payArbiters confirm perVote owners real a).2 !! k)) /\
    (is_Some (roundReward (payArbiters confirm perVote owners real a).2 !! k) ->
     is_Some (roundReward a !! k) \/ k = crc \/ k ∈ owners).
Proof.
  induction owners as [| ownerHash rest IH]; intros real a Hcrc k.
  - simpl. split; [auto | auto].
  - cbn [payArbiters]. rewrite Hcrc. case_bool_decide.
    + set (a1 := roundReward_put crc _ a).
      destruct (IH (Int.int64 (real + confirm)) a1 Hcrc k) as [Hmono Hdom].
      unfold a1 in Hmono, Hdom at 2.
      rewrite roundReward_put_lookup in Hmono, Hdom. split.
      * intros Hk. apply Hmono. rewrite lookup_insert_is_Some'. auto.
      * intros Hk. destruct (Hdom Hk) as [Hin | [-> | Hin]].
        -- apply lookup_insert_is_Some in Hin as [<- | [_ Hin]]; auto.
        -- auto.
        -- right; right; right; exact Hin.
    + set (r := Int.int64 (confirm + _)).
      set (a1 := roundReward_put ownerHash r a).
      destruct (IH (Int.int64 (real + r)) a1 Hcrc k) as [Hmono Hdom].
      unfold a1 in Hmono, Hdom at 2.
      rewrite roundReward_put_lookup in Hmono, Hdom. split.
      * intros Hk. apply Hmono. rewrite lookup_insert_is_Some'. auto.
      * intros Hk. destruct (Hdom Hk) as [Hin | [-> | Hin]].
        -- apply lookup_insert_is_Some in Hin as [<- | [_ Hin]]; auto.
           right; right; left.
        -- auto.
        -- right; right; right; exact Hin.
Qed.

Lemma payCandidates_keys perVote owners : forall real a k,
  (is_Some (roundReward a !! k) ->
   is_Some (roundReward (payCandidates perVote owners real a).2 !! k)) /\
  (is_Some (roundReward (payCandidates perVote owners real a).2 !! k) ->
   is_Some (roundReward a !! k) \/ k ∈ owners).
Proof.
  induction owners as [| ownerHash rest IH]; intros real a k.
  - simpl. split; auto.
  - cbn [payCandidates].
    set (r := Float64.to_int _).
    set (a1 := roundReward_put ownerHash r a).
    destruct (IH (Int.int64 (real + r)) a1 k) as [Hmono Hdom].
    unfold a1 in Hmono, Hdom at 2.
    rewrite roundReward_put_lookup in Hmono, Hdom. split.
    + intros Hk. apply Hmono. rewrite lookup_insert_is_Some'. auto.
    + intros Hk. destruct (Hdom Hk) as [Hin | Hin].
      * apply lookup_insert_is_Some in Hin as [<- | [_ Hin]]; auto.
        right; left.
      * right; right; exact Hin.
Qed.

Lemma payArbiters_allocated confirm perVote owners : forall real a,
  is_Some (arbitersRoundReward a) ->
  is_Some (arbitersRoundReward (payArbiters confirm perVote owners real a).2).
Proof.
  induction owners as [| ownerHash rest IH]; intros real a Ha; cbn [payArbiters].
  - exact Ha.
  - case_bool_decide; apply IH; cbn; eauto.
Qed.

Lemma payCandidates_allocated perVote owners : forall real a,
  is_Some (arbitersRoundReward a) ->
  is_Some (arbitersRoundReward (payCandidates perVote owners real a).2).
Proof.
  induction owners as [| ownerHash rest IH]; intros real a Ha; cbn [payCandidates].
  - exact Ha.
  - apply IH; cbn; eauto.
Qed.

Lemma ledger_allocated a :
  is_Some (arbitersRoundReward a) -> arbitersRoundReward a = Some (roundReward a).
Proof. intros [m Hm]. unfold roundReward. rewrite Hm. reflexivity. Qed.

(** X3. Whatever its outcome, a settlement leaves a ledger that has an entry
    for the CRC address and pays no address other than the CRC address, the
    owner hashes of the current arbitrators and those of the candidates. *)
Theorem ledger_addresses reward a :
  exists m : gmap Uint168 Fixed64,
    arbitersRoundReward (distributeDPOSReward reward a).2 = Some m /\
    is_Some (m !! CRCAddress (chainParams a)) /\
    forall k, is_Some (m !! k) ->
      k = CRCAddress (chainParams a) \/
      k ∈ currentOwnerProgramHashes a \/
      k ∈ candidateOwnerProgramHashes a.
Proof.
  set (crc := CRCAddress (chainParams a)).
  set (a0 := roundReward_put crc 0 (set_arbitersRoundReward (Some ∅) a)).
  assert (Hm0 : roundReward a0 = {[ crc := 0 ]}).
  { unfold a0. cbn. unfold roundReward. cbn. apply insert_empty. }
  assert (Hgoal :
            is_Some (arbitersRoundReward (distributeWithNormalArbitrators reward a0).2) /\
            is_Some (roundReward (distributeWithNormalArbitrators reward a0).2 !! crc) /\
            forall k,
              is_Some (roundReward (distributeWithNormalArbitrators reward a0).2 !! k) ->
              k = crc \/ k ∈ currentOwnerProgramHashes a \/
              k ∈ candidateOwnerProgramHashes a).
  { unfold distributeWithNormalArbitrators.
    change (currentOwnerProgramHashes a0) with (currentOwnerProgramHashes a).
    change (totalVotesInRound a0) with (totalVotesInRound a).
    change (CRCAddress (chainParams a0)) with crc.
    destruct (len (currentOwnerProgramHashes a) =? 0).
    { cbn [snd]. rewrite Hm0. split; [unfold a0; cbn; eauto | split].
      - rewrite lookup_singleton_eq. eauto.
      - intros k [v Hk]. apply lookup_singleton_Some in Hk as [<- _]. auto. }
    destruct (totalVotesInRound a =? 0).
    { cbn [snd]. rewrite roundReward_put_lookup, Hm0.
      split; [cbn; eauto | split].
      - rewrite lookup_insert_eq. eauto.
      - intros k Hk. apply lookup_insert_is_Some in Hk as [<- | [_ [v Hk]]]; [auto |].
        apply lookup_singleton_Some in Hk as [<- _]. auto. }
    set (confirm := Float64.to_int _). set (perVote := (_ / _)%float).
    pose proof (payArbiters_keys confirm perVote crc
                  (currentOwnerProgramHashes a) 0 a0 eq_refl) as Hk1.
    pose proof (preserves_payArbiters candidateOwnerProgramHashes confirm perVote
                  (currentOwnerProgramHashes a) ltac:(reflexivity) 0 a0) as Hcand.
    pose proof (payArbiters_allocated confirm perVote
                  (currentOwnerProgramHashes a) 0 a0 ltac:(unfold a0; cbn; eauto))
      as Hal1.
    destruct (payArbiters confirm perVote (currentOwnerProgramHashes a) 0 a0)
      as [real1 a1]. cbn [snd] in Hk1, Hcand, Hal1.
    rewrite Hcand.
    change (candidateOwnerProgramHashes a0) with (candidateOwnerProgramHashes a).
    pose proof (payCandidates_keys perVote (candidateOwnerProgramHashes a)
                  real1 a1) as Hk2.
    pose proof (payCandidates_allocated perVote (candidateOwnerProgramHashes a)
                  real1 a1 Hal1) as Hal2.
    destruct (payCandidates perVote (candidateOwnerProgramHashes a) real1 a1)
      as [real2 a2]. cbn [snd] in Hk2, Hal2 |- *.
    split; [exact Hal2 | split].
    - apply Hk2, Hk1. rewrite Hm0, lookup_singleton_eq. eauto.
    - intros k Hk. destruct (proj2 (Hk2 k) Hk) as [Hin | Hin]; [| auto].
      destruct (proj2 (Hk1 k) Hin) as [Hin0 | [-> | Hin1]]; [| auto | auto].
      rewrite Hm0 in Hin0. destruct Hin0 as [v Hv].
      apply lookup_singleton_Some in Hv as [<- _]. auto. }
  destruct Hgoal as (Hal & Hcrc & Hdom).
  unfold distributeDPOSReward, bind, modify.
  change (roundReward_put
            (CRCAddress (chainParams (set_arbitersRoundReward (Some ∅) a))) 0
            (set_arbitersRoundReward (Some ∅) a)) with a0.
  destruct (distributeWithNormalArbitrators reward a0) as [[real | e] a1];
    cbn [fst snd] in *.
  - destruct (Int.int64 (reward - real) <? 0);
      cbn [snd fail arbitersRoundReward set_finalRoundChange];
      exists (roundReward a1); (split; [apply ledger_allocated, Hal | auto]).
  - exists (roundReward a1). split; [apply ledger_allocated, Hal | auto].
Qed.

(** X4. Above [PublicDPOSHeight], with votes in the round, a clearing that
    succeeds for a new block pays out the whole pending reward: the ledger
    and the residual add up to it (barring overflow of the sum), the residual
    is not negative, and the pending reward starts again from the share of
    the clearing block, or from 0 when that share was paid out with the rest
    (smooth clearing). *)
Theorem clearing_pays_pending_reward block (smooth : bool) a a' :
  let share := getBlockDPOSReward block a in
  let paid :=
    if smooth then Int.int64 (accumulativeReward a + share)
    else accumulativeReward a in
  Height block <> clearingHeight a ->
  PublicDPOSHeight (chainParams a) < Int.uint32 (Height block + 1) ->
  totalVotesInRound a <> 0 ->
  NoDup (electedOwners a ++ candidateOwnerProgramHashes a) ->
  CRCAddress (chainParams a) ∉ electedOwners a ++ candidateOwnerProgramHashes a ->
  0 <= paid <= Int.max_int64 ->
  clearingDPOSReward block smooth a = (Ok tt, a') ->
  0 <= sumRoundReward (roundReward a') <= Int.max_int64 ->
  sumRoundReward (roundReward a') + finalRoundChange a' = paid /\
  0 <= finalRoundChange a' /\
  accumulativeReward a' = (if smooth then 0 else share) /\
  clearingHeight a' = Height block.
Proof.
  intros share paid Hh Hp Hv Hnd Hcrc Hpaid Hclear Hsum.
  unfold clearingDPOSReward in Hclear.
  destruct (Z.eqb_spec (Height block) (clearingHeight a)); [contradiction |].
  destruct (Z.leb_spec (Int.uint32 (Height block + 1))
              (PublicDPOSHeight (chainParams a))); [lia |].
  fold share in Hclear.
  set (a0 := if smooth
             then set_accumulativeReward
                    (Int.int64 (accumulativeReward a + share)) a
             else a).
  assert (Ea0 : (if smooth
                 then (0, set_accumulativeReward
                            (Int.int64 (accumulativeReward a + share)) a)
                 else (share, a)) = (if smooth then 0 else share, a0)).
  { unfold a0. destruct smooth; reflexivity. }
  rewrite Ea0 in Hclear. clear Ea0.
  assert (Hacc : accumulativeReward a0 = paid).
  { unfold a0, paid. destruct smooth; reflexivity. }
  assert (Hsame : totalVotesInRound a0 = totalVotesInRound a /\
                  electedOwners a0 = electedOwners a /\
                  candidateOwnerProgramHashes a0 = candidateOwnerProgramHashes a /\
                  chainParams a0 = chainParams a).
  { unfold a0. destruct smooth; repeat split. }
  destruct Hsame as (Ev & Ee & Ec & Ecp).
  unfold bind in Hclear. rewrite Hacc in Hclear.
  destruct (distributeDPOSReward paid a0) as [[[] | e] a1] eqn:Ed;
    [| discriminate].
  unfold modify in Hclear. injection Hclear as <-.
  cbn [finalRoundChange accumulativeReward clearingHeight
       set_accumulativeReward set_clearingHeight] in *.
  change (roundReward (set_clearingHeight (Height block)
            (set_accumulativeReward (if smooth then 0 else share) a1)))
    with (roundReward a1) in *.
  destruct (settlement_conserves_with_votes a0 paid a1) as [Hc Hf]; try assumption.
  - rewrite Ev. exact Hv.
  - rewrite Ee, Ec. exact Hnd.
  - rewrite Ee, Ec, Ecp. exact Hcrc.
  - repeat split; assumption.
Qed.

(** X5. A normal change above [PublicDPOSHeight] cannot settle without owner
    hashes: with an empty [currentOwnerProgramHashes] the settlement returns
    its not-found error and processing the block panics. *)
Theorem normal_change_without_owners_panics a block :
  (getChangeType (Int.uint32 (Height block + 1)) a).1 = normalChange ->
  PublicDPOSHeight (chainParams a) < Int.uint32 (Height block + 1) ->
  Height block <> clearingHeight a ->
  currentOwnerProgramHashes a = [] ->
  (forall smooth,
     (clearingDPOSReward block smooth a).1 = Err ErrNotFoundArbiters) /\
  IncreaseChainHeight block a = Panics.
Proof.
  intros Hc Hh Hclear Hown.
  assert (Hclr : forall smooth,
            (clearingDPOSReward block smooth a).1 = Err ErrNotFoundArbiters).
  { intros smooth. unfold clearingDPOSReward.
    destruct (Z.eqb_spec (Height block) (clearingHeight a)); [contradiction |].
    destruct (Z.leb_spec (Int.uint32 (Height block + 1))
                (PublicDPOSHeight (chainParams a))); [lia |].
    destruct smooth;
      unfold bind, modify, distributeDPOSReward, bind, modify,
        distributeWithNormalArbitrators;
      cbn [fst snd currentOwnerProgramHashes set_accumulativeReward
           roundReward_put set_arbitersRoundReward];
      rewrite Hown; reflexivity. }
  split; [exact Hclr |].
  unfold IncreaseChainHeight.
  destruct (getChangeType _ a) as [changeType versionHeight].
  simpl in Hc. subst changeType. unfold bind.
  specialize (Hclr true).
  destruct (clearingDPOSReward block true a) as [[[] | e] a1];
    [discriminate | reflexivity].
Qed.

(** ** The life of a piece of illegal evidence *)

Lemma CheckDPOSIllegalTx_absent a block h :
  wellFormedTxs (Transactions block) ->
  is_Some (illegalBlocksPayloadHashes a !! h) ->
  h ∉ illegalBlockTxHashes (Transactions block) ->
  CheckDPOSIllegalTx block a = Returns (Some ErrExpectIllegalBlocksTx).
Proof.
  intros Hwf [u Hh] Hnin. unfold CheckDPOSIllegalTx.
  case_bool_decide as Hsize.
  { apply map_size_empty_iff in Hsize. rewrite Hsize in Hh.
    rewrite lookup_empty in Hh. discriminate. }
  destruct (markFound_spec _ Hwf
              ((fun _ => false) <$> illegalBlocksPayloadHashes a))
    as (m & -> & Hk).
  case_bool_decide as Hall; [| reflexivity].
  specialize (Hall h false). rewrite Hk, decide_False in Hall by exact Hnin.
  rewrite lookup_fmap, Hh in Hall. specialize (Hall eq_refl). discriminate.
Qed.

Lemma CheckDPOSIllegalTx_all_present a block :
  wellFormedTxs (Transactions block) ->
  (forall h, is_Some (illegalBlocksPayloadHashes a !! h) ->
             h ∈ illegalBlockTxHashes (Transactions block)) ->
  CheckDPOSIllegalTx block a = Returns None.
Proof.
  intros Hwf Hin. unfold CheckDPOSIllegalTx.
  case_bool_decide as Hsize; [reflexivity |].
  destruct (markFound_spec _ Hwf
              ((fun _ => false) <$> illegalBlocksPayloadHashes a))
    as (m & -> & Hk).
  case_bool_decide as Hall; [reflexivity |].
  exfalso. apply Hall. intros h found Hlk. rewrite Hk in Hlk.
  destruct (decide (h ∈ illegalBlockTxHashes (Transactions block))) as [? | Hnin].
  - congruence.
  - rewrite lookup_fmap in Hlk.
    destruct (illegalBlocksPayloadHashes a !! h) eqn:E; [| discriminate].
    exfalso. apply Hnin, Hin. eauto.
Qed.

(** X6. Evidence handed in as a special payload is demanded of the next
    block and of no later one: after a [ProcessSpecialTxPayload] of an
    illegal-blocks payload that succeeds, the check rejects every block
    without that evidence and accepts a block that carries all pending
    evidence; once any block has been processed the check accepts every
    block. *)
Theorem evidence_demanded_once a hash height a1 :
  ProcessSpecialTxPayload (DPOSIllegalBlocks hash) height a = (Ok tt, a1) ->
  (forall block,
     wellFormedTxs (Transactions block) ->
     hash ∉ illegalBlockTxHashes (Transactions block) ->
     CheckDPOSIllegalTx block a1 = Returns (Some ErrExpectIllegalBlocksTx)) /\
  (forall block,
     wellFormedTxs (Transactions block) ->
     hash ∈ illegalBlockTxHashes (Transactions block) ->
     (forall h, is_Some (illegalBlocksPayloadHashes a !! h) ->
                h ∈ illegalBlockTxHashes (Transactions block)) ->
     CheckDPOSIllegalTx block a1 = Returns None) /\
  (forall block a2 block',
     IncreaseChainHeight block a1 = Returns a2 ->
     CheckDPOSIllegalTx block' a2 = Returns None).
Proof.
  intros Hok.
  assert (Hpending : illegalBlocksPayloadHashes a1
                     = <[hash := tt]> (illegalBlocksPayloadHashes a)).
  { replace a1
      with (ProcessSpecialTxPayload (DPOSIllegalBlocks hash) height a).2
      by (rewrite Hok; reflexivity).
    unfold ProcessSpecialTxPayload, bind, modify.
    rewrite ForceChange_illegalBlocksPayloadHashes. reflexivity. }
  split; [| split].
  - intros block Hwf Hnin. apply (CheckDPOSIllegalTx_absent a1 block hash Hwf).
    + rewrite Hpending, lookup_insert_eq. eauto.
    + exact Hnin.
  - intros block Hwf Hin Hall. apply CheckDPOSIllegalTx_all_present; [exact Hwf |].
    intros h. rewrite Hpending, lookup_insert_is_Some'.
    intros [<- | Hh]; [exact Hin | apply Hall, Hh].
  - intros block a2 block'. unfold IncreaseChainHeight.
    destruct (getChangeType _ a1) as [changeType versionHeight].
    destruct (match changeType with none => _ | _ => _ end) as [[[] | e] a3];
      [| discriminate].
    intros [= <-]. reflexivity.
Qed.

(** X7. A block that resolves to updateNext prepares the next committee and
    nothing else: the duty index is not advanced, and the current
    arbitrators, the pending reward, the ledger, the residual and the
    clearing height stay as they were. *)
Theorem update_next_keeps_round a block a' :
  (getChangeType (Int.uint32 (Height block + 1)) a).1 = updateNext ->
  IncreaseChainHeight block a = Returns a' ->
  dutyIndex a' = dutyIndex a /\
  currentArbitrators a' = currentArbitrators a /\
  accumulativeReward a' = accumulativeReward a /\
  arbitersRoundReward a' = arbitersRoundReward a /\
  finalRoundChange a' = finalRoundChange a /\
  clearingHeight a' = clearingHeight a.
Proof.
  intros Hc. unfold IncreaseChainHeight.
  destruct (getChangeType _ a) as [changeType versionHeight].
  simpl in Hc. subst changeType.
  pose proof (preserves_updateNextArbitrators versionHeight a) as Hk.
  destruct (updateNextArbitrators versionHeight a) as [[[] | e] a1];
    [| discriminate].
  intros [= <-]. unfold kept in Hk. cbn in *.
  injection Hk as -> -> -> -> _ -> _ -> _. repeat split.
Qed.

(** ** The promoted committee *)

Lemma containsKey_elem_of pk l : containsKey pk l = true <-> pk ∈ l.
Proof.
  induction l as [| v l IH]; simpl.
  - split; [discriminate | intros Hin; inversion Hin].
  - case_bool_decide as E.
    + subst. split; [intros _; left | reflexivity].
    + rewrite IH. split; [intros Hin; right; exact Hin |].
      intros Hin. apply elem_of_cons in Hin as [? | ?]; [contradiction | assumption].
Qed.

(** X8. [changeCurrentArbitrators] leaves the current arbitrators in
    lexicographic order of their keys, with the members the next arbitrators
    had. That list is the only sorted arrangement of these members, so the
    committee does not depend on the order in which the next arbitrators
    were collected (nor on the sorting algorithm). *)
Theorem promoted_committee_canonical a :
  Sorted bytes_le (currentArbitrators (changeCurrentArbitrators a).2) /\
  currentArbitrators (changeCurrentArbitrators a).2 ≡ₚ nextArbitrators a /\
  (forall l, Sorted bytes_le l -> l ≡ₚ nextArbitrators a ->
     currentArbitrators (changeCurrentArbitrators a).2 = l) /\
  (forall a', nextArbitrators a' ≡ₚ nextArbitrators a ->
     currentArbitrators (changeCurrentArbitrators a').2
     = currentArbitrators (changeCurrentArbitrators a).2).
Proof.
  split; [apply sort_Slice_bytes_Sorted | split; [apply sort_Slice_Permutation |]].
  split.
  - intros l Hl Hp. cbn.
    apply sorted_bytes_unique; [apply sort_Slice_bytes_Sorted | exact Hl |].
    rewrite sort_Slice_Permutation, Hp. reflexivity.
  - intros a' Hp. cbn.
    apply sorted_bytes_unique; try apply sort_Slice_bytes_Sorted.
    rewrite !sort_Slice_Permutation. exact Hp.
Qed.

(** X9. [IsArbitrator] is membership in the current arbitrators, and after a
    promotion a key is an arbitrator exactly when it was a next arbitrator
    before. *)
Theorem IsArbitrator_after_promotion a pk :
  (IsArbitrator pk a = true <-> pk ∈ currentArbitrators a) /\
  (IsArbitrator pk (changeCurrentArbitrators a).2 = true
   <-> pk ∈ nextArbitrators a).
Proof.
  unfold IsArbitrator. rewrite !containsKey_elem_of. split; [reflexivity |].
  cbn. rewrite sort_Slice_Permutation. reflexivity.
Qed.

(** ** What [updateNextArbitrators] assigns *)

Section Tail.
Context {T : Type} (proj : arbitrators -> T).
Hypothesis proj_ownerVotesInRound :
  forall v a, proj (set_ownerVotesInRound v a) = proj a.
Hypothesis proj_totalVotesInRound :
  forall v a, proj (set_totalVotesInRound v a) = proj a.
Hypothesis proj_nextOwnerProgramHashes :
  forall v a, proj (set_nextOwnerProgramHashes v a) = proj a.
Hypothesis proj_nextCandidateOwnerProgramHashes :
  forall v a, proj (set_nextCandidateOwnerProgramHashes v a) = proj a.

Ltac frame_tail :=
  first
    [ apply preserves_ret | apply preserves_fail | apply preserves_get
    | apply preserves_lift
    | apply preserves_modify; intros ?; cbv zeta;
      repeat first
        [ rewrite proj_ownerVotesInRound | rewrite proj_totalVotesInRound
        | rewrite proj_nextOwnerProgramHashes
        | rewrite proj_nextCandidateOwnerProgramHashes ];
      reflexivity ].

Lemma preserves_snapshotVotesStates : preserves proj snapshotVotesStates.
Proof.
  assert (Hs : forall keys, preserves proj (snapshotVotes keys)).
  { induction keys as [| pk keys IH]; simpl; [apply preserves_ret |].
    apply preserves_bind; [apply preserves_get | intros a0].
    destruct (IsCRCArbitrator pk a0); [exact IH |].
    destruct (GetProducer pk (State_ a0)); [| apply preserves_fail].
    repeat (apply preserves_bind; [| intros ?]); try exact IH; frame_tail. }
  unfold snapshotVotesStates.
  repeat (apply preserves_bind; [| intros ?]); try apply Hs; frame_tail.
Qed.

Lemma preserves_updateNextOwnerProgramHashes :
  preserves proj updateNextOwnerProgramHashes.
Proof.
  assert (Ho : forall keys, preserves proj (appendNextOwnerHashes keys)).
  { induction keys as [| pk keys IH]; simpl; [apply preserves_ret |].
    apply preserves_bind; [apply preserves_get | intros a0].
    apply preserves_bind; [| intros programHash].
    - destruct (IsCRCArbitrator pk a0); [apply preserves_lift |].
      destruct (GetProducer pk (State_ a0));
        [apply preserves_lift | apply preserves_fail].
    - apply preserves_bind; [frame_tail | intros _; exact IH]. }
  assert (Hc : forall keys, preserves proj (appendNextCandidateOwnerHashes keys)).
  { induction keys as [| pk keys IH]; simpl; [apply preserves_ret |].
    apply preserves_bind; [apply preserves_get | intros a0].
    destruct (IsCRCArbitrator pk a0); [exact IH |].
    destruct (GetProducer pk (State_ a0)); [| apply preserves_fail].
    repeat (apply preserves_bind; [| intros ?]); try exact IH; frame_tail. }
  unfold updateNextOwnerProgramHashes.
  repeat (apply preserves_bind; [| intros ?]); try apply Ho; try apply Hc; frame_tail.
Qed.

Lemma preserves_snapshot_tail :
  preserves proj (bind snapshotVotesStates (fun _ => updateNextOwnerProgramHashes)).
Proof.
  apply preserves_bind; [apply preserves_snapshotVotesStates | intros _].
  apply preserves_updateNextOwnerProgramHashes.
Qed.
End Tail.

Section UpdateFrame.
Context {T : Type} (proj : arbitrators -> T).
Hypothesis proj_degradation_ : forall v a, proj (set_degradation_ v a) = proj a.
Hypothesis proj_nextArbitrators : forall v a, proj (set_nextArbitrators v a) = proj a.
Hypothesis proj_nextCandidates : forall v a, proj (set_nextCandidates v a) = proj a.
Hypothesis proj_ownerVotesInRound :
  forall v a, proj (set_ownerVotesInRound v a) = proj a.
Hypothesis proj_totalVotesInRound :
  forall v a, proj (set_totalVotesInRound v a) = proj a.
Hypothesis proj_nextOwnerProgramHashes :
  forall v a, proj (set_nextOwnerProgramHashes v a) = proj a.
Hypothesis proj_nextCandidateOwnerProgramHashes :
  forall v a, proj (set_nextCandidateOwnerProgramHashes v a) = proj a.

Lemma preserves_updateNextArbitrators_frame height :
  preserves proj (updateNextArbitrators height).
Proof.
  assert (Hm : forall f, (forall a, proj (f a) = proj a) -> preserves proj (modify f))
    by apply preserves_modify.
  unfold updateNextArbitrators.
  apply preserves_bind; [| intros _].
  { apply Hm. intros a.
    destruct (InactiveModeSwitch _ _ _) as [[? ?] ?]. apply proj_degradation_. }
  apply preserves_bind; [apply Hm; intros; apply proj_nextArbitrators | intros _].
  apply preserves_bind; [apply preserves_get | intros a0].
  apply preserves_bind; [| intros _].
  { destruct (_ && _); [| apply Hm; intros; apply proj_nextCandidates].
    destruct (GetNormalArbitratorsDesc _ _ _ _) as [producers | err].
    - apply preserves_bind; [apply Hm; intros; apply proj_nextArbitrators | intros _].
      apply preserves_bind; [apply preserves_lift | intros ?].
      apply Hm; intros; apply proj_nextCandidates.
    - apply preserves_bind; [| intros _; apply Hm; intros; apply proj_nextCandidates].
      unfold tryHandleError. case_bool_decide; [| apply preserves_fail].
      apply Hm; intros; apply proj_degradation_. }
  apply preserves_snapshot_tail; assumption.
Qed.
End UpdateFrame.

Lemma GetNormalArbitratorsDesc_params height count producers a1 a2 :
  chainParams a1 = chainParams a2 ->
  GetNormalArbitratorsDesc height count producers a1
  = GetNormalArbitratorsDesc height count producers a2.
Proof. intros E. unfold GetNormalArbitratorsDesc. rewrite E. reflexivity. Qed.

Lemma GetCandidatesDesc_params height count producers a1 a2 :
  chainParams a1 = chainParams a2 ->
  GetCandidatesDesc height count producers a1
  = GetCandidatesDesc height count producers a2.
Proof. intros E. unfold GetCandidatesDesc. rewrite E. reflexivity. Qed.

Lemma updateNextArbitrators_cases height a :
  let a' := (updateNextArbitrators height a).2 in
  let count := GeneralArbiters (chainParams a) in
  let voted :=
    sort_Slice votedLess (GetVotedProducers (currentArbitrators a) (State_ a)) in
  (nextArbitrators a' = crcNodeKeys a /\ nextCandidates a' = [] /\
   (degraded a' = true \/
    GetNormalArbitratorsDesc height count voted a = Err ErrInsufficientProducer)) \/
  (nextArbitrators a' = crcNodeKeys a /\ degraded a' = false /\
   exists e, GetNormalArbitratorsDesc height count voted a = Err e /\
             e <> ErrInsufficientProducer) \/
  (degraded a' = false /\
   exists producers candidates,
     GetNormalArbitratorsDesc height count voted a = Ok producers /\
     GetCandidatesDesc height count voted a = Ok candidates /\
     nextArbitrators a' = crcNodeKeys a ++ producers /\
     nextCandidates a' = candidates).
Proof.
  intros a' count voted.
  assert (Ea : a' = (updateNextArbitrators height a).2) by reflexivity.
  clearbody a'.
  unfold updateNextArbitrators in Ea.
  unfold bind at 1 2 3 in Ea. unfold modify at 1 2 in Ea. unfold get at 1 in Ea.
  cbn beta iota in Ea.
  destruct (InactiveModeSwitch height _ (degradation_ a)) as [[switched recover] d0].
  set (d := if recover then LeaveEmergency d0 else TryLeaveUnderStaffed _ d0) in Ea.
  set (a2 := set_nextArbitrators _ (set_degradation_ d a)) in Ea.
  assert (Hp : chainParams a2 = chainParams a) by reflexivity.
  change (crcNodeKeys a) with (nextArbitrators a2).
  change (GetVotedProducers (currentArbitrators a2) (State_ a2))
    with (GetVotedProducers (currentArbitrators a) (State_ a)) in Ea.
  fold voted in Ea. change (GeneralArbiters (chainParams a2)) with count in Ea.
  rewrite <- (GetNormalArbitratorsDesc_params height count voted a2 a Hp).
  rewrite <- (GetCandidatesDesc_params height count voted a2 a Hp).
  assert (Ht : forall a3,
            a' = (bind snapshotVotesStates
                    (fun _ => updateNextOwnerProgramHashes) a3).2 ->
            nextArbitrators a' = nextArbitrators a3 /\
            nextCandidates a' = nextCandidates a3 /\
            degraded a' = degraded a3).
  { intros a3 ->.
    pose proof (preserves_snapshot_tail
                  (fun a => (nextArbitrators a, nextCandidates a, degradation_ a))
                  ltac:(reflexivity) ltac:(reflexivity) ltac:(reflexivity)
                  ltac:(reflexivity) a3) as Ht.
    injection Ht as Ha Hc Hdeg.
    unfold degraded. rewrite Ha, Hc, Hdeg. repeat split. }
  destruct (negb (IsInactiveMode (degradation_ a2))
            && negb (IsUnderstaffedMode (degradation_ a2))) eqn:Emode.
  - assert (Hd : degraded a2 = false).
    { unfold degraded. apply andb_true_iff in Emode as [E1 E2].
      apply negb_true_iff in E1, E2. rewrite E1, E2. reflexivity. }
    destruct (GetNormalArbitratorsDesc height count voted a2) as [producers | e] eqn:En.
    + right; right.
      destruct (GetCandidatesDesc height count voted a2) as [candidates | e] eqn:Ec.
      2:{ unfold GetCandidatesDesc in Ec.
          repeat destruct (_ : bool) in Ec; discriminate. }
      unfold bind at 1 in Ea. unfold bind at 2 3 in Ea.
      unfold modify at 1 2 in Ea. unfold lift at 1 in Ea.
      cbn beta iota in Ea.
      apply Ht in Ea as (Ha & Hc & Hdeg).
      rewrite Ha, Hc, Hdeg.
      split; [exact Hd |]. exists producers, candidates. repeat split.
    + unfold tryHandleError in Ea. case_bool_decide as Ee.
      * subst e. left.
        unfold bind at 1 in Ea. unfold bind at 2 in Ea. unfold modify at 1 2 in Ea.
        cbn beta iota in Ea.
        apply Ht in Ea as (Ha & Hc & Hdeg).
        rewrite Ha, Hc. repeat split. right. reflexivity.
      * right; left. cbn in Ea. subst a'. split; [reflexivity | split; [exact Hd |]].
        exists e. split; [reflexivity | exact Ee].
  - left. unfold bind at 1 in Ea. unfold modify at 1 in Ea. cbn beta iota in Ea.
    apply Ht in Ea as (Ha & Hc & Hdeg).
    rewrite Ha, Hc, Hdeg. repeat split. left.
    unfold degraded. cbn.
    apply andb_false_iff in Emode as [E | E]; apply negb_false_iff in E;
      cbn in E; rewrite E; [reflexivity | apply orb_true_r].
Qed.

(** X10. Whatever [updateNextArbitrators] returns, the next arbitrators start
    with the node keys of all CRC arbiters; and when it leaves the chain in
    inactive or understaffed mode, the CRC arbiters are the whole next
    committee and there are no next candidates. *)
Theorem next_committee_crc height a :
  let a' := (updateNextArbitrators height a).2 in
  crcNodeKeys a `prefix_of` nextArbitrators a' /\
  (degraded a' = true ->
   nextArbitrators a' = crcNodeKeys a /\ nextCandidates a' = []).
Proof.
  intros a'.
  destruct (updateNextArbitrators_cases height a)
    as [(Ha & Hc & _) | [(Ha & Hd & _) | (Hd & ps & cs & _ & _ & Ha & _)]];
    fold a' in Ha; try fold a' in Hc; try fold a' in Hd.
  - split; [rewrite Ha; reflexivity | intros _; split; assumption].
  - split; [rewrite Ha; reflexivity | rewrite Hd; discriminate].
  - split; [rewrite Ha; apply prefix_app_r; reflexivity | rewrite Hd; discriminate].
Qed.


Lemma preserves_ForceChange_crc height :
  preserves crcArbitratorsNodePublicKey (ForceChange height).
Proof.
  unfold ForceChange.
  apply preserves_bind; [intros a; reflexivity | intros blk].
  apply preserves_bind; [| intros _].
  { apply preserves_clearingDPOSReward; reflexivity. }
  apply preserves_bind; [| intros _].
  - apply preserves_updateNextArbitrators_frame; reflexivity.
  - apply preserves_modify. reflexivity.
Qed.

Lemma crcNodeKeys_elem a k p :
  crcArbitratorsNodePublicKey a !! k = Some p ->
  NodePublicKey (info p) ∈ crcNodeKeys a.
Proof.
  intros Hk. unfold crcNodeKeys.
  apply (list_elem_of_fmap_2
           (fun kv : string * Producer => NodePublicKey (info kv.2)) _ (k, p)).
  apply elem_of_map_to_list, Hk.
Qed.

(** X12. After a forced change that succeeds every CRC arbiter is an
    arbitrator; if the chain is then in inactive or understaffed mode, the
    committee is the CRC arbiters and there are no candidates. *)
Theorem force_change_committee height a a' :
  ForceChange height a = (Ok tt, a') ->
  (forall k p, crcArbitratorsNodePublicKey a !! k = Some p ->
               IsArbitrator (NodePublicKey (info p)) a' = true) /\
  (degraded a' = true ->
   currentArbitrators a' ≡ₚ crcNodeKeys a /\ currentCandidates a' = []).
Proof.
  unfold ForceChange. unfold bind at 1. cbn beta iota.
  destruct (bestBlock a) as [blk | e]; [| discriminate].
  unfold bind at 1.
  pose proof (preserves_clearingDPOSReward crcArbitratorsNodePublicKey
                blk false) as Hclear.
  specialize (Hclear ltac:(reflexivity) ltac:(reflexivity) ltac:(reflexivity)
                ltac:(reflexivity) a).
  destruct (clearingDPOSReward blk false a) as [[[] | e] a1];
    [| discriminate].
  cbn in Hclear. unfold bind at 1.
  pose proof (updateNextArbitrators_cases (Int.uint32 (height + 1)) a1) as Hcases.
  cbv zeta in Hcases.
  destruct (updateNextArbitrators (Int.uint32 (height + 1)) a1) as [[[] | e] a2];
    [| discriminate].
  cbn in Hcases. intros [= <-]. cbn.
  assert (Hkeys : crcNodeKeys a1 = crcNodeKeys a).
  { unfold crcNodeKeys. rewrite Hclear. reflexivity. }
  rewrite Hkeys in Hcases.
  assert (Hpre : crcNodeKeys a `prefix_of` nextArbitrators a2).
  { destruct Hcases as [(Ha & _) | [(Ha & _) | (_ & ps & cs & _ & _ & Ha & _)]];
      rewrite Ha; [reflexivity | reflexivity | apply prefix_app_r; reflexivity]. }
  split.
  - intros k p Hk. unfold IsArbitrator. cbn.
    apply containsKey_elem_of. rewrite sort_Slice_Permutation.
    destruct Hpre as [rest ->]. apply elem_of_app. left.
    apply (crcNodeKeys_elem a k p Hk).
  - intros Hd. change (degraded a2 = true) in Hd.
    destruct Hcases as [(Ha & Hc & _) | [(_ & Hn & _) | (Hn & _)]];
      [| congruence | congruence].
    rewrite sort_Slice_Permutation, Ha, Hc. split; reflexivity.
Qed.

(** X13. A block that resolves to normalChange promotes the committee that
    was prepared before it: the current arbitrators are the former next
    arbitrators in sorted order, and the candidates and the owner hashes are
    the former next ones. A forced change promotes the committee it has just
    computed, so afterwards the current and the next committee coincide. *)
Theorem promotion_source a block height :
  (forall a',
     (getChangeType (Int.uint32 (Height block + 1)) a).1 = normalChange ->
     IncreaseChainHeight block a = Returns a' ->
     currentArbitrators a' = sort_Slice bytes_less (nextArbitrators a) /\
     currentCandidates a' = nextCandidates a /\
     currentOwnerProgramHashes a' = nextOwnerProgramHashes a /\
     candidateOwnerProgramHashes a' = nextCandidateOwnerProgramHashes a) /\
  (forall a',
     ForceChange height a = (Ok tt, a') ->
     currentArbitrators a' = nextArbitrators a' /\
     currentCandidates a' = nextCandidates a' /\
     currentOwnerProgramHashes a' = nextOwnerProgramHashes a' /\
     candidateOwnerProgramHashes a' = nextCandidateOwnerProgramHashes a').
Proof.
  split.
  - intros a' Hc. unfold IncreaseChainHeight.
    destruct (getChangeType _ a) as [changeType versionHeight].
    simpl in Hc. subst changeType.
    unfold bind at 1.
    pose proof (preserves_clearingDPOSReward
                  (fun a => (nextArbitrators a, nextCandidates a,
                             nextOwnerProgramHashes a,
                             nextCandidateOwnerProgramHashes a))
                  block true ltac:(reflexivity) ltac:(reflexivity)
                  ltac:(reflexivity) ltac:(reflexivity) a) as Hclear.
    destruct (clearingDPOSReward block true a) as [[[] | e] a1];
      [| discriminate].
    cbn in Hclear. injection Hclear as <- <- <- <-.
    unfold NormalChange, bind, changeCurrentArbitrators, modify.
    set (a2 := set_dutyIndex 0 _).
    pose proof (preserves_updateNextArbitrators_frame
                  (fun a => (currentArbitrators a, currentCandidates a,
                             currentOwnerProgramHashes a,
                             candidateOwnerProgramHashes a))
                  ltac:(reflexivity) ltac:(reflexivity) ltac:(reflexivity)
                  ltac:(reflexivity) ltac:(reflexivity) ltac:(reflexivity)
                  ltac:(reflexivity) (Int.uint32 (Height block + 1)) a2) as Hu.
    destruct (updateNextArbitrators _ a2) as [[[] | e] a3]; [| discriminate].
    intros [= <-]. subst a2. cbn in Hu. injection Hu as E1 E2 E3 E4.
    cbn. rewrite E1, E2, E3, E4. repeat split.
  - intros a'. unfold ForceChange, bind.
    destruct (bestBlock a) as [blk | e]; [| discriminate].
    destruct (clearingDPOSReward blk false a) as [[[] | e] a1];
      [| discriminate].
    destruct (updateNextArbitrators _ a1) as [[[] | e] a2]; [| discriminate].
    intros [= <-]. repeat split.
Qed.

(** ** Duty positions and rollback *)

(** X14. With a committee that is not empty and a duty index that is not
    negative, [GetDutyIndexByHeight] returns a position of the committee;
    from [CRCOnlyDPOSHeight] on the arbitrator at that position is the one
    [GetNextOnDutyArbitratorV] reports for offset 0, and below
    [CRCOnlyDPOSHeight - 1] the position is the height modulo the size of the
    committee. *)
Theorem duty_index_by_height a height :
  1 <= CRCOnlyDPOSHeight (chainParams a) < 2 ^ 32 ->
  currentArbitrators a <> [] ->
  0 <= dutyIndex a <= Int.max_int64 ->
  0 <= height < 2 ^ 32 ->
  exists index,
    GetDutyIndexByHeight height a = Returns index /\
    0 <= index < len (currentArbitrators a) /\
    (CRCOnlyDPOSHeight (chainParams a) <= height ->
     exists arbiter,
       currentArbitrators a !! Z.to_nat index = Some arbiter /\
       GetNextOnDutyArbitratorV height 0 a = Returns (Some arbiter)) /\
    (height < CRCOnlyDPOSHeight (chainParams a) - 1 ->
     index = height mod len (currentArbitrators a)).
Proof.
  intros Hh1 Hne Hd Hh. unfold Int.max_int64 in Hd.
  pose proof (len_pos _ Hne) as Hpos.
  unfold GetDutyIndexByHeight.
  rewrite uint32_small by lia.
  destruct (Z.eqb_spec (len (currentArbitrators a)) 0) as [E | _]; [lia |].
  destruct (Z.leb_spec (CRCOnlyDPOSHeight (chainParams a) - 1) height) as [Hge | Hlt].
  - eexists. split; [reflexivity |].
    rewrite rem_mod_nonneg by lia.
    pose proof (Z.mod_pos_bound (dutyIndex a) _ Hpos) as Hb.
    split; [exact Hb | split; [| lia]].
    intros Hge'. destruct (lookup_Z_lt (currentArbitrators a) _ Hb) as [arbiter Ha].
    exists arbiter. split; [exact Ha |].
    unfold GetNextOnDutyArbitratorV.
    destruct (Z.leb_spec (CRCOnlyDPOSHeight (chainParams a)) height); [| lia].
    destruct (Z.eqb_spec (len (currentArbitrators a)) 0) as [E | _]; [lia |].
    rewrite Z.add_0_r, int64_small by lia.
    rewrite rem_mod_nonneg by lia.
    destruct (Z.ltb_spec (dutyIndex a mod len (currentArbitrators a)) 0); [lia |].
    rewrite Ha. reflexivity.
  - eexists. split; [reflexivity |].
    rewrite rem_mod_nonneg by lia.
    split; [apply Z.mod_pos_bound, Hpos | split; [lia | reflexivity]].
Qed.

(** X15. From [CRCOnlyDPOSHeight - 1] on, [GetOnDutyCrossChainArbitrator]
    panics when there is no CRC arbiter; otherwise it returns the CRC arbiter
    at position [(bestHeight - CRCOnlyDPOSHeight + 1) mod n] of the sorted
    list, leaves the field [crcArbiters] sorted, and a second call returns
    the same arbiter and changes nothing more. *)
Theorem cross_chain_on_duty a bestHeight :
  1 <= CRCOnlyDPOSHeight (chainParams a) ->
  CRCOnlyDPOSHeight (chainParams a) - 1 <= bestHeight < 2 ^ 32 ->
  let sorted := sort_Slice bytes_less (crcArbiters a) in
  let a' := set_crcArbiters sorted a in
  (crcArbiters a = [] ->
   (GetOnDutyCrossChainArbitrator bestHeight a).1 = Panics) /\
  (crcArbiters a <> [] ->
   exists arbiter,
     GetOnDutyCrossChainArbitrator bestHeight a = (Returns (Some arbiter), a') /\
     sorted !! Z.to_nat ((bestHeight - CRCOnlyDPOSHeight (chainParams a) + 1)
                         mod len (crcArbiters a)) = Some arbiter /\
     arbiter ∈ crcArbiters a /\
     GetOnDutyCrossChainArbitrator bestHeight a' = (Returns (Some arbiter), a')).
Proof.
  intros Hh1 Hb sorted a'.
  assert (Hlen : len sorted = len (crcArbiters a)).
  { unfold len, sorted. rewrite sort_Slice_length. reflexivity. }
  assert (Hperm : sorted ≡ₚ crcArbiters a) by apply sort_Slice_Permutation.
  assert (Hidem : sort_Slice bytes_less sorted = sorted).
  { apply sorted_bytes_unique; try apply sort_Slice_bytes_Sorted.
    apply sort_Slice_Permutation. }
  assert (Hcall : forall a0,
            chainParams a0 = chainParams a ->
            sort_Slice bytes_less (crcArbiters a0) = sorted ->
            GetOnDutyCrossChainArbitrator bestHeight a0
            = if len sorted =? 0 then (Panics, set_crcArbiters sorted a0)
              else match sorted !! Z.to_nat
                           ((bestHeight - CRCOnlyDPOSHeight (chainParams a) + 1)
                            mod len sorted) with
                   | Some arbiter => (Returns (Some arbiter), set_crcArbiters sorted a0)
                   | None => (Panics, set_crcArbiters sorted a0)
                   end).
  { intros a0 Hp Hs. unfold GetOnDutyCrossChainArbitrator.
    rewrite Hp, Hs, (uint32_small (_ - 1)) by lia.
    destruct (Z.ltb_spec bestHeight (CRCOnlyDPOSHeight (chainParams a) - 1)); [lia |].
    destruct (Z.eqb_spec (len sorted) 0) as [E | Hn]; [reflexivity |].
    cbn [chainParams set_crcArbiters]. rewrite Hp.
    rewrite uint32_small by lia.
    pose proof (len_nonneg sorted).
    rewrite rem_mod_nonneg by lia. reflexivity. }
  split.
  - intros Hnil. rewrite (Hcall a eq_refl eq_refl).
    unfold sorted. rewrite Hnil. reflexivity.
  - intros Hne. pose proof (len_pos _ Hne) as Hpos.
    rewrite Hlen in Hcall.
    assert (Hi : 0 <= (bestHeight - CRCOnlyDPOSHeight (chainParams a) + 1)
                      mod len (crcArbiters a) < len sorted).
    { rewrite Hlen. apply Z.mod_pos_bound, Hpos. }
    destruct (lookup_Z_lt sorted _ Hi) as [arbiter Ha].
    exists arbiter.
    assert (Hres : forall a0, chainParams a0 = chainParams a ->
              sort_Slice bytes_less (crcArbiters a0) = sorted ->
              GetOnDutyCrossChainArbitrator bestHeight a0
              = (Returns (Some arbiter), set_crcArbiters sorted a0)).
    { intros a0 Hp Hs. rewrite (Hcall a0 Hp Hs).
      destruct (Z.eqb_spec (len (crcArbiters a)) 0); [lia |].
      rewrite Ha. reflexivity. }
    split; [apply Hres; reflexivity | split; [exact Ha | split]].
    + rewrite <- Hperm. apply (list_elem_of_lookup_2 _ _ _ Ha).
    + rewrite (Hres a' eq_refl Hidem). reflexivity.
Qed.

(** X16. Rolling back the one block that advanced the duty index brings the
    duty index back and keeps the committee, but the reward that the block
    added to the pending reward stays. *)
Theorem rollback_one_block rollbackDegradation a block a' historyHeight height :
  (getChangeType (Int.uint32 (Height block + 1)) a).1 = none ->
  0 <= dutyIndex a < Int.max_int64 ->
  IncreaseChainHeight block a = Returns a' ->
  Int.uint32 (historyHeight - height) = 1 ->
  exists a'',
    DecreaseChainHeight rollbackDegradation historyHeight height a' = (Ok tt, a'') /\
    dutyIndex a'' = dutyIndex a /\
    currentArbitrators a'' = currentArbitrators a /\
    accumulativeReward a'' = accumulativeReward a' /\
    (PublicDPOSHeight (chainParams a) < Height block ->
     accumulativeReward a''
     = Int.int64 (accumulativeReward a + getBlockDPOSReward block a)).
Proof.
  intros Hn Hd Hinc Hoff. unfold Int.max_int64 in Hd.
  rewrite (IncreaseChainHeight_none a block Hn) in Hinc.
  injection Hinc as <-.
  unfold DecreaseChainHeight. rewrite Hoff.
  cbn [dutyIndex set_degradation_ set_illegalBlocksPayloadHashes set_dutyIndex].
  rewrite accumulateReward_dutyIndex, int64_small by lia.
  destruct (Z.eqb_spec (dutyIndex a + 1) 0); [lia |].
  destruct (Z.ltb_spec (dutyIndex a + 1) 1); [lia |].
  cbn [orb]. eexists. split; [reflexivity |].
  cbn. rewrite int64_small by lia.
  split; [lia | split; [| split; [reflexivity |]]].
  { unfold accumulateReward. destruct (_ <=? _); reflexivity. }
  intros Hh. unfold accumulateReward.
  destruct (Z.leb_spec (Height block) (PublicDPOSHeight (chainParams a))); [lia |].
  reflexivity.
Qed.

(** ** Quorums *)

(** X17. In a committee of n members, 1 <= n <= 256: two counts that both
    pass [HasArbitersMajorityCount] overlap in more than (n - 1) / 3
    members; a count passes [HasArbitersMinorityCount] exactly when the
    remaining members do not pass [HasArbitersMajorityCount]; and a count
    that passes the majority test passes the minority test. *)
Theorem quorum_intersection a n :
  len (currentArbitrators a) = n -> 1 <= n <= 256 ->
  (forall m1 m2,
     HasArbitersMajorityCount m1 a = true ->
     HasArbitersMajorityCount m2 a = true ->
     (n - 1) / 3 < m1 + m2 - n) /\
  (forall m, 0 <= m <= n ->
     HasArbitersMinorityCount m a = negb (HasArbitersMajorityCount (n - m) a)) /\
  (forall m,
     HasArbitersMajorityCount m a = true -> HasArbitersMinorityCount m a = true).
Proof.
  intros Hlen Hn.
  assert (Hmaj : GetArbitersMajorityCount a = n * 2 / 3).
  { unfold GetArbitersMajorityCount. rewrite Hlen. apply majorityOf_floor, Hn. }
  assert (Hq : 3 * (n * 2 / 3) <= n * 2 < 3 * (n * 2 / 3) + 3).
  { pose proof (Z.div_mod (n * 2) 3 ltac:(lia)).
    pose proof (Z.mod_pos_bound (n * 2) 3 ltac:(lia)). lia. }
  assert (Ht : 3 * ((n - 1) / 3) <= n - 1).
  { pose proof (Z.div_mod (n - 1) 3 ltac:(lia)).
    pose proof (Z.mod_pos_bound (n - 1) 3 ltac:(lia)). lia. }
  unfold HasArbitersMajorityCount, HasArbitersMinorityCount.
  rewrite Hmaj, Hlen. rewrite int64_small by lia.
  split; [| split].
  - intros m1 m2 H1%Z.ltb_lt H2%Z.ltb_lt. lia.
  - intros m Hm.
    destruct (Z.leb_spec (n - n * 2 / 3) m), (Z.ltb_spec (n * 2 / 3) (n - m));
      simpl; try reflexivity; lia.
  - intros m Hm%Z.ltb_lt. apply Z.leb_le. lia.
Qed.

End FurtherProperties.

(** ** Countdown *)

Lemma uint32_odd x : Z.odd (Int.uint32 x) = Z.odd x.
Proof.
  unfold Int.uint32.
  rewrite <- !Z.bit0_odd. apply Z.mod_pow2_bits_low. lia.
Qed.

(** X18. After [Reset], n + 1 calls of [SetEliminated] leave the factor at
    1 + 240 * n in [uint32]: the first call adds [firstTimeoutFactor] and
    every later call [othersTimeoutFactor]; the factor is odd, so it never
    comes back to 0. *)
Theorem eliminated_factor (c : manager.ViewChangesCountDown) (n : nat) :
  let c' := Nat.iter (S n) manager.SetEliminated (manager.Reset c) in
  manager.timeoutRefactor c' = Int.uint32 (1 + 240 * Z.of_nat n) /\
  manager.timeoutRefactor c' <> 0 /\
  manager.inactiveArbitratorsEliminated c' = true.
Proof.
  induction n as [| n IH].
  - cbn. repeat split. discriminate.
  - cbv zeta in IH. destruct IH as (Hf & Hne & _).
    set (c1 := Nat.iter (S n) manager.SetEliminated (manager.Reset c)) in *.
    cbv zeta. change (Nat.iter (S (S n)) manager.SetEliminated (manager.Reset c))
      with (manager.SetEliminated c1).
    unfold manager.SetEliminated.
    destruct (Z.eqb_spec (manager.timeoutRefactor c1) 0) as [E | _]; [contradiction |].
    cbn [manager.timeoutRefactor manager.set_countdown
         manager.inactiveArbitratorsEliminated].
    assert (Hv : Int.uint32 (manager.timeoutRefactor c1 + manager.othersTimeoutFactor)
                 = Int.uint32 (1 + 240 * Z.of_nat (S n))).
    { rewrite Hf. unfold Int.uint32, manager.othersTimeoutFactor.
      rewrite Zplus_mod_idemp_l. f_equal. lia. }
    rewrite Hv. repeat split.
    intros E0.
    assert (Ho : Z.odd (Int.uint32 (1 + 240 * Z.of_nat (S n))) = true).
    { rewrite uint32_odd. replace (1 + 240 * Z.of_nat (S n))
        with (2 * (120 * Z.of_nat (S n)) + 1) by lia.
      apply Z.odd_odd. }
    rewrite E0 in Ho. discriminate.
Qed.

(** ** The cache of consensus blocks *)

Lemma AddValues_spec kvs : forall c blocks,
  blockcache.ConsensusBlocks c = Some blocks ->
  blockcache.AddValues kvs c
  = Returns
      {| blockcache.ConsensusBlocks :=
           Some (foldl (fun m kv => <[kv.1 := kv.2]> m) blocks kvs);
         blockcache.ConsensusBlockList := blockcache.ConsensusBlockList c ++ kvs.*1;
         blockcache.Listener := blockcache.Listener c;
         blockcache.notified :=
           if blockcache.Listener c then blockcache.notified c ++ kvs.*2
           else blockcache.notified c |}.
Proof.
  induction kvs as [| [k v] kvs IH]; intros c blocks Hb; simpl.
  - rewrite !app_nil_r. destruct c; simpl in *. subst. 
    destruct Listener; reflexivity.
  - unfold blockcache.AddValue. rewrite Hb.
    erewrite IH by reflexivity. simpl. rewrite <- !app_assoc. simpl.
    destruct (blockcache.Listener c); rewrite <- ?app_assoc; reflexivity.
Qed.

(** X19. On a cache whose map is allocated (as [Reset] leaves it), [AddValue]
    returns, the added block is what [TryGetValue] finds under its key, the
    other keys find what they found before, and the first arrived hash stays
    the one it was (the new key only when the list was empty). On a cache
    whose map was never allocated [AddValue] panics, while [TryGetValue]
    finds nothing. *)
Theorem cache_add_lookup (c : blockcache.ConsensusBlockCache) key value :
  (blockcache.ConsensusBlocks c = None ->
   blockcache.AddValue key value c = Panics /\
   blockcache.TryGetValue key c = None) /\
  (blockcache.ConsensusBlocks c <> None ->
   exists c',
     blockcache.AddValue key value c = Returns c' /\
     blockcache.TryGetValue key c' = Some value /\
     (forall k, k <> key ->
        blockcache.TryGetValue k c' = blockcache.TryGetValue k c) /\
     blockcache.GetFirstArrivedBlockHash c'
     = (if (blockcache.GetFirstArrivedBlockHash c).2
        then blockcache.GetFirstArrivedBlockHash c else (key, true))).
Proof.
  unfold blockcache.AddValue, blockcache.TryGetValue,
    blockcache.GetFirstArrivedBlockHash.
  split.
  - intros ->. split; reflexivity.
  - intros Hb. destruct (blockcache.ConsensusBlocks c) as [blocks |]; [| contradiction].
    eexists. split; [reflexivity |]. cbn.
    split; [apply lookup_insert_eq | split].
    + intros k Hk. apply lookup_insert_ne. congruence.
    + destruct (blockcache.ConsensusBlockList c); reflexivity.
Qed.

Lemma foldl_insert_keys (l : list (Uint256 * Block)) : forall (m : gmap Uint256 Block) k,
  is_Some (foldl (fun m kv => <[kv.1 := kv.2]> m) m l !! k)
  <-> is_Some (m !! k) \/ k ∈ l.*1.
Proof.
  induction l as [| [k0 v0] l IH]; intros m k; simpl.
  - rewrite elem_of_nil. tauto.
  - rewrite IH, lookup_insert_is_Some', elem_of_cons. intuition congruence.
Qed.

Lemma foldl_insert_last (l : list (Uint256 * Block)) : forall (m : gmap Uint256 Block) k v,
  k ∉ l.*1 -> m !! k = Some v ->
  foldl (fun m kv => <[kv.1 := kv.2]> m) m l !! k = Some v.
Proof.
  induction l as [| [k0 v0] l IH]; intros m k v Hnin Hm; simpl; [exact Hm |].
  simpl in Hnin. apply not_elem_of_cons in Hnin as [Hne Hnin].
  apply IH; [exact Hnin |]. rewrite lookup_insert_ne by congruence. exact Hm.
Qed.

(** X20. After [Reset], a run of [AddValue] calls returns; the list holds the
    keys in the order of the calls, duplicates included; a key is found by
    [TryGetValue] exactly when it is in the list, with the block of the last
    call for that key; and a listener, when one is set, has been handed the
    blocks in the order of the calls. *)
Theorem cache_after_reset (c : blockcache.ConsensusBlockCache)
    (kvs : list (Uint256 * Block)) :
  exists c',
    blockcache.AddValues kvs (blockcache.Reset c) = Returns c' /\
    blockcache.ConsensusBlockList c' = kvs.*1 /\
    (forall k, is_Some (blockcache.TryGetValue k c') <-> k ∈ kvs.*1) /\
    (forall kvs1 k v kvs2,
       kvs = kvs1 ++ (k, v) :: kvs2 -> k ∉ kvs2.*1 ->
       blockcache.TryGetValue k c' = Some v) /\
    blockcache.notified c'
    = (if blockcache.Listener c then blockcache.notified c ++ kvs.*2
       else blockcache.notified c).
Proof.
  eexists. split; [apply (AddValues_spec kvs (blockcache.Reset c) ∅ eq_refl) |].
  unfold blockcache.TryGetValue. cbn.
  split; [reflexivity | split; [| split; [| reflexivity]]].
  - intros k. rewrite foldl_insert_keys, lookup_empty.
    split; [intros [[? [=]] | Hin]; exact Hin | intros Hin; right; exact Hin].
  - intros kvs1 k v kvs2 -> Hnin. rewrite foldl_app. simpl.
    apply foldl_insert_last; [exact Hnin | apply lookup_insert_eq].
Qed.

(** ** The properties on the sample host *)

#[local] Existing Instance Sample.host.

Lemma majority_arithmetic_witness :
  GetArbitersMajorityCount Sample.understaffed = 2 * 2 / 3 /\
  (forall m, HasArbitersMajorityCount m Sample.understaffed = true
             <-> m > 2 * 2 / 3) /\
  (forall m, HasArbitersMinorityCount m Sample.understaffed = true
             <-> m >= 2 - 2 * 2 / 3).
Proof.
  apply (majority_arithmetic Sample.understaffed 2); [reflexivity | lia].
Defined.

Lemma change_type_schedule_witness :
  getChangeType 90 Sample.crcOnly = (updateNext, 100) /\
  getChangeType 100 Sample.crcOnly = (normalChange, 100) /\
  getChangeType 190 Sample.crcOnly = (updateNext, 200) /\
  getChangeType 200 Sample.crcOnly = (normalChange, 200) /\
  getChangeType 251 (set_dutyIndex 1 Sample.understaffed) = (normalChange, 251) /\
  getChangeType 251 Sample.understaffed = (none, 251).
Proof.
  split; [| split; [| split; [| split; [| split]]]].
  - destruct (change_type_schedule Sample.crcOnly 90) as (S & ? & ? & ? & ? & ?).
    apply S;
      first [ reflexivity
            | intros [_ E]; vm_compute in E; discriminate E
            | intros E; vm_compute in E; discriminate E ].
  - destruct (change_type_schedule Sample.crcOnly 100) as (? & S & ? & ? & ? & ?).
    apply S;
      first [ reflexivity
            | intros [_ E]; vm_compute in E; discriminate E
            | intros E; vm_compute in E; discriminate E ].
  - destruct (change_type_schedule Sample.crcOnly 190) as (? & ? & S & ? & ? & ?).
    apply S;
      first [ reflexivity
            | intros [_ E]; vm_compute in E; discriminate E
            | intros E; vm_compute in E; discriminate E ].
  - destruct (change_type_schedule Sample.crcOnly 200) as (? & ? & ? & S & ? & ?).
    apply S;
      first [ reflexivity
            | intros [_ E]; vm_compute in E; discriminate E
            | intros E; vm_compute in E; discriminate E ].
  - destruct (change_type_schedule (set_dutyIndex 1 Sample.understaffed) 251) as (? & ? & ? & ? & S & ?).
    apply S;
      first [ reflexivity
            | intros [_ E]; vm_compute in E; discriminate E
            | intros E; vm_compute in E; discriminate E ].
  - destruct (change_type_schedule Sample.understaffed 251) as (? & ? & ? & ? & ? & S).
    apply S;
      first [ reflexivity
            | intros [_ E]; vm_compute in E; discriminate E
            | intros E; vm_compute in E; discriminate E ].
Defined.

Lemma on_duty_lookup_witness :
  exists arbiter,
    currentArbitrators Sample.understaffed
      !! Z.to_nat ((dutyIndex Sample.understaffed + 3)
                   mod len (currentArbitrators Sample.understaffed))
    = Some arbiter /\
    GetNextOnDutyArbitratorV 301 3 Sample.understaffed = Returns (Some arbiter).
Proof.
  apply (on_duty_lookup Sample.understaffed 301 3).
  - simpl. lia.
  - discriminate.
  - simpl. lia.
  - lia.
  - unfold Int.max_int64. simpl. lia.
Defined.

(** The lookup on an empty committee is nil; with a negative [dutyIndex]
    (outside the rotation) Go's [%] gives a negative index and the lookup
    panics. *)
Example on_duty_lookup_edges :
  GetNextOnDutyArbitratorV 301 0 (set_currentArbitrators [] Sample.understaffed)
  = Returns None /\
  GetNextOnDutyArbitratorV 301 0 (set_dutyIndex (-1) Sample.understaffed)
  = Panics.
Proof. vm_compute. split; reflexivity. Qed.

Lemma duty_monotonicity_witness :
  (exists a', IncreaseChainHeight Sample.block250 Sample.understaffed
              = Returns a' /\
              dutyIndex a' = dutyIndex Sample.understaffed + 1) /\
  (forall a', IncreaseChainHeight Sample.block199 Sample.crcOnly
              = Returns a' -> dutyIndex a' = 0).
Proof.
  split.
  - apply (duty_monotonicity Sample.understaffed Sample.block250).
    + reflexivity.
    + unfold Int.min_int64, Int.max_int64. simpl. lia.
  - intros a'.
    apply (duty_monotonicity Sample.crcOnly Sample.block199).
    reflexivity.
Defined.

(** A real settlement first: clearing block 250 on the committee with votes
    pays 3 and 2 out of the pending 7 and keeps a residual of 2. The next
    block, of change type none, makes both getters forget it. *)
Lemma accumulate_resets_ledger_witness :
  let a := (clearingDPOSReward Sample.block250 false Sample.voted).2 in
  GetArbitersRoundReward a
  = Some {[ CRCAddress Sample.params := 0; 7 := 3; 8 := 2 ]} /\
  GetFinalRoundChange a = 2 /\
  exists a', IncreaseChainHeight (Sample.block 251 [1]) a = Returns a' /\
             GetArbitersRoundReward a' = None /\
             GetFinalRoundChange a' = 0.
Proof.
  destruct (accumulate_resets_ledger
              (clearingDPOSReward Sample.block250 false Sample.voted).2
              (Sample.block 251 [1]))
    as (Hledger & Hresidual & Hreset).
  - vm_compute. reflexivity.
  - vm_compute. reflexivity.
  - split; [| split].
    + rewrite Hledger. vm_compute. reflexivity.
    + rewrite Hresidual. vm_compute. reflexivity.
    + exact Hreset.
Defined.

Lemma accumulate_reward_witness :
  (exists a',
     IncreaseChainHeight Sample.block250 Sample.understaffed = Returns a' /\
     accumulativeReward a'
     = accumulativeReward Sample.understaffed + (35 * (3 + 4 + 20) + 99) / 100) /\
  (exists a',
     IncreaseChainHeight (Sample.block 189 [3; 4]) Sample.crcOnly = Returns a' /\
     accumulativeReward a' = accumulativeReward Sample.crcOnly) /\
  (exists a',
     IncreaseChainHeight Sample.block199 Sample.crcOnly = Returns a' /\
     accumulativeReward a' = 10).
Proof.
  split; [| split].
  - destruct (accumulate_reward Sample.understaffed Sample.block250)
      as (Hnone & _).
    destruct Hnone as (a' & Hr & _ & Hexact & _); [reflexivity |].
    exists a'. split; [exact Hr |].
    apply Hexact.
    + simpl. lia.
    + vm_compute. split; congruence.
    + vm_compute. congruence.
    + vm_compute. congruence.
  - destruct (accumulate_reward Sample.crcOnly (Sample.block 189 [3; 4]))
      as (_ & Hbelow & _).
    eexists. split; [vm_compute; reflexivity |].
    apply Hbelow.
    + vm_compute. discriminate.
    + simpl. lia.
    + vm_compute. reflexivity.
  - destruct (accumulate_reward Sample.crcOnly Sample.block199)
      as (_ & _ & _ & Hnormal).
    eexists. split; [vm_compute; reflexivity |].
    etransitivity;
      [apply Hnormal; [reflexivity | vm_compute; reflexivity] |].
    vm_compute. reflexivity.
Defined.

(** The share of a block with fees 3 and 4 and a reward per block of 20 is
    ceil(27 * 0.35) = 10. *)
Example getBlockDPOSReward_sample :
  getBlockDPOSReward Sample.block250 Sample.understaffed = 10.
Proof. vm_compute. reflexivity. Qed.

(** C8 as stated fails for the block at height H2 - 1 = 199, which is not
    above [PublicDPOSHeight]: it resolves to normalChange, and
    [clearingDPOSReward] replaces the pending reward 7 by the share of the
    block, 10. *)
Lemma accumulate_reward_at_change_height :
  Height Sample.block199 <= PublicDPOSHeight (chainParams Sample.crcOnly) /\
  exists a',
    IncreaseChainHeight Sample.block199 Sample.crcOnly = Returns a' /\
    accumulativeReward Sample.crcOnly = 7 /\
    accumulativeReward a' = 10 /\
    accumulativeReward a' <> accumulativeReward Sample.crcOnly.
Proof.
  split; [simpl; lia |].
  eexists. split; [vm_compute; reflexivity |].
  split; [reflexivity |]. split; [reflexivity | discriminate].
Qed.

Lemma check_illegal_tx_witness :
  CheckDPOSIllegalTx (Sample.block 301 [1]) Sample.understaffed = Returns None /\
  exists r,
    CheckDPOSIllegalTx
      {| Height := 301; Transactions := [Sample.illegalBlockTx 5] |}
      Sample.expecting = Returns r /\
    (r = None \/ r = Some ErrExpectIllegalBlocksTx) /\
    (r <> None <->
     illegalBlocksPayloadHashes Sample.expecting <> ∅ /\
     exists h, is_Some (illegalBlocksPayloadHashes Sample.expecting !! h) /\
               h ∉ illegalBlockTxHashes [Sample.illegalBlockTx 5]).
Proof.
  split.
  - apply (check_illegal_tx Sample.understaffed (Sample.block 301 [1])).
    reflexivity.
  - apply (check_illegal_tx Sample.expecting
             {| Height := 301; Transactions := [Sample.illegalBlockTx 5] |}).
    constructor; [| constructor].
    intros _. exists 5. reflexivity.
Defined.

(** The expected evidence present, absent, and replaced by other evidence. *)
Example CheckDPOSIllegalTx_samples :
  CheckDPOSIllegalTx
    {| Height := 301; Transactions := [Sample.illegalBlockTx 5] |}
    Sample.expecting = Returns None /\
  CheckDPOSIllegalTx (Sample.block 301 [1]) Sample.expecting
  = Returns (Some ErrExpectIllegalBlocksTx) /\
  CheckDPOSIllegalTx
    {| Height := 301; Transactions := [Sample.illegalBlockTx 6] |}
    Sample.expecting = Returns (Some ErrExpectIllegalBlocksTx) /\
  CheckDPOSIllegalTx (Sample.block 301 [1]) Sample.understaffed = Returns None.
Proof. vm_compute. repeat split; reflexivity. Qed.

(** C3 as stated fails for a [DPOSIllegalProposals] payload: it is rejected
    with the invalid-payload error, its hash is not recorded and no change is
    forced. *)
Lemma special_payload_illegal_proposals :
  ProcessSpecialTxPayload (DPOSIllegalProposals 5) 300 Sample.understaffed
  = (Err ErrInvalidPayloadType, Sample.understaffed) /\
  illegalBlocksPayloadHashes
    (ProcessSpecialTxPayload (DPOSIllegalProposals 5) 300 Sample.understaffed).2
  !! 5 = None.
Proof. split; reflexivity. Qed.

(** An illegal-blocks payload on the sample committee: the hash is recorded
    and the change is forced. *)
Example special_payload_illegal_blocks :
  let r := ProcessSpecialTxPayload (DPOSIllegalBlocks 5) 300 Sample.understaffed in
  r.1 = Ok tt /\
  illegalBlocksPayloadHashes r.2 !! 5 = Some tt /\
  dutyIndex r.2 = 0 /\
  currentArbitrators r.2 = [[2]; [3]].
Proof. vm_compute. repeat split; reflexivity. Qed.

(** C1, at a settlement with no votes in the round. The forced change on the
    understaffed committee settles the pending reward 7: the ledger credits 7
    to the CRC address and the residual is 7 as well, so ledger plus residual
    is 14 and not the 7 that were distributed. *)
Theorem reward_conservation_zero_votes :
  let r := ForceChange 300 Sample.understaffed in
  accumulativeReward Sample.understaffed = 7 /\
  totalVotesInRound Sample.understaffed = 0 /\
  r.1 = Ok tt /\
  arbitersRoundReward r.2 = Some {[ CRCAddress Sample.params := 7 ]} /\
  finalRoundChange r.2 = 7 /\
  sumRoundReward (roundReward r.2) + finalRoundChange r.2 = 14 /\
  sumRoundReward (roundReward r.2) + finalRoundChange r.2
  <> accumulativeReward Sample.understaffed.
Proof.
  vm_compute. repeat split; try reflexivity; discriminate.
Qed.

(** A settlement of 1000 with votes in the round: 166 to the CRC address,
    533 to the elected arbiter, 300 to the candidate, residual 1. *)
Example settlement_with_votes_sample :
  let r := distributeDPOSReward 1000 Sample.voted in
  r.1 = Ok tt /\
  arbitersRoundReward r.2
  = Some {[ CRCAddress Sample.params := 166; 7 := 533; 8 := 300 ]} /\
  finalRoundChange r.2 = 1 /\
  sumRoundReward (roundReward r.2) + finalRoundChange r.2 = 1000.
Proof. vm_compute. repeat split; reflexivity. Qed.

(** ** The further properties on the sample hosts *)

Lemma clearingDPOSReward_idempotent_witness :
  exists a1,
    clearingDPOSReward Sample.block250 false Sample.understaffed = (Ok tt, a1) /\
    clearingDPOSReward Sample.block250 true a1 = (Ok tt, a1).
Proof.
  eexists. split; [vm_compute; reflexivity |].
  apply (clearingDPOSReward_idempotent Sample.block250 false true
           Sample.understaffed).
  vm_compute. reflexivity.
Defined.

Lemma residual_never_negative_witness :
  (forall block a', IncreaseChainHeight block Sample.understaffed = Returns a' ->
                    0 <= finalRoundChange a') /\
  (forall height, 0 <= finalRoundChange (ForceChange height Sample.understaffed).2) /\
  (forall p height,
     0 <= finalRoundChange (ProcessSpecialTxPayload p height Sample.understaffed).2).
Proof.
  apply (residual_never_negative Sample.understaffed). simpl. lia.
Defined.

Lemma normal_change_without_owners_panics_witness :
  let a := set_currentOwnerProgramHashes [] (set_dutyIndex 1 Sample.understaffed) in
  (forall smooth,
     (clearingDPOSReward Sample.block250 smooth a).1 = Err ErrNotFoundArbiters) /\
  IncreaseChainHeight Sample.block250 a = Panics.
Proof.
  apply (normal_change_without_owners_panics
           (set_currentOwnerProgramHashes [] (set_dutyIndex 1 Sample.understaffed))
           Sample.block250).
  - reflexivity.
  - vm_compute. reflexivity.
  - vm_compute. discriminate.
  - reflexivity.
Defined.

Lemma evidence_demanded_once_witness :
  exists a1,
    ProcessSpecialTxPayload (DPOSIllegalBlocks 5) 300 Sample.understaffed
    = (Ok tt, a1) /\
    CheckDPOSIllegalTx (Sample.block 301 [1]) a1
    = Returns (Some ErrExpectIllegalBlocksTx) /\
    CheckDPOSIllegalTx
      {| Height := 301; Transactions := [Sample.illegalBlockTx 5] |} a1
    = Returns None /\
    exists a2,
      IncreaseChainHeight (Sample.block 301 [1]) a1 = Returns a2 /\
      forall block', CheckDPOSIllegalTx block' a2 = Returns None.
Proof.
  eexists. split; [vm_compute; reflexivity |].
  destruct (evidence_demanded_once Sample.understaffed 5 300 _
              ltac:(vm_compute; reflexivity)) as (Habsent & Hpresent & Hafter).
  split; [| split].
  - apply Habsent.
    + repeat constructor; discriminate.
    + vm_compute. intros Hin. inversion Hin.
  - apply Hpresent.
    + constructor; [| constructor]. intros _. exists 5. reflexivity.
    + vm_compute. left.
    + intros h [[] Hh]. vm_compute in Hh. discriminate.
  - eexists. split; [vm_compute; reflexivity |].
    intros block'. apply (Hafter (Sample.block 301 [1])).
    vm_compute. reflexivity.
Defined.

Lemma update_next_keeps_round_witness :
  exists a',
    IncreaseChainHeight (Sample.block 189 []) Sample.crcOnly = Returns a' /\
    dutyIndex a' = dutyIndex Sample.crcOnly /\
    currentArbitrators a' = currentArbitrators Sample.crcOnly /\
    accumulativeReward a' = accumulativeReward Sample.crcOnly /\
    arbitersRoundReward a' = arbitersRoundReward Sample.crcOnly /\
    finalRoundChange a' = finalRoundChange Sample.crcOnly /\
    clearingHeight a' = clearingHeight Sample.crcOnly.
Proof.
  eexists. split; [vm_compute; reflexivity |].
  apply (update_next_keeps_round Sample.crcOnly (Sample.block 189 [])).
  - reflexivity.
  - vm_compute. reflexivity.
Defined.


Lemma force_change_committee_witness :
  exists a',
    ForceChange 300 Sample.understaffed = (Ok tt, a') /\
    (forall k p,
       crcArbitratorsNodePublicKey Sample.understaffed !! k = Some p ->
       IsArbitrator (NodePublicKey (info p)) a' = true) /\
    (degraded a' = true ->
     currentArbitrators a' ≡ₚ crcNodeKeys Sample.understaffed /\
     currentCandidates a' = []).
Proof.
  eexists. split; [vm_compute; reflexivity |].
  apply (force_change_committee 300 Sample.understaffed).
  vm_compute. reflexivity.
Defined.

Lemma duty_index_by_height_witness :
  exists index,
    GetDutyIndexByHeight 301 (set_dutyIndex 3 Sample.understaffed) = Returns index /\
    0 <= index < 2 /\
    (100 <= 301 ->
     exists arbiter,
       currentArbitrators Sample.understaffed !! Z.to_nat index = Some arbiter /\
       GetNextOnDutyArbitratorV 301 0 (set_dutyIndex 3 Sample.understaffed)
       = Returns (Some arbiter)) /\
    (301 < 100 - 1 -> index = 301 mod 2).
Proof.
  apply (duty_index_by_height (set_dutyIndex 3 Sample.understaffed) 301).
  - simpl. lia.
  - discriminate.
  - unfold Int.max_int64. simpl. lia.
  - lia.
Defined.

Lemma cross_chain_on_duty_witness :
  exists arbiter,
    GetOnDutyCrossChainArbitrator 300 Elected.committee
    = (Returns (Some arbiter), set_crcArbiters [[2]; [3]] Elected.committee) /\
    [[2]; [3]] !! Z.to_nat ((300 - 100 + 1) mod 2) = Some arbiter /\
    arbiter ∈ crcArbiters Elected.committee /\
    GetOnDutyCrossChainArbitrator 300 (set_crcArbiters [[2]; [3]] Elected.committee)
    = (Returns (Some arbiter), set_crcArbiters [[2]; [3]] Elected.committee).
Proof.
  destruct (cross_chain_on_duty Elected.committee 300) as [_ Hne].
  - simpl. lia.
  - simpl. lia.
  - apply Hne. discriminate.
Defined.

Lemma rollback_one_block_witness :
  exists a',
    IncreaseChainHeight Sample.block250 Sample.understaffed = Returns a' /\
    exists a'',
      DecreaseChainHeight (fun _ d => d) 251 250 a' = (Ok tt, a'') /\
      dutyIndex a'' = dutyIndex Sample.understaffed /\
      currentArbitrators a'' = currentArbitrators Sample.understaffed /\
      accumulativeReward a'' = accumulativeReward a' /\
      (200 < 250 ->
       accumulativeReward a''
       = Int.int64 (accumulativeReward Sample.understaffed
                    + getBlockDPOSReward Sample.block250 Sample.understaffed)).
Proof.
  eexists. split; [vm_compute; reflexivity |].
  apply (rollback_one_block (fun _ d => d) Sample.understaffed Sample.block250
           _ 251 250).
  - reflexivity.
  - unfold Int.max_int64. simpl. lia.
  - vm_compute. reflexivity.
  - reflexivity.
Defined.

Lemma quorum_intersection_witness :
  (forall m1 m2,
     HasArbitersMajorityCount m1 Sample.understaffed = true ->
     HasArbitersMajorityCount m2 Sample.understaffed = true ->
     (2 - 1) / 3 < m1 + m2 - 2) /\
  (forall m, 0 <= m <= 2 ->
     HasArbitersMinorityCount m Sample.understaffed
     = negb (HasArbitersMajorityCount (2 - m) Sample.understaffed)) /\
  (forall m,
     HasArbitersMajorityCount m Sample.understaffed = true ->
     HasArbitersMinorityCount m Sample.understaffed = true).
Proof.
  apply (quorum_intersection Sample.understaffed 2); [reflexivity | lia].
Defined.

Lemma clearing_pays_pending_reward_witness :
  exists a',
    clearingDPOSReward Sample.block250 false Sample.voted = (Ok tt, a') /\
    sumRoundReward (roundReward a') + finalRoundChange a' = 7 /\
    0 <= finalRoundChange a' /\
    accumulativeReward a' = getBlockDPOSReward Sample.block250 Sample.voted /\
    clearingHeight a' = 250.
Proof.
  eexists. split; [vm_compute; reflexivity |].
  apply (clearing_pays_pending_reward Sample.block250 false Sample.voted).
  - vm_compute. discriminate.
  - vm_compute. reflexivity.
  - vm_compute. discriminate.
  - apply (bool_decide_unpack _). vm_compute. reflexivity.
  - apply (bool_decide_unpack _). vm_compute. reflexivity.
  - vm_compute. split; discriminate.
  - vm_compute. reflexivity.
  - vm_compute. split; discriminate.
Defined.
